(** * Space Defender: the simulation core of [main.cpp]

    A shallow embedding of the game state, the per-frame [update]
    function and the [keyboardDown] handler, followed by the properties
    of the simulation that the specification states.

    Numbers are modelled as the program has them:
    - [int] is a 32-bit two's complement integer, a [Z] wrapped by [wrap];
      C++ leaves signed overflow undefined, and the properties below are
      stated where none occurs;
    - [float] is IEEE 754 binary32 ([spec_float] at precision 24), every
      operation rounding to nearest even; [double] sub-expressions are
      evaluated in binary64 and rounded when stored into a [float]. *)

From Stdlib Require Import ZArith List Bool Ascii Lia.
From Stdlib Require Import Floats.SpecFloat.
Import ListNotations.

Local Open Scope Z_scope.

(** ** Machine numbers *)

Module Int.

Definition INT_MIN : Z := - 2 ^ 31.
Definition INT_MAX : Z := 2 ^ 31 - 1.

(** Reduction of a mathematical result into the range of [int]. *)
Definition wrap (z : Z) : Z := (z + 2 ^ 31) mod 2 ^ 32 - 2 ^ 31.

Definition in_range (z : Z) : Prop := INT_MIN <= z <= INT_MAX.

Definition add (a b : Z) : Z := wrap (a + b).
Definition sub (a b : Z) : Z := wrap (a - b).
Definition mul (a b : Z) : Z := wrap (a * b).

End Int.

Module F32.

Definition prec : Z := 24.
Definition emax : Z := 128.

Definition t : Type := spec_float.

Definition zero : t := S754_zero false.

(** Conversion of an [int] to [float]. *)
Definition of_Z (z : Z) : t := binary_normalize prec emax z 0 false.

Definition add (a b : t) : t := SFadd prec emax a b.
Definition sub (a b : t) : t := SFsub prec emax a b.
Definition mul (a b : t) : t := SFmul prec emax a b.
Definition sqrt (a : t) : t := SFsqrt prec emax a.
Definition ltb (a b : t) : bool := SFltb a b.
Definition leb (a b : t) : bool := SFleb a b.

(** [x++] on a [float]. *)
Definition incr (a : t) : t := add a (of_Z 1).

End F32.

Module F64.

Definition prec : Z := 53.
Definition emax : Z := 1024.

Definition t : Type := spec_float.

Definition of_Z (z : Z) : t := binary_normalize prec emax z 0 false.

(** The literal [0.5], that is 1 * 2^-1. *)
Definition half : t := binary_normalize prec emax 1 (-1) false.

(** The literal [1.5], that is 3 * 2^-1. *)
Definition one_half : t := binary_normalize prec emax 3 (-1) false.

Definition add (a b : t) : t := SFadd prec emax a b.
Definition mul (a b : t) : t := SFmul prec emax a b.

(** Promotion of a [float] operand: every binary32 value is a binary64
      value. *)
Definition of_f32 (a : F32.t) : t := a.

(** Rounding of a [double] result stored into a [float]. *)
Definition to_f32 (a : t) : F32.t :=
    match a with
    | S754_finite s m e =>
        binary_normalize F32.prec F32.emax
          (if s then Z.neg m else Z.pos m) e s
    | _ => a
    end.

End F64.

Declare Scope f32_scope.
Delimit Scope f32_scope with f32.
Infix "+" := F32.add : f32_scope.
Infix "-" := F32.sub : f32_scope.
Infix "*" := F32.mul : f32_scope.
Infix "<?" := F32.ltb : f32_scope.
Infix "<=?" := F32.leb : f32_scope.

(** ** Data model *)

(** Window dimensions. *)
Definition WIDTH : Z := 800.
Definition HEIGHT : Z := 600.

Inductive GameState : Type := MENU | PLAYING | GAME_OVER.

Module Player.
Record t : Type := mk {
    x : F32.t;
    y : F32.t;
    size : F32.t;
    speed : F32.t;
    lives : Z;
    score : Z
  }.

Definition set_x (v : F32.t) (p : t) : t :=
  mk v (y p) (size p) (speed p) (lives p) (score p).
Definition set_y (v : F32.t) (p : t) : t :=
  mk (x p) v (size p) (speed p) (lives p) (score p).
Definition set_lives (v : Z) (p : t) : t :=
  mk (x p) (y p) (size p) (speed p) v (score p).
Definition set_score (v : Z) (p : t) : t :=
  mk (x p) (y p) (size p) (speed p) (lives p) v.
End Player.

Module Bullet.
Record t : Type := mk {
    x : F32.t;
    y : F32.t;
    speed : F32.t;
    active : bool
  }.

Definition set_y (v : F32.t) (b : t) : t := mk (x b) v (speed b) (active b).
Definition set_active (v : bool) (b : t) : t := mk (x b) (y b) (speed b) v.
End Bullet.

Module Enemy.
Record t : Type := mk {
    x : F32.t;
    y : F32.t;
    speed : F32.t;
    active : bool;
    type : Z
  }.

Definition set_y (v : F32.t) (e : t) : t :=
  mk (x e) v (speed e) (active e) (type e).
Definition set_active (v : bool) (e : t) : t :=
  mk (x e) (y e) (speed e) v (type e).
End Enemy.

Module PowerUp.
Record t : Type := mk {
    x : F32.t;
    y : F32.t;
    speed : F32.t;
    active : bool
  }.

Definition set_y (v : F32.t) (p : t) : t := mk (x p) v (speed p) (active p).
Definition set_active (v : bool) (p : t) : t := mk (x p) (y p) (speed p) v.
End PowerUp.

(** The global variables of the program.  [randoms] stands for the state
    of the C library generator behind [rand()]: the sequence of values the
    coming calls return. *)
Record Game : Type := mkGame {
  gameState : GameState;
  player : Player.t;
  bullets : list Bullet.t;
  enemies : list Enemy.t;
  powerUps : list PowerUp.t;
  starOffset : F32.t;
  enemySpawnTimer : F32.t;
  powerUpTimer : F32.t;
  gameLevelTimer : F32.t;
  currentLevel : Z;
  enemySpawnRate : Z;
  lastHitTimer : F32.t;
  playerShape : Z;
  keys : ascii -> bool;
  randoms : nat -> Z
}.

Definition set_gameState (v : GameState) (g : Game) : Game :=
  mkGame v (player g) (bullets g) (enemies g) (powerUps g) (starOffset g)
    (enemySpawnTimer g) (powerUpTimer g) (gameLevelTimer g) (currentLevel g)
    (enemySpawnRate g) (lastHitTimer g) (playerShape g) (keys g) (randoms g).
Definition set_player (v : Player.t) (g : Game) : Game :=
  mkGame (gameState g) v (bullets g) (enemies g) (powerUps g) (starOffset g)
    (enemySpawnTimer g) (powerUpTimer g) (gameLevelTimer g) (currentLevel g)
    (enemySpawnRate g) (lastHitTimer g) (playerShape g) (keys g) (randoms g).
Definition set_bullets (v : list Bullet.t) (g : Game) : Game :=
  mkGame (gameState g) (player g) v (enemies g) (powerUps g) (starOffset g)
    (enemySpawnTimer g) (powerUpTimer g) (gameLevelTimer g) (currentLevel g)
    (enemySpawnRate g) (lastHitTimer g) (playerShape g) (keys g) (randoms g).
Definition set_enemies (v : list Enemy.t) (g : Game) : Game :=
  mkGame (gameState g) (player g) (bullets g) v (powerUps g) (starOffset g)
    (enemySpawnTimer g) (powerUpTimer g) (gameLevelTimer g) (currentLevel g)
    (enemySpawnRate g) (lastHitTimer g) (playerShape g) (keys g) (randoms g).
Definition set_powerUps (v : list PowerUp.t) (g : Game) : Game :=
  mkGame (gameState g) (player g) (bullets g) (enemies g) v (starOffset g)
    (enemySpawnTimer g) (powerUpTimer g) (gameLevelTimer g) (currentLevel g)
    (enemySpawnRate g) (lastHitTimer g) (playerShape g) (keys g) (randoms g).
Definition set_starOffset (v : F32.t) (g : Game) : Game :=
  mkGame (gameState g) (player g) (bullets g) (enemies g) (powerUps g) v
    (enemySpawnTimer g) (powerUpTimer g) (gameLevelTimer g) (currentLevel g)
    (enemySpawnRate g) (lastHitTimer g) (playerShape g) (keys g) (randoms g).
Definition set_enemySpawnTimer (v : F32.t) (g : Game) : Game :=
  mkGame (gameState g) (player g) (bullets g) (enemies g) (powerUps g)
    (starOffset g) v (powerUpTimer g) (gameLevelTimer g) (currentLevel g)
    (enemySpawnRate g) (lastHitTimer g) (playerShape g) (keys g) (randoms g).
Definition set_powerUpTimer (v : F32.t) (g : Game) : Game :=
  mkGame (gameState g) (player g) (bullets g) (enemies g) (powerUps g)
    (starOffset g) (enemySpawnTimer g) v (gameLevelTimer g) (currentLevel g)
    (enemySpawnRate g) (lastHitTimer g) (playerShape g) (keys g) (randoms g).
Definition set_gameLevelTimer (v : F32.t) (g : Game) : Game :=
  mkGame (gameState g) (player g) (bullets g) (enemies g) (powerUps g)
    (starOffset g) (enemySpawnTimer g) (powerUpTimer g) v (currentLevel g)
    (enemySpawnRate g) (lastHitTimer g) (playerShape g) (keys g) (randoms g).
Definition set_currentLevel (v : Z) (g : Game) : Game :=
  mkGame (gameState g) (player g) (bullets g) (enemies g) (powerUps g)
    (starOffset g) (enemySpawnTimer g) (powerUpTimer g) (gameLevelTimer g) v
    (enemySpawnRate g) (lastHitTimer g) (playerShape g) (keys g) (randoms g).
Definition set_enemySpawnRate (v : Z) (g : Game) : Game :=
  mkGame (gameState g) (player g) (bullets g) (enemies g) (powerUps g)
    (starOffset g) (enemySpawnTimer g) (powerUpTimer g) (gameLevelTimer g)
    (currentLevel g) v (lastHitTimer g) (playerShape g) (keys g) (randoms g).
Definition set_lastHitTimer (v : F32.t) (g : Game) : Game :=
  mkGame (gameState g) (player g) (bullets g) (enemies g) (powerUps g)
    (starOffset g) (enemySpawnTimer g) (powerUpTimer g) (gameLevelTimer g)
    (currentLevel g) (enemySpawnRate g) v (playerShape g) (keys g) (randoms g).
Definition set_playerShape (v : Z) (g : Game) : Game :=
  mkGame (gameState g) (player g) (bullets g) (enemies g) (powerUps g)
    (starOffset g) (enemySpawnTimer g) (powerUpTimer g) (gameLevelTimer g)
    (currentLevel g) (enemySpawnRate g) (lastHitTimer g) v (keys g) (randoms g).
Definition set_keys (v : ascii -> bool) (g : Game) : Game :=
  mkGame (gameState g) (player g) (bullets g) (enemies g) (powerUps g)
    (starOffset g) (enemySpawnTimer g) (powerUpTimer g) (gameLevelTimer g)
    (currentLevel g) (enemySpawnRate g) (lastHitTimer g) (playerShape g) v
    (randoms g).
Definition set_randoms (v : nat -> Z) (g : Game) : Game :=
  mkGame (gameState g) (player g) (bullets g) (enemies g) (powerUps g)
    (starOffset g) (enemySpawnTimer g) (powerUpTimer g) (gameLevelTimer g)
    (currentLevel g) (enemySpawnRate g) (lastHitTimer g) (playerShape g)
    (keys g) v.

(** [rand()]: returns the next value of the generator and advances it. *)
Definition rand (g : Game) : Z * Game :=
  (randoms g O, set_randoms (fun n => randoms g (S n)) g).

(** [sqrt(dx * dx + dy * dy)], the distance every collision test computes.
    Whether the call resolves to the [float] or to the [double] overload of
    [sqrt], the value stored in [float distance] is the same: rounding a
    binary64 square root of a binary32 argument to binary32 gives the
    binary32 square root. *)
Definition distance (dx dy : F32.t) : F32.t :=
  F32.sqrt (dx * dx + dy * dy)%f32.

(** ** The frame update, [update(int)]

    The body of [if (gameState == PLAYING)] is cut into the blocks the source
    separates by comments, in source order. *)

(** Background animation. *)
Definition update_stars (g : Game) : Game :=
  let so := F64.to_f32 (F64.add (F64.of_f32 (starOffset g)) F64.half) in
  set_starOffset (if (F32.of_Z HEIGHT <? so)%f32 then F32.zero else so) g.

(** Timer increments. *)
Definition increment_timers (g : Game) : Game :=
  let g := set_enemySpawnTimer (F32.incr (enemySpawnTimer g)) g in
  let g := set_powerUpTimer (F32.incr (powerUpTimer g)) g in
  let g := set_gameLevelTimer (F32.incr (gameLevelTimer g)) g in
  set_lastHitTimer (F32.incr (lastHitTimer g)) g.

(** 1. Level management. *)
Definition level_management (g : Game) : Game :=
  if (F32.of_Z 900 <=? gameLevelTimer g)%f32 then
    let g :=
      if currentLevel g <? 3 then
        let g := set_currentLevel (Int.add (currentLevel g) 1) g in
        set_enemySpawnRate
          (Int.sub 60 (Int.mul (Int.sub (currentLevel g) 1) 25)) g
      else g in
    set_gameLevelTimer F32.zero g
  else g.

(** 2. Player penalty. *)
Definition player_penalty (g : Game) : Game :=
  if (F32.of_Z 300 <=? lastHitTimer g)%f32 then
    let g :=
      if 0 <? Player.lives (player g) then
        let g :=
          set_player
            (Player.set_lives (Int.sub (Player.lives (player g)) 1) (player g))
            g in
        set_lastHitTimer F32.zero g
      else g in
    if Player.lives (player g) <=? 0 then set_gameState GAME_OVER g else g
  else g.

(** Player position from the key table. *)
Definition move_player (k : ascii -> bool) (p : Player.t) : Player.t :=
  let p :=
    if k "a"%char || k "A"%char then
      let p := Player.set_x (Player.x p - Player.speed p)%f32 p in
      if (Player.x p <? Player.size p)%f32
      then Player.set_x (Player.size p) p else p
    else p in
  let p :=
    if k "d"%char || k "D"%char then
      let p := Player.set_x (Player.x p + Player.speed p)%f32 p in
      if (F32.of_Z WIDTH - Player.size p <? Player.x p)%f32
      then Player.set_x (F32.of_Z WIDTH - Player.size p)%f32 p else p
    else p in
  let p :=
    if k "w"%char || k "W"%char then
      let p := Player.set_y (Player.y p + Player.speed p)%f32 p in
      if (F32.of_Z HEIGHT - Player.size p <? Player.y p)%f32
      then Player.set_y (F32.of_Z HEIGHT - Player.size p)%f32 p else p
    else p in
  if k "s"%char || k "S"%char then
    let p := Player.set_y (Player.y p - Player.speed p)%f32 p in
    if (Player.y p <? Player.size p)%f32
    then Player.set_y (Player.size p) p else p
  else p.

(** Update bullets. *)
Definition update_bullet (b : Bullet.t) : Bullet.t :=
  if Bullet.active b then
    let b := Bullet.set_y (Bullet.y b + Bullet.speed b)%f32 b in
    if (F32.of_Z HEIGHT <? Bullet.y b)%f32
    then Bullet.set_active false b else b
  else b.

(** Spawn enemies.  The two calls of [rand()] in the expression for
    [enemy.x] are taken left to right. *)
Definition spawn_enemy (g : Game) : Game :=
  if (F32.of_Z (enemySpawnRate g) <? enemySpawnTimer g)%f32 then
    let '(r1, g) := rand g in
    let '(r2, g) := rand g in
    let ex := F32.of_Z (Int.add (Z.rem r1 (WIDTH - 40)) (Z.rem r2 20)) in
    let ey := F32.of_Z HEIGHT in
    let '(r3, g) := rand g in
    let espeed :=
      F64.to_f32
        (F64.add (F64.add (F64.of_Z 2) (F64.of_Z (Z.rem r3 3)))
                 (F64.mul (F64.of_Z (currentLevel g)) F64.half)) in
    let '(r4, g) := rand g in
    let enemy := Enemy.mk ex ey espeed true (Z.rem r4 4) in
    let g := set_enemies (enemies g ++ [enemy]) g in
    set_enemySpawnTimer F32.zero g
  else g.

(** Update one enemy and check its collision with the player: the body of
    the loop over [enemies].  The loop updates [player.lives] and
    [gameState]. *)
Definition update_enemy (e : Enemy.t) (p : Player.t) (st : GameState)
  : Enemy.t * Player.t * GameState :=
  if Enemy.active e then
    let e := Enemy.set_y (Enemy.y e - Enemy.speed e)%f32 e in
    let e :=
      if (Enemy.y e <? F32.of_Z (-30))%f32
      then Enemy.set_active false e else e in
    let dx := (Enemy.x e - Player.x p)%f32 in
    let dy := (Enemy.y e - Player.y p)%f32 in
    if (distance dx dy <? Player.size p + F32.of_Z 15)%f32 then
      let e := Enemy.set_active false e in
      let p := Player.set_lives (Int.sub (Player.lives p) 1) p in
      (e, p, if Player.lives p <=? 0 then GAME_OVER else st)
    else (e, p, st)
  else (e, p, st).

Fixpoint update_enemies (es : list Enemy.t) (p : Player.t) (st : GameState)
  : list Enemy.t * Player.t * GameState :=
  match es with
  | [] => ([], p, st)
  | e :: es =>
      let '(e, p, st) := update_enemy e p st in
      let '(es, p, st) := update_enemies es p st in
      (e :: es, p, st)
  end.

(** Bullet-enemy collision: the body of the inner loop, for one bullet and
    one enemy.  It updates the bullet, the enemy, [player.score] and
    [lastHitTimer]. *)
Definition hit_enemy (b : Bullet.t) (e : Enemy.t) (p : Player.t) (t : F32.t)
  : Bullet.t * Enemy.t * Player.t * F32.t :=
  if Enemy.active e then
    let dx := (Bullet.x b - Enemy.x e)%f32 in
    let dy := (Bullet.y b - Enemy.y e)%f32 in
    if (distance dx dy <? F32.of_Z 20)%f32 then
      (Bullet.set_active false b, Enemy.set_active false e,
       Player.set_score (Int.add (Player.score p) 10) p, F32.zero)
    else (b, e, p, t)
  else (b, e, p, t).

(** The inner loop: one bullet against every enemy, in order. *)
Fixpoint scan_enemies (b : Bullet.t) (es : list Enemy.t) (p : Player.t)
  (t : F32.t) : Bullet.t * list Enemy.t * Player.t * F32.t :=
  match es with
  | [] => (b, [], p, t)
  | e :: es =>
      let '(b, e, p, t) := hit_enemy b e p t in
      let '(b, es, p, t) := scan_enemies b es p t in
      (b, e :: es, p, t)
  end.

(** The outer loop: [bullet.active] is tested once per bullet, before its
    inner loop starts. *)
Fixpoint scan_bullets (bs : list Bullet.t) (es : list Enemy.t) (p : Player.t)
  (t : F32.t) : list Bullet.t * list Enemy.t * Player.t * F32.t :=
  match bs with
  | [] => ([], es, p, t)
  | b :: bs =>
      let '(b, es, p, t) :=
        if Bullet.active b then scan_enemies b es p t else (b, es, p, t) in
      let '(bs, es, p, t) := scan_bullets bs es p t in
      (b :: bs, es, p, t)
  end.

(** Spawn power-ups. *)
Definition spawn_powerUp (g : Game) : Game :=
  if (F32.of_Z 300 <? powerUpTimer g)%f32 then
    let '(r, g) := rand g in
    let powerUp :=
      PowerUp.mk (F32.of_Z (Int.add (Z.rem r (WIDTH - 40)) 20))
        (F32.of_Z HEIGHT) (F64.to_f32 F64.one_half) true in
    let g := set_powerUps (powerUps g ++ [powerUp]) g in
    set_powerUpTimer F32.zero g
  else g.

(** Update one power-up and check its collision with the player. *)
Definition update_powerUp (u : PowerUp.t) (p : Player.t)
  : PowerUp.t * Player.t :=
  if PowerUp.active u then
    let u := PowerUp.set_y (PowerUp.y u - PowerUp.speed u)%f32 u in
    let u :=
      if (PowerUp.y u <? F32.of_Z (-20))%f32
      then PowerUp.set_active false u else u in
    let dx := (PowerUp.x u - Player.x p)%f32 in
    let dy := (PowerUp.y u - Player.y p)%f32 in
    if (distance dx dy <? Player.size p + F32.of_Z 10)%f32 then
      let u := PowerUp.set_active false u in
      let p :=
        if Player.lives p <? 5
        then Player.set_lives (Int.add (Player.lives p) 1) p else p in
      (u, Player.set_score (Int.add (Player.score p) 20) p)
    else (u, p)
  else (u, p).

Fixpoint update_powerUps (us : list PowerUp.t) (p : Player.t)
  : list PowerUp.t * Player.t :=
  match us with
  | [] => ([], p)
  | u :: us =>
      let '(u, p) := update_powerUp u p in
      let '(us, p) := update_powerUps us p in
      (u :: us, p)
  end.

(** [std::remove_if]: the elements for which [pred] is false are moved to
    the front in their order, and the new logical end is returned; the
    enclosing [erase] drops the tail.  Together they keep, in order, the
    elements that do not satisfy [pred]. *)
Fixpoint erase_remove_if {A : Type} (pred : A -> bool) (v : list A) : list A :=
  match v with
  | [] => []
  | a :: v => if pred a then erase_remove_if pred v
              else a :: erase_remove_if pred v
  end.

(** Remove inactive objects. *)
Definition cleanup (g : Game) : Game :=
  let g :=
    set_bullets
      (erase_remove_if (fun b => negb (Bullet.active b)) (bullets g)) g in
  let g :=
    set_enemies
      (erase_remove_if (fun e => negb (Enemy.active e)) (enemies g)) g in
  set_powerUps
    (erase_remove_if (fun u => negb (PowerUp.active u)) (powerUps g)) g.

(** The blocks of a frame that mark objects inactive, up to the cleanup. *)
Definition collide_enemies (g : Game) : Game :=
  let '(es, p, st) := update_enemies (enemies g) (player g) (gameState g) in
  set_gameState st (set_player p (set_enemies es g)).

Definition collide_bullets (g : Game) : Game :=
  let '(bs, es, p, t) :=
    scan_bullets (bullets g) (enemies g) (player g) (lastHitTimer g) in
  set_lastHitTimer t (set_player p (set_enemies es (set_bullets bs g))).

Definition collide_powerUps (g : Game) : Game :=
  let '(us, p) := update_powerUps (powerUps g) (player g) in
  set_player p (set_powerUps us g).

Definition simulate (g : Game) : Game :=
  let g := update_stars g in
  let g := increment_timers g in
  let g := level_management g in
  let g := player_penalty g in
  let g := set_player (move_player (keys g) (player g)) g in
  let g := set_bullets (map update_bullet (bullets g)) g in
  let g := spawn_enemy g in
  let g := collide_enemies g in
  let g := collide_bullets g in
  let g := spawn_powerUp g in
  collide_powerUps g.

(** [update(int value)].  [gameState] is tested once, on entry; the
    requests to redisplay and to be called again 16 ms later concern the
    host loop and leave the game state alone. *)
Definition update (value : Z) (g : Game) : Game :=
  match gameState g with
  | PLAYING => cleanup (simulate g)
  | _ => g
  end.

(** ** Keyboard *)

Definition ESC : ascii := ascii_of_nat 27.

(** [keyboardDown(key, x, y)]; [None] is [exit(0)]. *)
Definition keyboardDown (key : ascii) (x y : Z) (g : Game) : option Game :=
  let g := set_keys (fun c => if Ascii.eqb c key then true else keys g c) g in
  if Ascii.eqb key ESC then None
  else if Ascii.eqb key " "%char then
    match gameState g with
    | PLAYING =>
        let bullet :=
          Bullet.mk (Player.x (player g))
            (Player.y (player g) + Player.size (player g))%f32
            (F32.of_Z 10) true in
        Some (set_bullets (bullets g ++ [bullet]) g)
    | _ =>
        let g := set_gameState PLAYING g in
        let g := set_player (Player.set_lives 3 (player g)) g in
        let g := set_player (Player.set_score 0 (player g)) g in
        let g :=
          set_player (Player.set_x (F32.of_Z (WIDTH / 2)) (player g)) g in
        let g := set_player (Player.set_y (F32.of_Z 50) (player g)) g in
        let g := set_bullets [] g in
        let g := set_enemies [] g in
        let g := set_powerUps [] g in
        let g := set_currentLevel 1 g in
        let g := set_enemySpawnRate 60 g in
        let g := set_gameLevelTimer F32.zero g in
        let g := set_lastHitTimer F32.zero g in
        Some (set_playerShape 0 g)
    end
  else Some g.

(** [keyboardUp(key, x, y)]. *)
Definition keyboardUp (key : ascii) (x y : Z) (g : Game) : Game :=
  set_keys (fun c => if Ascii.eqb c key then false else keys g c) g.

(** The arrow keys, as the GLUT header numbers them. *)
Definition GLUT_KEY_LEFT : Z := 100.
Definition GLUT_KEY_UP : Z := 101.
Definition GLUT_KEY_RIGHT : Z := 102.
Definition GLUT_KEY_DOWN : Z := 103.

(** The [switch] of [specialDown] and [specialUp]: the entry of the key
    table an arrow key stands for. *)
Definition arrow_entry (key : Z) : option ascii :=
  if key =? GLUT_KEY_LEFT then Some "a"%char
  else if key =? GLUT_KEY_RIGHT then Some "d"%char
  else if key =? GLUT_KEY_UP then Some "w"%char
  else if key =? GLUT_KEY_DOWN then Some "s"%char
  else None.

(** [specialDown(key, x, y)]. *)
Definition specialDown (key : Z) (x y : Z) (g : Game) : Game :=
  match arrow_entry key with
  | Some a => set_keys (fun c => if Ascii.eqb c a then true else keys g c) g
  | None => g
  end.

(** [specialUp(key, x, y)]. *)
Definition specialUp (key : Z) (x y : Z) (g : Game) : Game :=
  match arrow_entry key with
  | Some a => set_keys (fun c => if Ascii.eqb c a then false else keys g c) g
  | None => g
  end.

(** The globals as their initialisers and [init()] leave them, for a
    generator seeded to produce [rs]. *)
Definition init (rs : nat -> Z) : Game :=
  mkGame MENU
    (Player.mk (F32.of_Z (WIDTH / 2)) (F32.of_Z 50) (F32.of_Z 20)
       (F32.of_Z 5) 3 0)
    [] [] [] F32.zero F32.zero F32.zero F32.zero 1 60 F32.zero 0
    (fun _ => false) rs.

(** ** Runs of the program *)

(** What the host loop delivers: a timer callback or a keyboard callback. *)
Inductive Event : Type :=
| Tick (value : Z)
| KeyDown (key : ascii) (x y : Z)
| KeyUp (key : ascii) (x y : Z)
| SpecialDown (key : Z) (x y : Z)
| SpecialUp (key : Z) (x y : Z).

Definition step (ev : Event) (g : Game) : option Game :=
  match ev with
  | Tick value => Some (update value g)
  | KeyDown key x y => keyboardDown key x y g
  | KeyUp key x y => Some (keyboardUp key x y g)
  | SpecialDown key x y => Some (specialDown key x y g)
  | SpecialUp key x y => Some (specialUp key x y g)
  end.

(** A run stops at [exit(0)]. *)
Fixpoint run (evs : list Event) (g : Game) : option Game :=
  match evs with
  | [] => Some g
  | ev :: evs =>
      match step ev g with
      | Some g => run evs g
      | None => None
      end
  end.

(** [n] frames in a row. *)
Fixpoint ticks (n : nat) (g : Game) : Game :=
  match n with
  | O => g
  | S n => ticks n (update 0 g)
  end.

(** Number of timer callbacks among the events. *)
Fixpoint count_ticks (evs : list Event) : Z :=
  match evs with
  | [] => 0
  | Tick _ :: evs => 1 + count_ticks evs
  | _ :: evs => count_ticks evs
  end.

(** The state right after the start key is pressed on the menu of a process
    whose generator produces [rs]. *)
Definition start (rs : nat -> Z) : Game :=
  match keyboardDown " "%char 0 0 (init rs) with
  | Some g => g
  | None => init rs
  end.

(** Pressing the space bar. *)
Definition press_space (g : Game) : Game :=
  match keyboardDown " "%char 0 0 g with
  | Some g => g
  | None => g
  end.

(** Generators for the scenarios below. *)

(** A generator that always returns 0: every enemy appears at x = 0. *)
Definition rs_zero (n : nat) : Z := 0.

(** A generator that always returns 400: every enemy appears at x = 400,
    above the player, with speed 3.5. *)
Definition rs_centre (n : nat) : Z := 400.

(** A generator whose seventh enemy appears at x = 420 with speed 2.5 and
    whose eighth appears at x = 400 with speed 3.5; everything else appears
    at the left edge. *)
Definition rs_pair (n : nat) : Z :=
  match n with
  | 25%nat => 420
  | 29%nat => 400
  | 31%nat => 1
  | _ => 0
  end.

(** A generator whose first two enemies appear at x = 400, with speeds 2.5
    and 4.5. *)
Definition rs_column (n : nat) : Z :=
  match n with
  | 0%nat => 400
  | 4%nat => 400
  | 6%nat => 2
  | _ => 0
  end.

(** ** Vocabulary of the properties *)

(** The overlap test of the bullet-enemy scan. *)
Definition bullet_hits (b : Bullet.t) (e : Enemy.t) : bool :=
  (distance (Bullet.x b - Enemy.x e) (Bullet.y b - Enemy.y e)
   <? F32.of_Z 20)%f32.

(** The overlap test of the power-up loop, taken where the loop takes it:
    after the power-up has moved. *)
Definition player_overlaps (p : Player.t) (u : PowerUp.t) : bool :=
  (distance (PowerUp.x u - Player.x p)
     (PowerUp.y u - PowerUp.speed u - Player.y p)
   <? Player.size p + F32.of_Z 10)%f32.

(** The overlap test of the enemy loop, taken after the enemy has moved. *)
Definition player_touches (p : Player.t) (e : Enemy.t) : bool :=
  (distance (Enemy.x e - Player.x p)
     (Enemy.y e - Enemy.speed e - Player.y p)
   <? Player.size p + F32.of_Z 15)%f32.

(** Enemies the loop over [enemies] finds in contact with the player. *)
Definition contacts (p : Player.t) (es : list Enemy.t) : Z :=
  Z.of_nat
    (length (filter (fun e => Enemy.active e && player_touches p e) es)).



(** No collection holds an inactive object. *)
Definition all_active (g : Game) : Prop :=
  Forall (fun b => Bullet.active b = true) (bullets g) /\
  Forall (fun e => Enemy.active e = true) (enemies g) /\
  Forall (fun u => PowerUp.active u = true) (powerUps g).

(** The condition under which the penalty block of the next frame is
    entered. *)
Definition penalty_due (g : Game) : bool :=
  (F32.of_Z 300 <=? F32.incr (lastHitTimer g))%f32.

(** The condition under which the level block of the next frame is
    entered. *)
Definition level_due (g : Game) : bool :=
  (F32.of_Z 900 <=? F32.incr (gameLevelTimer g))%f32.

(** The difficulty state: level, spawn interval, level timer. *)
Definition difficulty (g : Game) : Z * Z * F32.t :=
  (currentLevel g, enemySpawnRate g, gameLevelTimer g).

(** The two spawn timers. *)
Definition spawn_timers (g : Game) : F32.t * F32.t :=
  (enemySpawnTimer g, powerUpTimer g).

(** What the penalty block reads and writes. *)
Definition penalty_view (g : Game) : F32.t * Player.t * GameState :=
  (lastHitTimer g, player g, gameState g).

(** The frame up to and including the penalty block. *)
Definition clock (g : Game) : Game :=
  player_penalty (level_management (increment_timers (update_stars g))).

(** [l1] is [l2] with some elements dropped, the others in their order. *)
Inductive Subseq {A : Type} : list A -> list A -> Prop :=
| Subseq_nil : Subseq [] []
| Subseq_keep a l1 l2 : Subseq l1 l2 -> Subseq (a :: l1) (a :: l2)
| Subseq_drop a l1 l2 : Subseq l1 l2 -> Subseq l1 (a :: l2).

(** Structural equality of floating-point data. *)
Definition sf_eqb (a b : spec_float) : bool :=
  match a, b with
  | S754_zero s1, S754_zero s2 => Bool.eqb s1 s2
  | S754_infinity s1, S754_infinity s2 => Bool.eqb s1 s2
  | S754_nan, S754_nan => true
  | S754_finite s1 m1 e1, S754_finite s2 m2 e2 =>
      Bool.eqb s1 s2 && Pos.eqb m1 m2 && Z.eqb e1 e2
  | _, _ => false
  end.

(** [P] holds of 0, 1, ..., n - 1. *)
Fixpoint all_below (P : Z -> bool) (n : nat) : bool :=
  match n with
  | O => true
  | S n => P (Z.of_nat n) && all_below P n
  end.

(** The playfield spans [0, WIDTH]; an object of half-width [r] centred at
    [x] lies inside when [r <= x] and [x <= WIDTH - r]. *)
Definition inside_width (r : Z) (x : F32.t) : bool :=
  ((F32.of_Z r <=? x) && (x <=? F32.of_Z (WIDTH - r)))%f32.

(** What a restart is said to reset. *)
Definition reset_view (g : Game)
  : GameState * Z * Z * F32.t * F32.t * list Bullet.t * list Enemy.t
    * list PowerUp.t * (Z * Z * F32.t) * F32.t :=
  (gameState g, Player.lives (player g), Player.score (player g),
   Player.x (player g), Player.y (player g), bullets g, enemies g,
   powerUps g, difficulty g, lastHitTimer g).

(** Number of frames after which [P] first holds, within [fuel] frames. *)
Fixpoint ticks_until (P : Game -> bool) (fuel : nat) (g : Game) : option nat :=
  if P g then Some O
  else match fuel with
       | O => None
       | S fuel => option_map S (ticks_until P fuel (update 0 g))
       end.

Definition has_enemy (g : Game) : bool :=
  match enemies g with [] => false | _ => true end.

Definition has_powerUp (g : Game) : bool :=
  match powerUps g with [] => false | _ => true end.

(** The no-hit timer holds a whole number of frames, at most [n]. *)
Definition timer_within (n : Z) (g : Game) : Prop :=
  exists k, 0 <= k <= n /\ lastHitTimer g = F32.of_Z k.

(** [player.lives] after each of [n] frames. *)
Fixpoint lives_trace (n : nat) (g : Game) : list Z :=
  match n with
  | O => []
  | S n => Player.lives (player (update 0 g)) :: lives_trace n (update 0 g)
  end.

(** A state in which the no-hit timer is about to reach 300. *)
Definition penalty_ready (l : Z) : Game :=
  set_player (Player.set_lives l (player (start rs_zero)))
    (set_lastHitTimer (F32.of_Z 299) (start rs_zero)).

(** A state in which the level timer is about to reach 900. *)
Definition level_ready (l : Z) : Game :=
  set_currentLevel l (set_gameLevelTimer (F32.of_Z 899) (start rs_zero)).

(** The game lost after 300 frames under the enemies of [rs_centre], and
    the game lost after 900 frames without a shot under [rs_zero]. *)
Definition lost_centre : Game := ticks 300 (start rs_centre).
Definition lost_idle : Game := ticks 900 (start rs_zero).

(** What a frame shows of the game: state, lives, score, and the active
    flags of the bullets, enemies and power-ups. *)
Definition snapshot (g : Game)
  : GameState * Z * Z * list bool * list bool * list bool :=
  (gameState g, Player.lives (player g), Player.score (player g),
   map Bullet.active (bullets g), map Enemy.active (enemies g),
   map PowerUp.active (powerUps g)).

(** A state before and after one frame. *)
Definition frame_effect (g : Game) :=
  (snapshot g, snapshot (update 0 g)).

(** One bullet fired after frame 179 of the run under [rs_column], seventeen
    frames later. *)
Definition column_state : Game :=
  ticks 17 (press_space (ticks 179 (start rs_column))).

(** Frame 634 of the run under [rs_pair], without a shot. *)
Definition pair_state : Game := ticks 634 (start rs_pair).

(** States in which the spawn timers have just passed their intervals. *)
Definition enemy_ready : Game :=
  set_enemySpawnTimer (F32.of_Z 61) (start rs_zero).
Definition powerUp_ready : Game :=
  set_powerUpTimer (F32.of_Z 301) (start rs_zero).

(** A bullet at (400, 250), an enemy 8 above it, an enemy 50 above it, and a
    power-up about to drop onto the player's position. *)
Definition a_bullet : Bullet.t :=
  Bullet.mk (F32.of_Z 400) (F32.of_Z 250) (F32.of_Z 10) true.
Definition near_enemy : Enemy.t :=
  Enemy.mk (F32.of_Z 400) (F32.of_Z 258) (F32.of_Z 3) true 0.
Definition far_enemy : Enemy.t :=
  Enemy.mk (F32.of_Z 400) (F32.of_Z 300) (F32.of_Z 3) true 1.

(** ** Vocabulary of the invariants of a run *)

(** The level is one of 1, 2, 3 and the spawn interval is the one of the
    level. *)
Definition level_ok (g : Game) : Prop :=
  1 <= currentLevel g <= 3 /\
  enemySpawnRate g = 60 - (currentLevel g - 1) * 25.

(** The game state with the lives. *)
Definition vital (g : Game) : GameState * Z :=
  (gameState g, Player.lives (player g)).

(** The game is over, or it is played with one to five lives. *)
Definition alive_or_over (sl : GameState * Z) : Prop :=
  fst sl = GAME_OVER \/ (fst sl = PLAYING /\ 1 <= snd sl <= 5).

(** While the game is played the player has one to five lives. *)
Definition lives_ok (g : Game) : Prop :=
  gameState g = PLAYING -> 1 <= Player.lives (player g) <= 5.

(** The [float] that holds [k] halves. *)
Definition half_of (k : Z) : F32.t :=
  binary_normalize F32.prec F32.emax k (-1) false.

(** The spawn timers, the star offset and the spawn interval. *)
Definition pace (g : Game) : F32.t * F32.t * F32.t * Z :=
  (enemySpawnTimer g, powerUpTimer g, starOffset g, enemySpawnRate g).

(** What the enemy spawner and the power-up spawner do to their timers. *)
Definition enemy_reset (c : F32.t * F32.t * F32.t * Z)
  : F32.t * F32.t * F32.t * Z :=
  let '(e, p, s, r) := c in
  (if (F32.of_Z r <? e)%f32 then F32.zero else e, p, s, r).

Definition powerUp_reset (c : F32.t * F32.t * F32.t * Z)
  : F32.t * F32.t * F32.t * Z :=
  let '(e, p, s, r) := c in
  (e, if (F32.of_Z 300 <? p)%f32 then F32.zero else p, s, r).

(** A timer holds a whole number of frames, at most [n]. *)
Definition whole_upto (n : Z) (t : F32.t) : Prop :=
  exists k, 0 <= k <= n /\ t = F32.of_Z k.

(** The timers hold whole numbers of frames below their thresholds, and the
    star offset a whole number of halves up to HEIGHT. *)
Definition timers_ok (g : Game) : Prop :=
  whole_upto 60 (enemySpawnTimer g) /\
  whole_upto 300 (powerUpTimer g) /\
  whole_upto 899 (gameLevelTimer g) /\
  whole_upto 299 (lastHitTimer g) /\
  exists k, 0 <= k <= 1200 /\ starOffset g = half_of k.

(** Everything a run keeps about levels, lives and timers. *)
Definition run_ok (g : Game) : Prop :=
  level_ok g /\ lives_ok g /\ timers_ok g.

(** Where the player is and how it moves. *)
Definition position (p : Player.t) : F32.t * F32.t * F32.t * F32.t :=
  (Player.x p, Player.y p, Player.size p, Player.speed p).

(** The player has size 20 and speed 5 and stands on a multiple of 5 in
    each direction, at least its size away from every edge of the window. *)
Definition on_grid (p : Player.t) : Prop :=
  exists i j,
    4 <= i <= 156 /\ 4 <= j <= 116 /\
    position p = (F32.of_Z (5 * i), F32.of_Z (5 * j), F32.of_Z 20, F32.of_Z 5).

(** [P] holds of lo, ..., hi - 1. *)
Definition all_between (P : Z -> bool) (lo : Z) (hi : nat) : bool :=
  all_below (fun k => (k <? lo) || P k) hi.

(** The four blocks of the move, one per direction. *)
Definition move_left (c : bool) (p : Player.t) : Player.t :=
  if c then
    let p := Player.set_x (Player.x p - Player.speed p)%f32 p in
    if (Player.x p <? Player.size p)%f32
    then Player.set_x (Player.size p) p else p
  else p.

Definition move_right (c : bool) (p : Player.t) : Player.t :=
  if c then
    let p := Player.set_x (Player.x p + Player.speed p)%f32 p in
    if (F32.of_Z WIDTH - Player.size p <? Player.x p)%f32
    then Player.set_x (F32.of_Z WIDTH - Player.size p)%f32 p else p
  else p.

Definition move_up (c : bool) (p : Player.t) : Player.t :=
  if c then
    let p := Player.set_y (Player.y p + Player.speed p)%f32 p in
    if (F32.of_Z HEIGHT - Player.size p <? Player.y p)%f32
    then Player.set_y (F32.of_Z HEIGHT - Player.size p)%f32 p else p
  else p.

Definition move_down (c : bool) (p : Player.t) : Player.t :=
  if c then
    let p := Player.set_y (Player.y p - Player.speed p)%f32 p in
    if (Player.y p <? Player.size p)%f32
    then Player.set_y (Player.size p) p else p
  else p.

(** ** Vocabulary of the objects in flight *)

(** The three collections. *)
Definition flight (g : Game)
  : list Bullet.t * list Enemy.t * list PowerUp.t :=
  (bullets g, enemies g, powerUps g).

(** An active bullet is on the player's grid, between y = 40 and the top,
    and climbs by 10. *)
Definition bullet_ok (b : Bullet.t) : Prop :=
  Bullet.active b = true ->
  exists i j,
    4 <= i <= 156 /\ 8 <= j <= 120 /\
    Bullet.x b = F32.of_Z (5 * i) /\ Bullet.y b = F32.of_Z (5 * j) /\
    Bullet.speed b = F32.of_Z 10.

(** An active enemy is at a whole x in 0..778, at a whole number of halves
    in y between -30 and the top, falls by 2.5 to 5.5 and has one of the
    four types. *)
Definition enemy_ok (e : Enemy.t) : Prop :=
  Enemy.active e = true ->
  exists n m s,
    0 <= n <= 778 /\ -60 <= m <= 1200 /\ 5 <= s <= 11 /\
    Enemy.x e = F32.of_Z n /\ Enemy.y e = half_of m /\
    Enemy.speed e = half_of s /\ 0 <= Enemy.type e <= 3.

(** An active power-up is at a whole x in 20..779, at a whole number of
    halves in y between -20 and the top, and falls by 1.5. *)
Definition powerUp_ok (u : PowerUp.t) : Prop :=
  PowerUp.active u = true ->
  exists n m,
    20 <= n <= 779 /\ -40 <= m <= 1200 /\
    PowerUp.x u = F32.of_Z n /\ PowerUp.y u = half_of m /\
    PowerUp.speed u = half_of 3.

Definition flight_ok (f : list Bullet.t * list Enemy.t * list PowerUp.t)
  : Prop :=
  let '(bs, es, us) := f in
  Forall bullet_ok bs /\ Forall enemy_ok es /\ Forall powerUp_ok us.

(** [rand()] never returns a negative number. *)
Definition rand_ok (g : Game) : Prop := forall n, 0 <= randoms g n.

(** [P] holds of lo, ..., lo + n - 1. *)
Definition all_from (P : Z -> bool) (lo : Z) (n : nat) : bool :=
  all_below (fun k => P (lo + k)) n.

(** The collections are in order, [rand()] is, and the level is 1, 2 or 3. *)
Definition sky_ok (g : Game) : Prop :=
  flight_ok (flight g) /\ rand_ok g /\ 1 <= currentLevel g <= 3.



(** ** Vocabulary of the keys *)

(** The letter event an arrow event stands for; an event of another
    special key stands for nothing. *)
Definition as_letter (ev : Event) : list Event :=
  match ev with
  | SpecialDown key x y =>
      match arrow_entry key with
      | Some a => [KeyDown a x y]
      | None => []
      end
  | SpecialUp key x y =>
      match arrow_entry key with
      | Some a => [KeyUp a x y]
      | None => []
      end
  | _ => [ev]
  end.

Definition as_letters (evs : list Event) : list Event :=
  flat_map as_letter evs.

(** The space bar is not pressed in [evs]. *)
Fixpoint no_space (evs : list Event) : bool :=
  match evs with
  | [] => true
  | KeyDown key _ _ :: evs => negb (Ascii.eqb key " "%char) && no_space evs
  | _ :: evs => no_space evs
  end.

(** Everything but the key table. *)
Definition board (g : Game) :=
  (gameState g, player g, flight g, difficulty g, pace g, lastHitTimer g,
   randoms g).

(** ** Rasterisation *)

(** Negation and [abs] on an [int]. *)
Definition int_neg (a : Z) : Z := Int.wrap (- a).
Definition int_abs (a : Z) : Z := if a <? 0 then int_neg a else a.

(** The [while (true)] loop of [drawLineBresenham]: the points given to
    [glVertex2i], in order.  [dx], [dy], [sx], [sy], [x2] and [y2] do not
    change in the loop; an iteration uses one unit of [fuel], and [None] is
    the fuel running out before the [break]. *)
Fixpoint bresenham_loop (fuel : nat) (dx dy sx sy x2 y2 x1 y1 err : Z)
  : option (list (Z * Z)) :=
  match fuel with
  | O => None
  | S fuel =>
      if (x1 =? x2) && (y1 =? y2) then Some [(x1, y1)]
      else
        let e2 := Int.mul 2 err in
        let '(err, x1') :=
          if e2 >? int_neg dy then (Int.sub err dy, Int.add x1 sx)
          else (err, x1) in
        let '(err, y1') :=
          if e2 <? dx then (Int.add err dx, Int.add y1 sy)
          else (err, y1) in
        option_map (cons (x1, y1))
          (bresenham_loop fuel dx dy sx sy x2 y2 x1' y1' err)
  end.

(** [drawLineBresenham(x1, y1, x2, y2)]. *)
Definition drawLineBresenham (fuel : nat) (x1 y1 x2 y2 : Z)
  : option (list (Z * Z)) :=
  let dx := int_abs (Int.sub x2 x1) in
  let dy := int_abs (Int.sub y2 y1) in
  let sx := if x1 <? x2 then 1 else -1 in
  let sy := if y1 <? y2 then 1 else -1 in
  let err := Int.sub dx dy in
  bresenham_loop fuel dx dy sx sy x2 y2 x1 y1 err.

(** ** Vocabulary of the drawings *)

(** Two different points next to each other, diagonals included. *)
Definition neighbours (p q : Z * Z) : Prop :=
  Z.abs (fst q - fst p) <= 1 /\ Z.abs (snd q - snd p) <= 1 /\ p <> q.

Fixpoint connected (pts : list (Z * Z)) : Prop :=
  match pts with
  | p :: (q :: _) as rest => neighbours p q /\ connected rest
  | _ => True
  end.

Definition between (a b c : Z) : Prop := Z.min a b <= c <= Z.max a b.

(** [p] is inside the box of the two end points and within half a pixel
    of the segment between them, measured along the shorter side of the
    box. *)
Definition on_line (x1 y1 x2 y2 : Z) (p : Z * Z) : Prop :=
  between x1 x2 (fst p) /\ between y1 y2 (snd p) /\
  2 * Z.abs ((fst p - x1) * (y2 - y1) - (snd p - y1) * (x2 - x1))
  <= Z.max (Z.abs (x2 - x1)) (Z.abs (y2 - y1)).

(** The same, from the distances [ra] and [rb] that remain to the end
    point of a line of extent [dx] by [dy] drawn in direction [sx], [sy]. *)
Definition remaining (dx dy sx sy x2 y2 : Z) (p : Z * Z) : Prop :=
  exists ra rb,
    x2 - fst p = sx * ra /\ y2 - snd p = sy * rb /\
    0 <= ra <= dx /\ 0 <= rb <= dy /\
    2 * Z.abs (rb * dx - ra * dy) <= Z.max dx dy.

(** Conversion of a [float] to [int], which drops the fraction.  C++ leaves
    the conversion undefined when the result is not an [int]; the
    properties below are stated where it is one. *)
Definition float_to_int (a : F32.t) : Z :=
  match a with
  | S754_finite s m e =>
      let v := if 0 <=? e then Z.pos m * 2 ^ e else Z.pos m / 2 ^ (- e) in
      if s then - v else v
  | _ => 0
  end.

(** The lambda [plotCirclePoints] of [drawCircleMidpoint]: the eight
    vertices given to [glVertex2f]. *)
Definition plotCirclePoints (cx cy : F32.t) (x y : Z)
  : list (F32.t * F32.t) :=
  [(cx + F32.of_Z x, cy + F32.of_Z y); (cx - F32.of_Z x, cy + F32.of_Z y);
   (cx + F32.of_Z x, cy - F32.of_Z y); (cx - F32.of_Z x, cy - F32.of_Z y);
   (cx + F32.of_Z y, cy + F32.of_Z x); (cx - F32.of_Z y, cy + F32.of_Z x);
   (cx + F32.of_Z y, cy - F32.of_Z x); (cx - F32.of_Z y, cy - F32.of_Z x)
  ]%f32.

(** The [while (x <= y)] loop of [drawCircleMidpoint], for any plotting
    function; an iteration uses one unit of [fuel]. *)
Fixpoint circle_loop {A : Type} (plot : Z -> Z -> list A) (fuel : nat)
  (x y d : Z) : option (list A) :=
  if x <=? y then
    match fuel with
    | O => None
    | S fuel =>
        let x' := Int.add x 1 in
        let '(y', d) :=
          if d <? 0 then (y, Int.add d (Int.add (Int.mul 2 x') 1))
          else
            let y' := Int.sub y 1 in
            (y', Int.add d (Int.add (Int.mul 2 (Int.sub x' y')) 1)) in
        option_map (app (plot x y)) (circle_loop plot fuel x' y' d)
    end
  else Some [].

(** [drawCircleMidpoint(cx, cy, r)]: the vertices given to [glVertex2f], in
    order. *)
Definition drawCircleMidpoint (fuel : nat) (cx cy r : F32.t)
  : option (list (F32.t * F32.t)) :=
  let x := 0 in
  let y := float_to_int r in
  let d := float_to_int (F32.of_Z 1 - r)%f32 in
  circle_loop (plotCirclePoints cx cy) fuel x y d.

(** The arguments of the calls of [plotCirclePoints]. *)
Definition circle_offsets (fuel : nat) (x y d : Z) : option (list (Z * Z)) :=
  circle_loop (fun x y => [(x, y)]) fuel x y d.

(** [p] is in the octant between the y axis and the diagonal, and its
    squared distance from the centre differs from [n] squared by at most
    [n]. *)
Definition on_circle (n : Z) (p : Z * Z) : Prop :=
  0 <= fst p <= snd p /\ snd p <= n /\
  Z.abs (fst p * fst p + snd p * snd p - n * n) <= n.

(** ** Vocabulary of the tracks *)

(** One frame of flight: a bullet climbs and an enemy or a power-up falls by
    its speed. *)
Definition climb (b : Bullet.t) : Bullet.t :=
  Bullet.set_y (Bullet.y b + Bullet.speed b)%f32 b.

Definition fall (e : Enemy.t) : Enemy.t :=
  Enemy.set_y (Enemy.y e - Enemy.speed e)%f32 e.

Definition sink (u : PowerUp.t) : PowerUp.t :=
  PowerUp.set_y (PowerUp.y u - PowerUp.speed u)%f32 u.

(** [a'] is [f a], unless it is not active. *)
Definition moved_or_gone {A : Type} (act : A -> bool) (f : A -> A)
  (a a' : A) : Prop :=
  act a' = true -> a' = f a.

(** ** Vocabulary of the moves *)

(** The player of size 20 and speed 5 at column [i] and row [j] of the grid
    of step 5. *)
Definition at_grid (i j : Z) : F32.t * F32.t * F32.t * F32.t :=
  (F32.of_Z (5 * i), F32.of_Z (5 * j), F32.of_Z 20, F32.of_Z 5).

(** The column and the row after the move block, which handles left before
    right and up before down, each with its clamp. *)
Definition next_column (k : ascii -> bool) (i : Z) : Z :=
  let i := if k "a"%char || k "A"%char then Z.max 4 (i - 1) else i in
  if k "d"%char || k "D"%char then Z.min 156 (i + 1) else i.

Definition next_row (k : ascii -> bool) (j : Z) : Z :=
  let j := if k "w"%char || k "W"%char then Z.min 116 (j + 1) else j in
  if k "s"%char || k "S"%char then Z.max 4 (j - 1) else j.

(** ** Vocabulary of the spawners *)



(** ** Properties *)

(** *** Machine integers *)

Lemma wrap_in_range (z : Z) : Int.in_range z -> Int.wrap z = z.
Proof.
  unfold Int.in_range, Int.INT_MIN, Int.INT_MAX, Int.wrap. intros H.
  rewrite Z.mod_small by lia. lia.
Qed.

Lemma int_add_exact (a b : Z) : Int.in_range (a + b) -> Int.add a b = a + b.
Proof. apply wrap_in_range. Qed.

Lemma int_sub_exact (a b : Z) : Int.in_range (a - b) -> Int.sub a b = a - b.
Proof. apply wrap_in_range. Qed.

Lemma int_mul_exact (a b : Z) : Int.in_range (a * b) -> Int.mul a b = a * b.
Proof. apply wrap_in_range. Qed.

Lemma in_range_small (z : Z) : -1000 <= z <= 1000 -> Int.in_range z.
Proof. unfold Int.in_range, Int.INT_MIN, Int.INT_MAX. lia. Qed.

(** *** Floating-point facts obtained by evaluation *)

Lemma sf_eqb_eq (a b : spec_float) : sf_eqb a b = true -> a = b.
Proof.
  destruct a, b; simpl; try discriminate; trivial.
  - intros H. apply Bool.eqb_prop in H. now subst.
  - intros H. apply Bool.eqb_prop in H. now subst.
  - intros H. apply andb_prop in H as [H He]. apply andb_prop in H as [Hs Hm].
    apply Bool.eqb_prop in Hs. apply Pos.eqb_eq in Hm. apply Z.eqb_eq in He.
    now subst.
Qed.

Lemma all_below_spec (P : Z -> bool) (n : nat) :
  all_below P n = true -> forall k, 0 <= k < Z.of_nat n -> P k = true.
Proof.
  induction n as [|n IH]; intros H k Hk.
  - lia.
  - simpl in H. apply andb_prop in H as [Hn H].
    destruct (Z.eq_dec k (Z.of_nat n)) as [->|Hne]; [exact Hn|].
    apply IH; [exact H | lia].
Qed.

(** Counting in [float] is exact on the range the timers cover. *)
Lemma incr_of_Z (k : Z) :
  0 <= k < 1000 -> F32.incr (F32.of_Z k) = F32.of_Z (k + 1).
Proof.
  intros Hk. apply sf_eqb_eq.
  apply (all_below_spec
           (fun k => sf_eqb (F32.incr (F32.of_Z k)) (F32.of_Z (k + 1)))
           1000); [vm_compute; reflexivity | exact Hk].
Qed.

Lemma leb_300_of_Z (k : Z) :
  0 <= k < 1000 -> (F32.of_Z 300 <=? F32.of_Z k)%f32 = (300 <=? k).
Proof.
  intros Hk.
  apply (proj1 (Bool.eqb_true_iff _ _)).
  apply (all_below_spec
           (fun k => Bool.eqb (F32.of_Z 300 <=? F32.of_Z k)%f32 (300 <=? k))
           1000); [vm_compute; reflexivity | exact Hk].
Qed.

Example of_Z_400 : F32.of_Z 400 = S754_finite false 13107200 (-15).
Proof. reflexivity. Qed.

Example distance_3_4 : distance (F32.of_Z 3) (F32.of_Z (-4)) = F32.of_Z 5.
Proof. vm_compute. reflexivity. Qed.

Example first_enemy_speed :
  F64.to_f32 (F64.add (F64.add (F64.of_Z 2) (F64.of_Z 0))
                (F64.mul (F64.of_Z 1) F64.half))
  = F32.sub (F32.of_Z 3) (F64.to_f32 F64.half).
Proof. vm_compute. reflexivity. Qed.

Example first_frame :
  snapshot (update 0 (press_space (start rs_zero))) =
  (PLAYING, 3, 0, [true], [], []).
Proof. vm_compute. reflexivity. Qed.

(** *** What each block of a frame leaves alone *)

Ltac split_ifs :=
  repeat match goal with
         | |- context [if ?c then _ else _] =>
             lazymatch c with
             | true => fail
             | false => fail
             | _ => destruct c
             end
         end.

Ltac frame := intros; split_ifs; reflexivity.

Lemma simulate_blocks (g : Game) :
  simulate g =
  let g :=
    player_penalty (level_management (increment_timers (update_stars g))) in
  let g := set_player (move_player (keys g) (player g)) g in
  let g := set_bullets (map update_bullet (bullets g)) g in
  collide_powerUps
    (spawn_powerUp (collide_bullets (collide_enemies (spawn_enemy g)))).
Proof. unfold simulate, clock. reflexivity. Qed.

Lemma difficulty_set_player (p : Player.t) (g : Game) :
  difficulty (set_player p g) = difficulty g.
Proof. reflexivity. Qed.

Lemma difficulty_set_bullets (bs : list Bullet.t) (g : Game) :
  difficulty (set_bullets bs g) = difficulty g.
Proof. reflexivity. Qed.

Lemma difficulty_cleanup (g : Game) : difficulty (cleanup g) = difficulty g.
Proof. reflexivity. Qed.

Lemma difficulty_spawn_enemy (g : Game) :
  difficulty (spawn_enemy g) = difficulty g.
Proof. unfold spawn_enemy, rand. frame. Qed.

Lemma difficulty_collide_enemies (g : Game) :
  difficulty (collide_enemies g) = difficulty g.
Proof.
  unfold collide_enemies.
  destruct (update_enemies _ _ _) as [[es p] st]. reflexivity.
Qed.

Lemma difficulty_collide_bullets (g : Game) :
  difficulty (collide_bullets g) = difficulty g.
Proof.
  unfold collide_bullets.
  destruct (scan_bullets _ _ _ _) as [[[bs es] p] t]. reflexivity.
Qed.

Lemma difficulty_spawn_powerUp (g : Game) :
  difficulty (spawn_powerUp g) = difficulty g.
Proof. unfold spawn_powerUp, rand. frame. Qed.

Lemma difficulty_collide_powerUps (g : Game) :
  difficulty (collide_powerUps g) = difficulty g.
Proof.
  unfold collide_powerUps.
  destruct (update_powerUps _ _) as [us p]. reflexivity.
Qed.

Lemma difficulty_player_penalty (g : Game) :
  difficulty (player_penalty g) = difficulty g.
Proof. unfold player_penalty. frame. Qed.

(** Past the level block nothing touches the difficulty state. *)
Lemma difficulty_simulate (g : Game) :
  difficulty (simulate g) =
  difficulty (level_management (increment_timers (update_stars g))).
Proof.
  rewrite simulate_blocks. cbv zeta.
  rewrite difficulty_collide_powerUps, difficulty_spawn_powerUp,
    difficulty_collide_bullets, difficulty_collide_enemies,
    difficulty_spawn_enemy.
  rewrite difficulty_set_bullets, difficulty_set_player.
  apply difficulty_player_penalty.
Qed.

Lemma difficulty_update_playing (v : Z) (g : Game) :
  gameState g = PLAYING ->
  difficulty (update v g) =
  difficulty (level_management (increment_timers (update_stars g))).
Proof.
  intros H. unfold update. rewrite H.
  rewrite difficulty_cleanup. apply difficulty_simulate.
Qed.

Lemma update_not_playing (v : Z) (g : Game) :
  gameState g <> PLAYING -> update v g = g.
Proof. unfold update. destruct (gameState g); congruence. Qed.

Lemma keyboardDown_playing_level (key : ascii) (x y : Z) (g g' : Game) :
  gameState g = PLAYING -> keyboardDown key x y g = Some g' ->
  currentLevel g' = currentLevel g.
Proof.
  unfold keyboardDown. intros Hp.
  destruct (Ascii.eqb key ESC); [discriminate|].
  destruct (Ascii.eqb key " "%char).
  - change (gameState (set_keys ?k g)) with (gameState g). rewrite Hp.
    intros H. injection H as <-. reflexivity.
  - intros H. injection H as <-. reflexivity.
Qed.

(** *** Level management *)

Lemma difficulty_level_block (g : Game) :
  difficulty (level_management (increment_timers (update_stars g))) =
  if level_due g then
    if currentLevel g <? 3 then
      (Int.add (currentLevel g) 1,
       Int.sub 60 (Int.mul (Int.sub (Int.add (currentLevel g) 1) 1) 25),
       F32.zero)
    else (currentLevel g, enemySpawnRate g, F32.zero)
  else (currentLevel g, enemySpawnRate g, F32.incr (gameLevelTimer g)).
Proof.
  unfold level_management, level_due.
  change (gameLevelTimer (increment_timers (update_stars g)))
    with (F32.incr (gameLevelTimer g)).
  change (currentLevel (increment_timers (update_stars g)))
    with (currentLevel g).
  destruct (F32.leb _ _); [|reflexivity].
  destruct (currentLevel g <? 3); reflexivity.
Qed.

Lemma level_up_arith (l : Z) :
  1 <= l < 3 ->
  Int.add l 1 = l + 1 /\
  Int.sub 60 (Int.mul (Int.sub (Int.add l 1) 1) 25) = 60 - (l + 1 - 1) * 25.
Proof.
  intros H.
  rewrite int_add_exact by (apply in_range_small; lia).
  rewrite (int_sub_exact (l + 1) 1) by (apply in_range_small; lia).
  rewrite int_mul_exact by (apply in_range_small; lia).
  rewrite int_sub_exact by (apply in_range_small; lia).
  split; reflexivity.
Qed.

Lemma level_monotone_update (v : Z) (g : Game) :
  Int.in_range (currentLevel g) -> currentLevel g <= currentLevel (update v g).
Proof.
  intros Hr. destruct (gameState g) eqn:Hs;
    try (rewrite update_not_playing by congruence; lia).
  pose proof (difficulty_update_playing v g Hs) as H.
  rewrite difficulty_level_block in H. unfold difficulty in H.
  destruct (level_due g); [destruct (currentLevel g <? 3) eqn:Hl|];
    injection H as H _ _; rewrite H; try lia.
  apply Z.ltb_lt in Hl. rewrite int_add_exact; [lia|].
  unfold Int.in_range, Int.INT_MIN, Int.INT_MAX in *. lia.
Qed.

(** C4. When the level timer reaches 900 in a frame played in PLAYING, the
    timer is reset to 0 whether or not the level changes; below level 3 the
    level goes up by one and the spawn interval becomes
    60 - (currentLevel - 1) * 25 for the new level (35 at level 2, 10 at
    level 3); at level 3 the level and the interval stay.  No frame and no
    key pressed while playing ever lowers the level.  In the run of 900
    frames from a first start the timer reaches 900 in the last frame, which
    ends at level 2 with interval 35 and the timer at 0. *)
Theorem level_up_rule :
  (forall (v : Z) (g : Game),
      gameState g = PLAYING -> 1 <= currentLevel g <= 3 ->
      level_due g = true ->
      gameLevelTimer (update v g) = F32.zero /\
      (currentLevel g < 3 ->
       currentLevel (update v g) = currentLevel g + 1 /\
       enemySpawnRate (update v g) =
       60 - (currentLevel (update v g) - 1) * 25) /\
      (currentLevel g = 1 ->
       currentLevel (update v g) = 2 /\ enemySpawnRate (update v g) = 35) /\
      (currentLevel g = 2 ->
       currentLevel (update v g) = 3 /\ enemySpawnRate (update v g) = 10) /\
      (currentLevel g = 3 ->
       currentLevel (update v g) = 3 /\
       enemySpawnRate (update v g) = enemySpawnRate g)) /\
  (forall (ev : Event) (g g' : Game),
      Int.in_range (currentLevel g) -> step ev g = Some g' ->
      gameState g = PLAYING \/ (forall x y, ev <> KeyDown " "%char x y) ->
      currentLevel g <= currentLevel g') /\
  (difficulty (ticks 899 (start rs_zero)) = (1, 60, F32.of_Z 899) /\
   difficulty (ticks 900 (start rs_zero)) = (2, 35, F32.zero)).
Proof.
  split; [|split; [|split; vm_compute; reflexivity]].
  - intros v g Hs Hl Hd.
    pose proof (difficulty_update_playing v g Hs) as H.
    rewrite difficulty_level_block, Hd in H. unfold difficulty in H.
    destruct (currentLevel g <? 3) eqn:Hlt; injection H as H1 H2 H3.
    + apply Z.ltb_lt in Hlt.
      destruct (level_up_arith (currentLevel g)) as [Ha Hb]; [lia|].
      rewrite Ha in H1. rewrite Hb in H2. rewrite H1, H2, H3.
      repeat split; intros; lia.
    + apply Z.ltb_ge in Hlt. rewrite H1, H2, H3.
      repeat split; intros; lia.
  - intros ev g g' Hr Hstep Hrun.
    destruct ev as [v|key x y|key x y|key x y|key x y].
    + injection Hstep as <-. apply level_monotone_update, Hr.
    + simpl in Hstep. destruct (gameState g) eqn:Hs.
      * destruct Hrun as [Hp|Hk]; [discriminate|].
        unfold keyboardDown in Hstep.
        destruct (Ascii.eqb key ESC); [discriminate|].
        destruct (Ascii.eqb key " "%char) eqn:Hsp.
        { apply Ascii.eqb_eq in Hsp. subst key. now elim (Hk x y). }
        injection Hstep as <-. apply Z.le_refl.
      * rewrite (keyboardDown_playing_level key x y g g' Hs Hstep).
        apply Z.le_refl.
      * destruct Hrun as [Hp|Hk]; [discriminate|].
        unfold keyboardDown in Hstep.
        destruct (Ascii.eqb key ESC); [discriminate|].
        destruct (Ascii.eqb key " "%char) eqn:Hsp.
        { apply Ascii.eqb_eq in Hsp. subst key. now elim (Hk x y). }
        injection Hstep as <-. apply Z.le_refl.
    + injection Hstep as <-. apply Z.le_refl.
    + injection Hstep as <-. unfold specialDown.
      destruct (arrow_entry key); apply Z.le_refl.
    + injection Hstep as <-. unfold specialUp.
      destruct (arrow_entry key); apply Z.le_refl.
Qed.

Lemma level_up_rule_witness :
  (gameState (level_ready 1) = PLAYING /\
   1 <= currentLevel (level_ready 1) <= 3 /\
   level_due (level_ready 1) = true) /\
  currentLevel (update 0 (level_ready 1)) = 2 /\
  enemySpawnRate (update 0 (level_ready 1)) = 35.
Proof.
  assert (H1 : gameState (level_ready 1) = PLAYING) by reflexivity.
  assert (H2 : 1 <= currentLevel (level_ready 1) <= 3)
    by (vm_compute; split; discriminate).
  assert (H3 : level_due (level_ready 1) = true) by (vm_compute; reflexivity).
  split; [auto|].
  apply (proj1 level_up_rule 0 (level_ready 1) H1 H2 H3). reflexivity.
Defined.

(** *** Restart *)

(** C6. From any state in MENU or GAME_OVER the space bar leads to PLAYING
    with three lives, score 0, level 1, spawn interval 60, no bullet, enemy
    or power-up, the player at (400, 50), where [init] puts it, and the
    level and no-hit timers at 0: the same values whatever the state
    before, those of a first start. *)
Theorem restart_resets (x y : Z) (g : Game) :
  gameState g = MENU \/ gameState g = GAME_OVER ->
  exists g',
    keyboardDown " "%char x y g = Some g' /\
    gameState g' = PLAYING /\
    Player.lives (player g') = 3 /\
    Player.score (player g') = 0 /\
    currentLevel g' = 1 /\
    enemySpawnRate g' = 60 /\
    bullets g' = [] /\ enemies g' = [] /\ powerUps g' = [] /\
    Player.x (player g') = F32.of_Z 400 /\
    Player.y (player g') = F32.of_Z 50 /\
    gameLevelTimer g' = F32.zero /\
    lastHitTimer g' = F32.zero /\
    forall rs, reset_view g' = reset_view (start rs).
Proof.
  intros H. unfold keyboardDown.
  change (Ascii.eqb " "%char ESC) with false.
  change (Ascii.eqb " "%char " "%char) with true. cbv iota.
  change (gameState (set_keys ?k g)) with (gameState g).
  destruct H as [H|H]; rewrite H; eexists; (split; [reflexivity|]);
    repeat split.
Qed.

Lemma restart_resets_witness :
  (gameState lost_centre = MENU \/ gameState lost_centre = GAME_OVER) /\
  exists g',
    keyboardDown " "%char 0 0 lost_centre = Some g' /\
    gameState g' = PLAYING /\
    Player.lives (player g') = 3 /\
    Player.score (player g') = 0 /\
    currentLevel g' = 1 /\
    enemySpawnRate g' = 60 /\
    bullets g' = [] /\ enemies g' = [] /\ powerUps g' = [] /\
    Player.x (player g') = F32.of_Z 400 /\
    Player.y (player g') = F32.of_Z 50 /\
    gameLevelTimer g' = F32.zero /\
    lastHitTimer g' = F32.zero /\
    forall rs, reset_view g' = reset_view (start rs).
Proof.
  assert (H : gameState lost_centre = MENU \/ gameState lost_centre = GAME_OVER)
    by (right; vm_compute; reflexivity).
  split; [exact H|]. exact (restart_resets 0 0 lost_centre H).
Defined.

(** C10. The restart leaves [enemySpawnTimer] and [powerUpTimer] as they
    were.  So a new run can see its first enemy or power-up sooner than a
    run started from [init]: there no enemy can appear within 60 frames,
    the first comes at frame 61 and, if the game lasts, the first power-up
    at frame 301; after the game lost at frame 300 under [rs_centre] the
    restarted run has its first enemy at frame 5, and after the game lost
    at frame 900 under [rs_zero] its first power-up at frame 3. *)
Theorem restart_keeps_spawn_timers :
  (forall (x y : Z) (g : Game),
      gameState g = MENU \/ gameState g = GAME_OVER ->
      exists g',
        keyboardDown " "%char x y g = Some g' /\
        enemySpawnTimer g' = enemySpawnTimer g /\
        powerUpTimer g' = powerUpTimer g) /\
  (forall rs, ticks_until has_enemy 60 (start rs) = None) /\
  ticks_until has_enemy 61 (start rs_centre) = Some 61%nat /\
  gameState lost_centre = GAME_OVER /\
  ticks_until has_enemy 61 (press_space lost_centre) = Some 5%nat /\
  ticks_until has_powerUp 301 (start rs_zero) = Some 301%nat /\
  gameState lost_idle = GAME_OVER /\
  ticks_until has_powerUp 301 (press_space lost_idle) = Some 3%nat.
Proof.
  split.
  - intros x y g H. unfold keyboardDown.
    change (Ascii.eqb " "%char ESC) with false.
    change (Ascii.eqb " "%char " "%char) with true. cbv iota.
    change (gameState (set_keys ?k g)) with (gameState g).
    destruct H as [H|H]; rewrite H; eexists; repeat split.
  - split; [intros rs; vm_compute; reflexivity|].
    split; [vm_compute; reflexivity|].
    split; [vm_compute; reflexivity|].
    split; [vm_compute; reflexivity|].
    split; [vm_compute; reflexivity|].
    split; vm_compute; reflexivity.
Qed.

Lemma restart_keeps_spawn_timers_witness :
  (gameState lost_centre = MENU \/ gameState lost_centre = GAME_OVER) /\
  exists g',
    keyboardDown " "%char 0 0 lost_centre = Some g' /\
    enemySpawnTimer g' = enemySpawnTimer lost_centre /\
    powerUpTimer g' = powerUpTimer lost_centre.
Proof.
  assert (H : gameState lost_centre = MENU \/ gameState lost_centre = GAME_OVER)
    by (right; vm_compute; reflexivity).
  split; [exact H|].
  exact (proj1 restart_keeps_spawn_timers 0 0 lost_centre H).
Defined.

(** *** Cleanup *)

Lemma erase_remove_if_filter {A : Type} (pred : A -> bool) (v : list A) :
  erase_remove_if pred v = filter (fun a => negb (pred a)) v.
Proof.
  induction v as [|a v IH]; simpl; [reflexivity|].
  destruct (pred a); simpl; now rewrite IH.
Qed.

Lemma erase_remove_if_none {A : Type} (pred : A -> bool) (v : list A) :
  Forall (fun a => pred a = false) (erase_remove_if pred v).
Proof.
  induction v as [|a v IH]; simpl; [constructor|].
  destruct (pred a) eqn:Ha; [exact IH|]. constructor; assumption.
Qed.

Lemma erase_remove_if_subseq {A : Type} (pred : A -> bool) (v : list A) :
  Subseq (erase_remove_if pred v) v.
Proof.
  induction v as [|a v IH]; simpl; [constructor|].
  destruct (pred a); constructor; exact IH.
Qed.

Lemma erase_remove_if_keeps {A : Type} (pred : A -> bool) (v : list A) (a : A) :
  In a v -> pred a = false -> In a (erase_remove_if pred v).
Proof.
  induction v as [|b v IH]; simpl; [tauto|].
  intros [->|Hin] Ha.
  - rewrite Ha. now left.
  - destruct (pred b); [|right]; now apply IH.
Qed.

Lemma negb_false (b : bool) : negb b = false -> b = true.
Proof. now destruct b. Qed.

Lemma Forall_active {A : Type} (act : A -> bool) (v : list A) :
  Forall (fun a => act a = true) (erase_remove_if (fun a => negb (act a)) v).
Proof.
  eapply Forall_impl; [|apply erase_remove_if_none].
  intros a. apply negb_false.
Qed.

Lemma update_compacts (v : Z) (g : Game) :
  gameState g = PLAYING ->
  all_active (update v g) /\
  (bullets (update v g) = filter Bullet.active (bullets (simulate g)) /\
   enemies (update v g) = filter Enemy.active (enemies (simulate g)) /\
   powerUps (update v g) = filter PowerUp.active (powerUps (simulate g))) /\
  (Subseq (bullets (update v g)) (bullets (simulate g)) /\
   Subseq (enemies (update v g)) (enemies (simulate g)) /\
   Subseq (powerUps (update v g)) (powerUps (simulate g))).
Proof.
  intros H. unfold update. rewrite H.
  generalize (simulate g). clear. intros g. unfold all_active, cleanup.
  change (bullets (set_powerUps ?a (set_enemies ?b (set_bullets ?c g))))
    with c.
  change (enemies (set_powerUps ?a (set_enemies ?b (set_bullets ?c g))))
    with b.
  change (powerUps (set_powerUps ?a (set_enemies ?b (set_bullets ?c g))))
    with a.
  change (enemies (set_bullets ?c g)) with (enemies g).
  change (powerUps (set_enemies ?b (set_bullets ?c g))) with (powerUps g).
  split; [|split].
  - repeat split; apply Forall_active.
  - rewrite !erase_remove_if_filter.
    repeat split; apply filter_ext; intros a; apply negb_involutive.
  - repeat split; apply erase_remove_if_subseq.
Qed.

Lemma all_active_step (ev : Event) (g g' : Game) :
  all_active g -> step ev g = Some g' -> all_active g'.
Proof.
  intros Hg. destruct ev as [v|key x y|key x y|key x y|key x y];
    cbn [step].
  - intros H. injection H as <-. destruct (gameState g) eqn:Hs;
      try (rewrite update_not_playing by congruence; exact Hg).
    apply (update_compacts v g Hs).
  - unfold keyboardDown.
    destruct (Ascii.eqb key ESC); [discriminate|].
    destruct (Ascii.eqb key " "%char).
    + change (gameState (set_keys ?f g)) with (gameState g).
      destruct Hg as (Hb & He & Hu).
      destruct (gameState g); intros H; injection H as <-;
        try (repeat split; constructor).
      repeat split; [|exact He|exact Hu].
      cbn [bullets set_bullets]. apply Forall_app. split; [exact Hb|].
      constructor; [reflexivity|constructor].
    + intros H. injection H as <-. exact Hg.
  - intros H. injection H as <-. exact Hg.
  - intros H. injection H as <-. unfold specialDown.
    destruct (arrow_entry key); exact Hg.
  - intros H. injection H as <-. unfold specialUp.
    destruct (arrow_entry key); exact Hg.
Qed.

Lemma all_active_run (evs : list Event) :
  forall g g', all_active g -> run evs g = Some g' -> all_active g'.
Proof.
  induction evs as [|ev evs IH]; intros g g' Hg; cbn [run].
  - intros H. injection H as <-. exact Hg.
  - destruct (step ev g) as [g1|] eqn:Hs; [|discriminate].
    apply IH. now apply (all_active_step ev g).
Qed.

(** C9. A frame played in PLAYING ends with collections that hold active
    objects only, and each of them is the collection as the frame left it
    before the cleanup with the inactive objects dropped: every active object
    is kept, and the kept ones stand in the order they had.  So in every run
    from [init] the collections hold active objects only whenever a callback
    returns: no inactive object is there when the next frame begins. *)
Theorem cleanup_compacts :
  (forall (v : Z) (g : Game),
      gameState g = PLAYING ->
      all_active (update v g) /\
      (bullets (update v g) = filter Bullet.active (bullets (simulate g)) /\
       enemies (update v g) = filter Enemy.active (enemies (simulate g)) /\
       powerUps (update v g) = filter PowerUp.active (powerUps (simulate g)))
      /\
      (Subseq (bullets (update v g)) (bullets (simulate g)) /\
       Subseq (enemies (update v g)) (enemies (simulate g)) /\
       Subseq (powerUps (update v g)) (powerUps (simulate g)))) /\
  (forall (rs : nat -> Z) (evs : list Event) (g : Game),
      run evs (init rs) = Some g -> all_active g).
Proof.
  split; [exact update_compacts|].
  intros rs evs g. apply all_active_run.
  repeat split; constructor.
Qed.

Lemma cleanup_compacts_witness :
  gameState (press_space (start rs_zero)) = PLAYING /\
  all_active (update 0 (press_space (start rs_zero))) /\
  Subseq (bullets (update 0 (press_space (start rs_zero))))
    (bullets (simulate (press_space (start rs_zero)))).
Proof.
  assert (H : gameState (press_space (start rs_zero)) = PLAYING)
    by reflexivity.
  split; [exact H|].
  destruct (proj1 cleanup_compacts 0 (press_space (start rs_zero)) H)
    as [Ha [_ [Hs _]]].
  split; assumption.
Defined.

(** *** The no-hit timer and the game state across a frame *)

Lemma scan_enemies_timer (es : list Enemy.t) :
  forall b p t b' es' p' t',
    scan_enemies b es p t = (b', es', p', t') -> t' = t \/ t' = F32.zero.
Proof.
  induction es as [|e es IH]; intros b p t b' es' p' t'; simpl.
  - intros H. injection H as _ _ _ <-. now left.
  - destruct (hit_enemy b e p t) as [[[b1 e1] p1] t1] eqn:Hh.
    destruct (scan_enemies b1 es p1 t1) as [[[b2 es2] p2] t2] eqn:Hs.
    intros H. injection H as _ _ _ <-.
    apply IH in Hs. unfold hit_enemy in Hh.
    destruct (Enemy.active e); [destruct (F32.ltb _ _)|];
      injection Hh as _ _ _ <-; tauto.
Qed.

Lemma scan_bullets_timer (bs : list Bullet.t) :
  forall es p t bs' es' p' t',
    scan_bullets bs es p t = (bs', es', p', t') -> t' = t \/ t' = F32.zero.
Proof.
  induction bs as [|b bs IH]; intros es p t bs' es' p' t'; simpl.
  - intros H. injection H as _ _ _ <-. now left.
  - destruct (if Bullet.active b then scan_enemies b es p t else (b, es, p, t))
      as [[[b1 es1] p1] t1] eqn:Hh.
    destruct (scan_bullets bs es1 p1 t1) as [[[bs2 es2] p2] t2] eqn:Hs.
    intros H. injection H as _ _ _ <-.
    apply IH in Hs.
    destruct (Bullet.active b).
    + apply scan_enemies_timer in Hh. destruct Hs, Hh; subst; tauto.
    + injection Hh as _ _ _ <-. exact Hs.
Qed.

Lemma lastHitTimer_collide_bullets (g : Game) :
  lastHitTimer (collide_bullets g) = lastHitTimer g \/
  lastHitTimer (collide_bullets g) = F32.zero.
Proof.
  unfold collide_bullets.
  destruct (scan_bullets _ _ _ _) as [[[bs es] p] t] eqn:H.
  apply scan_bullets_timer in H. exact H.
Qed.

Lemma lastHitTimer_spawn_enemy (g : Game) :
  lastHitTimer (spawn_enemy g) = lastHitTimer g.
Proof. unfold spawn_enemy, rand. frame. Qed.

Lemma lastHitTimer_collide_enemies (g : Game) :
  lastHitTimer (collide_enemies g) = lastHitTimer g.
Proof.
  unfold collide_enemies.
  destruct (update_enemies _ _ _) as [[es p] st]. reflexivity.
Qed.

Lemma lastHitTimer_spawn_powerUp (g : Game) :
  lastHitTimer (spawn_powerUp g) = lastHitTimer g.
Proof. unfold spawn_powerUp, rand. frame. Qed.

Lemma lastHitTimer_collide_powerUps (g : Game) :
  lastHitTimer (collide_powerUps g) = lastHitTimer g.
Proof.
  unfold collide_powerUps.
  destruct (update_powerUps _ _) as [us p]. reflexivity.
Qed.

Lemma lastHitTimer_cleanup (g : Game) :
  lastHitTimer (cleanup g) = lastHitTimer g.
Proof. reflexivity. Qed.

Lemma lastHitTimer_set_player (p : Player.t) (g : Game) :
  lastHitTimer (set_player p g) = lastHitTimer g.
Proof. reflexivity. Qed.

Lemma lastHitTimer_set_bullets (bs : list Bullet.t) (g : Game) :
  lastHitTimer (set_bullets bs g) = lastHitTimer g.
Proof. reflexivity. Qed.

Lemma simulate_clock (g : Game) :
  simulate g =
  collide_powerUps
    (spawn_powerUp
       (collide_bullets
          (collide_enemies
             (spawn_enemy
                (set_bullets
                   (map update_bullet
                      (bullets
                         (set_player
                            (move_player (keys (clock g)) (player (clock g)))
                            (clock g))))
                   (set_player
                      (move_player (keys (clock g)) (player (clock g)))
                      (clock g))))))).
Proof. unfold simulate, clock. reflexivity. Qed.

(** The no-hit timer a frame ends with is the one the penalty block left,
    or 0. *)
Lemma lastHitTimer_update (v : Z) (g : Game) :
  gameState g = PLAYING ->
  lastHitTimer (update v g) = lastHitTimer (clock g) \/
  lastHitTimer (update v g) = F32.zero.
Proof.
  intros H. unfold update. rewrite H.
  rewrite lastHitTimer_cleanup, simulate_clock.
  rewrite lastHitTimer_collide_powerUps, lastHitTimer_spawn_powerUp.
  match goal with
  | |- context [collide_bullets ?h] =>
      destruct (lastHitTimer_collide_bullets h) as [E|E]
  end; rewrite E; [left|now right].
  rewrite lastHitTimer_collide_enemies, lastHitTimer_spawn_enemy.
  rewrite lastHitTimer_set_bullets, lastHitTimer_set_player. reflexivity.
Qed.

Lemma penalty_view_level_block (g : Game) :
  penalty_view (level_management (increment_timers (update_stars g))) =
  (F32.incr (lastHitTimer g), player g, gameState g).
Proof. unfold level_management. frame. Qed.

Lemma penalty_view_clock (g : Game) :
  penalty_view (clock g) =
  if penalty_due g then
    if 0 <? Player.lives (player g) then
      (F32.zero,
       Player.set_lives (Int.sub (Player.lives (player g)) 1) (player g),
       if Int.sub (Player.lives (player g)) 1 <=? 0
       then GAME_OVER else gameState g)
    else
      (F32.incr (lastHitTimer g), player g,
       if Player.lives (player g) <=? 0 then GAME_OVER else gameState g)
  else (F32.incr (lastHitTimer g), player g, gameState g).
Proof.
  unfold clock, penalty_due.
  pose proof (penalty_view_level_block g) as H.
  set (h := level_management (increment_timers (update_stars g))) in *.
  clearbody h. unfold penalty_view in H. injection H as Ht Hp Hs.
  unfold player_penalty. rewrite Ht, Hp.
  destruct (F32.leb _ _); [|unfold penalty_view; congruence].
  destruct (0 <? Player.lives (player g)).
  - unfold penalty_view. simpl.
    destruct (Int.sub _ _ <=? 0); simpl; congruence.
  - rewrite Hp. unfold penalty_view.
    destruct (Player.lives (player g) <=? 0); simpl; congruence.
Qed.

Lemma update_enemies_state (es : list Enemy.t) :
  forall p st es' p' st',
    update_enemies es p st = (es', p', st') -> st' = st \/ st' = GAME_OVER.
Proof.
  induction es as [|e es IH]; intros p st es' p' st'; simpl.
  - intros H. injection H as _ _ <-. now left.
  - destruct (update_enemy e p st) as [[e1 p1] st1] eqn:He.
    destruct (update_enemies es p1 st1) as [[es2 p2] st2] eqn:Hs.
    intros H. injection H as _ _ <-.
    apply IH in Hs. unfold update_enemy in He.
    destruct (Enemy.active e); [destruct (F32.ltb (distance _ _) _)|];
      injection He as _ _ <-; [destruct (_ <=? 0)| |]; destruct Hs; subst;
      tauto.
Qed.

Lemma gameState_collide_enemies (g : Game) :
  gameState (collide_enemies g) = gameState g \/
  gameState (collide_enemies g) = GAME_OVER.
Proof.
  unfold collide_enemies.
  destruct (update_enemies _ _ _) as [[es p] st] eqn:H.
  apply update_enemies_state in H. exact H.
Qed.

Lemma gameState_spawn_enemy (g : Game) :
  gameState (spawn_enemy g) = gameState g.
Proof. unfold spawn_enemy, rand. frame. Qed.

Lemma gameState_collide_bullets (g : Game) :
  gameState (collide_bullets g) = gameState g.
Proof.
  unfold collide_bullets.
  destruct (scan_bullets _ _ _ _) as [[[bs es] p] t]. reflexivity.
Qed.

Lemma gameState_spawn_powerUp (g : Game) :
  gameState (spawn_powerUp g) = gameState g.
Proof. unfold spawn_powerUp, rand. frame. Qed.

Lemma gameState_collide_powerUps (g : Game) :
  gameState (collide_powerUps g) = gameState g.
Proof.
  unfold collide_powerUps.
  destruct (update_powerUps _ _) as [us p]. reflexivity.
Qed.

Lemma gameState_cleanup (g : Game) : gameState (cleanup g) = gameState g.
Proof. reflexivity. Qed.

Lemma gameState_set_player (p : Player.t) (g : Game) :
  gameState (set_player p g) = gameState g.
Proof. reflexivity. Qed.

Lemma gameState_set_bullets (bs : list Bullet.t) (g : Game) :
  gameState (set_bullets bs g) = gameState g.
Proof. reflexivity. Qed.

(** Past the penalty block a frame leaves the game state or ends the
    game. *)
Lemma gameState_update (v : Z) (g : Game) :
  gameState g = PLAYING ->
  gameState (update v g) = gameState (clock g) \/
  gameState (update v g) = GAME_OVER.
Proof.
  intros H. unfold update. rewrite H.
  rewrite gameState_cleanup, simulate_clock.
  rewrite gameState_collide_powerUps, gameState_spawn_powerUp,
    gameState_collide_bullets.
  match goal with
  | |- context [collide_enemies ?h] =>
      destruct (gameState_collide_enemies h) as [E|E]
  end; rewrite E; [left|now right].
  rewrite gameState_spawn_enemy, gameState_set_bullets, gameState_set_player.
  reflexivity.
Qed.

(** *** Survival penalty *)

Lemma timer_within_update (n v : Z) (g : Game) :
  0 <= n < 299 -> timer_within n g -> timer_within (n + 1) (update v g).
Proof.
  intros Hn (k & Hk & Ht). destruct (gameState g) eqn:Hs;
    try (rewrite update_not_playing by congruence; exists k; split;
         [lia|exact Ht]).
  assert (Hc : lastHitTimer (clock g) = F32.of_Z (k + 1)).
  { pose proof (penalty_view_clock g) as H. unfold penalty_due in H.
    rewrite Ht, incr_of_Z, leb_300_of_Z in H by lia.
    replace (300 <=? k + 1) with false in H by (symmetry; apply Z.leb_gt; lia).
    unfold penalty_view in H. now injection H as H _ _. }
  destruct (lastHitTimer_update v g Hs) as [E|E].
  - rewrite Hc in E. exists (k + 1). split; [lia|exact E].
  - exists 0. split; [lia|exact E].
Qed.

Lemma timer_within_keyboardDown (n : Z) (key : ascii) (x y : Z) (g g' : Game) :
  0 <= n -> timer_within n g -> keyboardDown key x y g = Some g' ->
  timer_within n g'.
Proof.
  intros Hn (k & Hk & Ht). unfold keyboardDown.
  destruct (Ascii.eqb key ESC); [discriminate|].
  destruct (Ascii.eqb key " "%char).
  - change (gameState (set_keys ?f g)) with (gameState g).
    destruct (gameState g); intros H; injection H as <-;
      solve [ exists k; split; [lia|exact Ht]
            | exists 0; split; [lia|reflexivity] ].
  - intros H; injection H as <-. exists k. split; [lia|exact Ht].
Qed.

Lemma count_ticks_nonneg (evs : list Event) : 0 <= count_ticks evs.
Proof.
  induction evs as [|[v|key x y|key x y|key x y|key x y] evs IH];
    cbn [count_ticks]; lia.
Qed.

Lemma timer_within_run (evs : list Event) :
  forall n g g',
    0 <= n -> n + count_ticks evs < 300 -> timer_within n g ->
    run evs g = Some g' -> timer_within (n + count_ticks evs) g'.
Proof.
  induction evs as [|ev evs IH]; intros n g g' Hn Hc Hw;
    cbn [run count_ticks].
  - intros H. injection H as <-. now rewrite Z.add_0_r.
  - pose proof (count_ticks_nonneg evs) as Hp.
    destruct ev as [v|key x y|key x y|key x y|key x y];
      cbn [run count_ticks step] in *.
    + intros H. replace (n + (1 + count_ticks evs))
        with (n + 1 + count_ticks evs) by lia.
      apply (IH (n + 1) (update v g)); try lia; [|exact H].
      apply timer_within_update; [lia|exact Hw].
    + destruct (keyboardDown key x y g) as [g1|] eqn:Hk; [|discriminate].
      intros H. apply (IH n g1); try lia; [|exact H].
      now apply (timer_within_keyboardDown n key x y g).
    + intros H. apply (IH n (keyboardUp key x y g)); try lia; [|exact H].
      exact Hw.
    + intros H. apply (IH n (specialDown key x y g)); try lia; [|exact H].
      unfold specialDown. destruct (arrow_entry key); exact Hw.
    + intros H. apply (IH n (specialUp key x y g)); try lia; [|exact H].
      unfold specialUp. destruct (arrow_entry key); exact Hw.
Qed.

(** C5. When the no-hit timer reaches 300 in a frame and a life is left,
    the penalty block takes one life and resets the timer to 0, and the
    game is over if that was the last life; the frame then ends with the
    timer at 0.  While the timer is short of 300 the block changes neither
    the lives nor the game state, and after the timer is at 0 the block
    cannot be entered during the next 299 frames, whatever happens in them.
    Without a shot, three lives last 299 frames, the 300th takes one, the
    600th the next. *)
Theorem survival_penalty :
  (forall g : Game,
      penalty_due g = true ->
      0 < Player.lives (player g) <= Int.INT_MAX ->
      Player.lives (player (clock g)) = Player.lives (player g) - 1 /\
      lastHitTimer (clock g) = F32.zero /\
      (Player.lives (player g) = 1 -> gameState (clock g) = GAME_OVER) /\
      (1 < Player.lives (player g) -> gameState (clock g) = gameState g)) /\
  (forall (v : Z) (g : Game),
      gameState g = PLAYING -> penalty_due g = true ->
      0 < Player.lives (player g) <= Int.INT_MAX ->
      lastHitTimer (update v g) = F32.zero /\
      (Player.lives (player g) = 1 -> gameState (update v g) = GAME_OVER)) /\
  (forall g : Game,
      penalty_due g = false ->
      player (clock g) = player g /\ gameState (clock g) = gameState g) /\
  (forall (evs : list Event) (g g' : Game),
      lastHitTimer g = F32.zero -> run evs g = Some g' ->
      count_ticks evs < 299 -> penalty_due g' = false) /\
  lives_trace 600 (start rs_zero) = repeat 3 299 ++ repeat 2 300 ++ [1].
Proof.
  assert (Hclock : forall g : Game,
             penalty_due g = true ->
             0 < Player.lives (player g) <= Int.INT_MAX ->
             Player.lives (player (clock g)) = Player.lives (player g) - 1 /\
             lastHitTimer (clock g) = F32.zero /\
             (Player.lives (player g) = 1 -> gameState (clock g) = GAME_OVER) /\
             (1 < Player.lives (player g) ->
              gameState (clock g) = gameState g)).
  { intros g Hd Hl. pose proof (penalty_view_clock g) as H.
    rewrite Hd in H.
    replace (0 <? Player.lives (player g)) with true in H
      by (symmetry; apply Z.ltb_lt; lia).
    rewrite int_sub_exact in H
      by (unfold Int.in_range, Int.INT_MIN, Int.INT_MAX in *; lia).
    unfold penalty_view in H. injection H as Ht Hp Hs.
    rewrite Hp, Ht, Hs. simpl. repeat split.
    - intros E. rewrite E. reflexivity.
    - intros E.
      replace (Player.lives (player g) - 1 <=? 0) with false
        by (symmetry; apply Z.leb_gt; lia).
      reflexivity. }
  split; [exact Hclock|]. split; [|split; [|split]].
  - intros v g Hs Hd Hl. destruct (Hclock g Hd Hl) as (_ & Ht & Hover & _).
    split.
    + destruct (lastHitTimer_update v g Hs) as [E|E]; congruence.
    + intros E1. destruct (gameState_update v g Hs) as [E|E];
        rewrite E; auto.
  - intros g Hd. pose proof (penalty_view_clock g) as H. rewrite Hd in H.
    unfold penalty_view in H. injection H as _ Hp Hs. now split.
  - intros evs g g' Hz Hrun Hc.
    pose proof (count_ticks_nonneg evs) as Hp.
    destruct (timer_within_run evs 0 g g') as (k & Hk & Ht);
      try lia; [exists 0; split; [lia|exact Hz] | exact Hrun |].
    unfold penalty_due. rewrite Ht, incr_of_Z, leb_300_of_Z by lia.
    apply Z.leb_gt. lia.
  - vm_compute. reflexivity.
Qed.

Lemma survival_penalty_witness :
  (gameState (penalty_ready 1) = PLAYING /\
   penalty_due (penalty_ready 1) = true /\
   0 < Player.lives (player (penalty_ready 1)) <= Int.INT_MAX) /\
  lastHitTimer (update 0 (penalty_ready 1)) = F32.zero /\
  (Player.lives (player (penalty_ready 1)) = 1 ->
   gameState (update 0 (penalty_ready 1)) = GAME_OVER).
Proof.
  assert (H1 : gameState (penalty_ready 1) = PLAYING) by reflexivity.
  assert (H2 : penalty_due (penalty_ready 1) = true)
    by (vm_compute; reflexivity).
  assert (H3 : 0 < Player.lives (player (penalty_ready 1)) <= Int.INT_MAX)
    by (vm_compute; split; [reflexivity|discriminate]).
  split; [auto|].
  exact (proj1 (proj2 survival_penalty) 0 (penalty_ready 1) H1 H2 H3).
Defined.

(** *** Bullet-enemy collision *)



(** The three ways the body of the inner loop can go. *)
Lemma hit_enemy_cases (b : Bullet.t) (e : Enemy.t) (p : Player.t) (t : F32.t) :
  (Enemy.active e = false /\ hit_enemy b e p t = (b, e, p, t)) \/
  (Enemy.active e = true /\ bullet_hits b e = false /\
   hit_enemy b e p t = (b, e, p, t)) \/
  (Enemy.active e = true /\ bullet_hits b e = true /\
   hit_enemy b e p t =
   (Bullet.set_active false b, Enemy.set_active false e,
    Player.set_score (Int.add (Player.score p) 10) p, F32.zero)).
Proof.
  unfold hit_enemy, bullet_hits.
  destruct (Enemy.active e); [|now left]. right.
  destruct (F32.ltb _ _); [right|left]; auto.
Qed.







(** C2. One bullet deactivates two enemies in one frame.  In the run under
    [rs_column] a single bullet is in flight before frame 197 and three
    enemies are active, the score being 0; after the frame the score is 20,
    the bullet is gone and one enemy is left.  The inner loop goes on after
    a hit: a bullet with two enemies within 20 takes both. *)
Theorem bullet_takes_two_enemies :
  frame_effect column_state =
  ((PLAYING, 3, 0, [true], [true; true; true], []),
   (PLAYING, 3, 20, [], [true], [])) /\
  (forall (p : Player.t) (t : F32.t),
      scan_enemies a_bullet [near_enemy; near_enemy] p t =
      (Bullet.set_active false a_bullet,
       [Enemy.set_active false near_enemy; Enemy.set_active false near_enemy],
       Player.set_score (Int.add (Int.add (Player.score p) 10) 10) p,
       F32.zero)).
Proof.
  split; [vm_compute; reflexivity|].
  intros p t. cbn [scan_enemies].
  assert (H : forall b q u,
             Bullet.x b = Bullet.x a_bullet -> Bullet.y b = Bullet.y a_bullet ->
             hit_enemy b near_enemy q u =
             (Bullet.set_active false b, Enemy.set_active false near_enemy,
              Player.set_score (Int.add (Player.score q) 10) q, F32.zero)).
  { intros b q u Hx Hy. unfold hit_enemy. rewrite Hx, Hy.
    change (Enemy.active near_enemy) with true. cbv iota.
    replace (F32.ltb _ _) with true by (vm_compute; reflexivity).
    reflexivity. }
  rewrite H by reflexivity. rewrite H by reflexivity. reflexivity.
Qed.

(** *** Power-up pickup *)

(** The three ways the body of the power-up loop can go. *)
Lemma update_powerUp_cases (u : PowerUp.t) (p : Player.t) :
  (PowerUp.active u = false /\ update_powerUp u p = (u, p)) \/
  (PowerUp.active u = true /\ player_overlaps p u = false /\
   snd (update_powerUp u p) = p) \/
  (PowerUp.active u = true /\ player_overlaps p u = true /\
   PowerUp.active (fst (update_powerUp u p)) = false /\
   snd (update_powerUp u p) =
   Player.set_score
     (Int.add (Player.score p) 20)
     (if Player.lives p <? 5
      then Player.set_lives (Int.add (Player.lives p) 1) p else p)).
Proof.
  unfold update_powerUp, player_overlaps.
  destruct (PowerUp.active u); [right|now left].
  cbn [PowerUp.y PowerUp.set_y PowerUp.x PowerUp.speed].
  destruct (F32.ltb (F32.sub (PowerUp.y u) (PowerUp.speed u)) _);
    cbn [PowerUp.y PowerUp.set_y PowerUp.x PowerUp.set_active];
    (destruct (F32.ltb (distance _ _) _); [right|left]);
    repeat split; destruct (Player.lives p <? 5); reflexivity.
Qed.







(** *** Lives *)

(** The three ways the body of the enemy loop can go. *)
Lemma update_enemy_cases (e : Enemy.t) (p : Player.t) (st : GameState) :
  (Enemy.active e = false /\ update_enemy e p st = (e, p, st)) \/
  (Enemy.active e = true /\ player_touches p e = false /\
   snd (fst (update_enemy e p st)) = p /\ snd (update_enemy e p st) = st) \/
  (Enemy.active e = true /\ player_touches p e = true /\
   Enemy.active (fst (fst (update_enemy e p st))) = false /\
   snd (fst (update_enemy e p st)) =
   Player.set_lives (Int.sub (Player.lives p) 1) p /\
   snd (update_enemy e p st) =
   if Int.sub (Player.lives p) 1 <=? 0 then GAME_OVER else st).
Proof.
  unfold update_enemy, player_touches.
  destruct (Enemy.active e); [right|now left].
  cbn [Enemy.y Enemy.set_y Enemy.x Enemy.speed].
  destruct (F32.ltb (F32.sub (Enemy.y e) (Enemy.speed e)) _);
    cbn [Enemy.y Enemy.set_y Enemy.x Enemy.set_active];
    (destruct (F32.ltb (distance _ _) _); [right|left]);
    repeat split.
Qed.

Lemma contacts_cons (p : Player.t) (e : Enemy.t) (es : list Enemy.t) :
  contacts p (e :: es) =
  (if Enemy.active e && player_touches p e then 1 else 0) + contacts p es.
Proof.
  unfold contacts. cbn [filter].
  destruct (Enemy.active e && player_touches p e); cbn [length]; lia.
Qed.

Lemma contacts_nonneg (p : Player.t) (es : list Enemy.t) : 0 <= contacts p es.
Proof. unfold contacts. lia. Qed.

Lemma contacts_position (p q : Player.t) (es : list Enemy.t) :
  Player.x q = Player.x p -> Player.y q = Player.y p ->
  Player.size q = Player.size p -> contacts q es = contacts p es.
Proof.
  intros Hx Hy Hs. unfold contacts. f_equal. f_equal.
  apply filter_ext. intros u. unfold player_touches.
  now rewrite Hx, Hy, Hs.
Qed.

(** The enemy loop takes one life per enemy in contact, with no floor. *)
Lemma update_enemies_lives (es : list Enemy.t) :
  forall p st es' p' st',
    update_enemies es p st = (es', p', st') ->
    Int.INT_MIN <= Player.lives p - contacts p es ->
    Player.lives p <= Int.INT_MAX ->
    Player.lives p' = Player.lives p - contacts p es.
Proof.
  induction es as [|e es IH]; intros p st es' p' st'; cbn [update_enemies].
  - intros H _ _. injection H as _ <- _.
    change (contacts p []) with 0. lia.
  - destruct (update_enemy e p st) as [[e1 p1] st1] eqn:He.
    destruct (update_enemies es p1 st1) as [[es2 p2] st2] eqn:Hs.
    intros H Hlo Hhi. injection H as _ <- _.
    rewrite contacts_cons in *.
    pose proof (contacts_nonneg p es) as Hn.
    destruct (update_enemy_cases e p st)
      as [[Ha E]|[(Ha & Hm & E & _)|(Ha & Hh & _ & E & _)]];
      rewrite He in E; cbn [fst snd] in E.
    + injection E as _ -> _. rewrite Ha in *. cbn [andb] in *.
      rewrite (IH _ _ _ _ _ Hs); lia.
    + subst p1. rewrite Ha, Hm in *. cbn [andb] in *.
      rewrite (IH _ _ _ _ _ Hs); lia.
    + rewrite Ha, Hh in *. cbn [andb] in *.
      assert (Hp : contacts p1 es = contacts p es)
        by (apply contacts_position; subst p1; reflexivity).
      assert (Hlv : Player.lives p1 = Player.lives p - 1).
      { subst p1. cbn [Player.lives Player.set_lives]. apply int_sub_exact.
        unfold Int.in_range, Int.INT_MIN, Int.INT_MAX in *. lia. }
      rewrite (IH _ _ _ _ _ Hs); rewrite ?Hp; lia.
Qed.

(** The enemy loop takes at most one life per enemy and gives none. *)
Lemma update_enemies_lives_bounds (es : list Enemy.t) :
  forall p st es' p' st',
    update_enemies es p st = (es', p', st') ->
    Int.INT_MIN + Z.of_nat (length es) <= Player.lives p <= Int.INT_MAX ->
    Player.lives p - Z.of_nat (length es) <= Player.lives p' <= Player.lives p.
Proof.
  induction es as [|e es IH]; intros p st es' p' st'; cbn [update_enemies].
  - intros H _. injection H as _ <- _. cbn [length]. lia.
  - destruct (update_enemy e p st) as [[e1 p1] st1] eqn:He.
    destruct (update_enemies es p1 st1) as [[es2 p2] st2] eqn:Hs.
    intros H Hl. injection H as _ <- _.
    change (length (e :: es)) with (S (length es)) in *.
    destruct (update_enemy_cases e p st)
      as [[_ E]|[(_ & _ & E & _)|(_ & _ & _ & E & _)]];
      rewrite He in E; cbn [fst snd] in E.
    + injection E as _ -> _. specialize (IH _ _ _ _ _ Hs). lia.
    + subst p1. specialize (IH _ _ _ _ _ Hs). lia.
    + assert (Hlv : Player.lives p1 = Player.lives p - 1).
      { subst p1. cbn [Player.lives Player.set_lives]. apply int_sub_exact.
        unfold Int.in_range, Int.INT_MIN, Int.INT_MAX in *. lia. }
      specialize (IH _ _ _ _ _ Hs). lia.
Qed.

(** The power-up loop takes no life and stops giving at 5. *)
Lemma update_powerUps_lives_bounds (us : list PowerUp.t) :
  forall p us' p',
    update_powerUps us p = (us', p') ->
    Int.INT_MIN <= Player.lives p <= 5 ->
    Player.lives p <= Player.lives p' <= 5.
Proof.
  induction us as [|u us IH]; intros p us' p'; cbn [update_powerUps].
  - intros H Hl. injection H as _ <-. lia.
  - destruct (update_powerUp u p) as [u1 p1] eqn:Hu.
    destruct (update_powerUps us p1) as [us2 p2] eqn:Hs.
    intros H Hl. injection H as _ <-.
    destruct (update_powerUp_cases u p)
      as [[_ E]|[(_ & _ & E)|(_ & _ & _ & E)]];
      rewrite Hu in E; cbn [snd] in E.
    + injection E as _ ->. exact (IH _ _ _ Hs Hl).
    + subst p1. exact (IH _ _ _ Hs Hl).
    + assert (Hlv : Player.lives p <= Player.lives p1 <= 5).
      { subst p1. cbn [Player.lives Player.set_score].
        destruct (Z.ltb_spec (Player.lives p) 5); [|lia].
        cbn [Player.lives Player.set_lives]. rewrite int_add_exact; [lia|].
        unfold Int.in_range, Int.INT_MIN, Int.INT_MAX in *. lia. }
      specialize (IH _ _ _ Hs). lia.
Qed.

Lemma scan_enemies_lives (es : list Enemy.t) :
  forall b p t b' es' p' t',
    scan_enemies b es p t = (b', es', p', t') ->
    Player.lives p' = Player.lives p.
Proof.
  induction es as [|e es IH]; intros b p t b' es' p' t'; cbn [scan_enemies].
  - intros H. now injection H as _ _ <- _.
  - destruct (hit_enemy b e p t) as [[[b1 e1] p1] t1] eqn:Hh.
    destruct (scan_enemies b1 es p1 t1) as [[[b2 es2] p2] t2] eqn:Hs.
    intros H. injection H as _ _ <- _. rewrite (IH _ _ _ _ _ _ _ Hs).
    destruct (hit_enemy_cases b e p t) as [[_ E]|[(_ & _ & E)|(_ & _ & E)]];
      rewrite E in Hh; injection Hh as _ _ <- _; reflexivity.
Qed.

Lemma scan_bullets_lives (bs : list Bullet.t) :
  forall es p t bs' es' p' t',
    scan_bullets bs es p t = (bs', es', p', t') ->
    Player.lives p' = Player.lives p.
Proof.
  induction bs as [|b bs IH]; intros es p t bs' es' p' t'; cbn [scan_bullets].
  - intros H. now injection H as _ _ <- _.
  - destruct (if Bullet.active b then scan_enemies b es p t else (b, es, p, t))
      as [[[b1 es1] p1] t1] eqn:Hh.
    destruct (scan_bullets bs es1 p1 t1) as [[[bs2 es2] p2] t2] eqn:Hs.
    intros H. injection H as _ _ <- _. rewrite (IH _ _ _ _ _ _ _ Hs).
    destruct (Bullet.active b).
    + exact (scan_enemies_lives _ _ _ _ _ _ _ _ Hh).
    + now injection Hh as _ _ <- _.
Qed.

Lemma player_cleanup (g : Game) : player (cleanup g) = player g.
Proof. reflexivity. Qed.

Lemma lives_move_player (k : ascii -> bool) (p : Player.t) :
  Player.lives (move_player k p) = Player.lives p.
Proof. unfold move_player. frame. Qed.

Lemma enemies_clock (g : Game) : enemies (clock g) = enemies g.
Proof.
  unfold clock, player_penalty, level_management. frame.
Qed.

Lemma lives_clock (g : Game) :
  Int.in_range (Player.lives (player g)) ->
  Player.lives (player g) - 1 <= Player.lives (player (clock g))
  <= Player.lives (player g).
Proof.
  intros Hr. pose proof (penalty_view_clock g) as H.
  unfold penalty_view in H.
  destruct (penalty_due g);
    [destruct (Z.ltb_spec 0 (Player.lives (player g)))|];
    injection H as _ -> _; try lia.
  cbn [Player.lives Player.set_lives]. rewrite int_sub_exact; [lia|].
  unfold Int.in_range, Int.INT_MIN, Int.INT_MAX in *. lia.
Qed.

Lemma lives_collide_powerUps (g : Game) :
  Int.INT_MIN <= Player.lives (player g) <= 5 ->
  Player.lives (player g) <= Player.lives (player (collide_powerUps g)) <= 5.
Proof.
  intros H. unfold collide_powerUps.
  destruct (update_powerUps _ _) as [us p] eqn:Hu.
  exact (update_powerUps_lives_bounds _ _ _ _ Hu H).
Qed.

Lemma lives_spawn_powerUp (g : Game) :
  Player.lives (player (spawn_powerUp g)) = Player.lives (player g).
Proof. unfold spawn_powerUp, rand. frame. Qed.

Lemma lives_collide_bullets (g : Game) :
  Player.lives (player (collide_bullets g)) = Player.lives (player g).
Proof.
  unfold collide_bullets.
  destruct (scan_bullets _ _ _ _) as [[[bs es] p] t] eqn:Hu.
  exact (scan_bullets_lives _ _ _ _ _ _ _ _ Hu).
Qed.

Lemma lives_collide_enemies (g : Game) :
  Int.INT_MIN + Z.of_nat (length (enemies g)) <= Player.lives (player g)
  <= Int.INT_MAX ->
  Player.lives (player g) - Z.of_nat (length (enemies g))
  <= Player.lives (player (collide_enemies g)) <= Player.lives (player g).
Proof.
  intros H. unfold collide_enemies.
  destruct (update_enemies _ _ _) as [[es p] st] eqn:Hu.
  exact (update_enemies_lives_bounds _ _ _ _ _ _ Hu H).
Qed.

Lemma lives_spawn_enemy (g : Game) :
  Player.lives (player (spawn_enemy g)) = Player.lives (player g).
Proof. unfold spawn_enemy, rand. frame. Qed.

Lemma length_enemies_spawn_enemy (g : Game) :
  Z.of_nat (length (enemies (spawn_enemy g)))
  <= Z.of_nat (length (enemies g)) + 1.
Proof.
  unfold spawn_enemy, rand. destruct (F32.ltb _ _); [|lia].
  cbn [enemies set_enemies set_enemySpawnTimer set_randoms].
  rewrite length_app. cbn [length]. lia.
Qed.

Lemma lives_moved (bs : list Bullet.t) (k : ascii -> bool) (g : Game) :
  Player.lives
    (player (set_bullets bs (set_player (move_player k (player g)) g)))
  = Player.lives (player g).
Proof. apply lives_move_player. Qed.

Lemma enemies_moved (bs : list Bullet.t) (p : Player.t) (g : Game) :
  enemies (set_bullets bs (set_player p g)) = enemies g.
Proof. reflexivity. Qed.

(** Across a frame the lives never pass 5, and fall by at most one for the
    penalty and one per enemy. *)
Lemma lives_update_bounds (v : Z) (g : Game) :
  gameState g = PLAYING ->
  0 <= Player.lives (player g) <= 5 ->
  Z.of_nat (length (enemies g)) <= 1000000 ->
  Player.lives (player g) - 2 - Z.of_nat (length (enemies g))
  <= Player.lives (player (update v g)) <= 5.
Proof.
  intros Hs Hl Hlen. unfold update. rewrite Hs.
  rewrite player_cleanup, simulate_clock.
  assert (Hc : Player.lives (player g) - 1 <= Player.lives (player (clock g))
               <= Player.lives (player g)).
  { apply lives_clock. unfold Int.in_range, Int.INT_MIN, Int.INT_MAX. lia. }
  match goal with
  | |- context [collide_powerUps ?h4] =>
      pose proof (lives_collide_powerUps h4) as H5;
      rewrite lives_spawn_powerUp, lives_collide_bullets in H5
  end.
  match goal with
  | |- context [collide_enemies ?h1] =>
      pose proof (lives_collide_enemies h1) as H2;
      rewrite lives_spawn_enemy, lives_moved in H2
  end.
  match goal with
  | |- context [spawn_enemy ?h0] =>
      pose proof (length_enemies_spawn_enemy h0) as E1;
      rewrite enemies_moved, enemies_clock in E1
  end.
  unfold Int.INT_MIN, Int.INT_MAX in *. lia.
Qed.

(** C1. The lives do not stay within 0..5 across every frame.  In the run
    under [rs_pair], played without a shot, frame 634 ends in PLAYING with one
    life and four active enemies; in frame 635 two of them reach the player,
    each takes a life, and the frame ends with -1 lives. *)
Theorem lives_fall_below_zero :
  frame_effect pair_state =
  ((PLAYING, 1, 0, [], [true; true; true; true], [true; true]),
   (GAME_OVER, -1, 0, [], [true; true], [true; true])).
Proof. vm_compute. reflexivity. Qed.

(** *** Spawn position *)

(** Where the spawner puts an enemy: at the top, at a whole x between 0 and
    778. *)
Lemma spawn_enemy_position (g : Game) :
  (F32.of_Z (enemySpawnRate g) <? enemySpawnTimer g)%f32 = true ->
  0 <= randoms g 0%nat -> 0 <= randoms g 1%nat ->
  exists e n,
    enemies (spawn_enemy g) = enemies g ++ [e] /\
    Enemy.x e = F32.of_Z n /\ 0 <= n <= 778 /\
    Enemy.y e = F32.of_Z HEIGHT /\ Enemy.active e = true.
Proof.
  intros Hd H0 H1. unfold spawn_enemy, rand. rewrite Hd.
  eexists. exists (Z.rem (randoms g 0%nat) (WIDTH - 40)
                   + Z.rem (randoms g 1%nat) 20).
  split; [reflexivity|].
  cbn [Enemy.x Enemy.y Enemy.active].
  pose proof (Z.rem_bound_pos (randoms g 0%nat) (WIDTH - 40) H0) as B0.
  pose proof (Z.rem_bound_pos (randoms g 1%nat) 20 H1) as B1.
  unfold WIDTH in *.
  split; [|split; [lia|split; reflexivity]].
  f_equal. apply int_add_exact, in_range_small. lia.
Qed.

(** C7. An enemy can be spawned partly outside the playfield.  When both
    draws for [enemy.x] are 0 the enemy appears at x = 0, at the top
    (y = HEIGHT); with its half-width of 15 it is not inside the width of
    the playfield.  The power-up spawner, which adds 20 where the enemy
    spawner adds [rand() % 20], puts its power-up at x = 20 for the same
    draw, inside the width. *)
Theorem enemy_spawns_off_field :
  map (fun e => (Enemy.x e, Enemy.y e, Enemy.active e))
    (enemies (spawn_enemy enemy_ready)) =
  [(F32.of_Z 0, F32.of_Z HEIGHT, true)] /\
  inside_width 15 (F32.of_Z 0) = false /\
  map (fun u => (PowerUp.x u, PowerUp.y u, PowerUp.active u))
    (powerUps (spawn_powerUp powerUp_ready)) =
  [(F32.of_Z 20, F32.of_Z HEIGHT, true)] /\
  inside_width 10 (F32.of_Z 20) = true.
Proof.
  split; [vm_compute; reflexivity|].
  split; [vm_compute; reflexivity|].
  split; vm_compute; reflexivity.
Qed.

(** ** Invariants of a run *)

Lemma run_invariant (P : Game -> Prop) :
  (forall ev g g', P g -> step ev g = Some g' -> P g') ->
  forall evs g g', P g -> run evs g = Some g' -> P g'.
Proof.
  intros Hstep evs. induction evs as [|ev evs IH]; intros g g' Hg; cbn [run].
  - intros H. injection H as <-. exact Hg.
  - destruct (step ev g) as [g1|] eqn:Hs; [|discriminate].
    apply IH. exact (Hstep ev g g1 Hg Hs).
Qed.

(** How a key pressed changes the game: not at all but for the key table,
    by one more bullet, or by the restart. *)
Lemma keyboardDown_cases (key : ascii) (x y : Z) (g g' : Game) :
  keyboardDown key x y g = Some g' ->
  let k := fun c => if Ascii.eqb c key then true else keys g c in
  g' = set_keys k g \/
  (gameState g = PLAYING /\
   g' = set_bullets
          (bullets g ++
           [Bullet.mk (Player.x (player g))
              (Player.y (player g) + Player.size (player g))%f32
              (F32.of_Z 10) true])
          (set_keys k g)) \/
  (gameState g <> PLAYING /\ key = " "%char /\
   keyboardDown " "%char x y g = Some g').
Proof.
  intros H k. unfold keyboardDown in H. fold k in H.
  destruct (Ascii.eqb key ESC) eqn:He; [discriminate|].
  destruct (Ascii.eqb key " "%char) eqn:Hsp.
  - apply Ascii.eqb_eq in Hsp. subst key.
    change (gameState (set_keys k g)) with (gameState g) in H.
    destruct (gameState g) eqn:Hs.
    + right. right. split; [discriminate|]. split; [reflexivity|].
      unfold keyboardDown. fold k.
      change (gameState (set_keys k g)) with (gameState g). rewrite Hs.
      exact H.
    + right. left. split; [reflexivity|]. now injection H as <-.
    + right. right. split; [discriminate|]. split; [reflexivity|].
      unfold keyboardDown. fold k.
      change (gameState (set_keys k g)) with (gameState g). rewrite Hs.
      exact H.
  - left. now injection H as <-.
Qed.

(** The space bar never ends the program. *)
Lemma space_never_exits (x y : Z) (g : Game) :
  keyboardDown " "%char x y g = Some (press_space g).
Proof.
  unfold press_space, keyboardDown.
  change (Ascii.eqb " "%char ESC) with false.
  change (Ascii.eqb " "%char " "%char) with true. cbv iota.
  change (gameState (set_keys ?k g)) with (gameState g).
  destruct (gameState g); reflexivity.
Qed.

Lemma init_start (rs : nat -> Z) :
  keyboardDown " "%char 0 0 (init rs) = Some (start rs).
Proof. exact (space_never_exits 0 0 (init rs)). Qed.

(** What the restart leaves behind. *)
Lemma restart_view (x y : Z) (g g' : Game) :
  gameState g <> PLAYING -> keyboardDown " "%char x y g = Some g' ->
  vital g' = (PLAYING, 3) /\
  Player.score (player g') = 0 /\
  (bullets g' = [] /\ enemies g' = [] /\ powerUps g' = []) /\
  currentLevel g' = 1 /\ enemySpawnRate g' = 60 /\
  (gameLevelTimer g' = F32.zero /\ lastHitTimer g' = F32.zero) /\
  (Player.x (player g') = F32.of_Z 400 /\ Player.y (player g') = F32.of_Z 50 /\
   Player.size (player g') = Player.size (player g) /\
   Player.speed (player g') = Player.speed (player g)) /\
  (enemySpawnTimer g' = enemySpawnTimer g /\ powerUpTimer g' = powerUpTimer g /\
   starOffset g' = starOffset g).
Proof.
  intros Hs. unfold keyboardDown.
  change (Ascii.eqb " "%char ESC) with false.
  change (Ascii.eqb " "%char " "%char) with true. cbv iota.
  change (gameState (set_keys ?k g)) with (gameState g).
  destruct (gameState g); try congruence;
    intros H; injection H as <-; repeat split.
Qed.

(** *** Level and spawn interval *)

Lemma level_ok_update (v : Z) (g : Game) : level_ok g -> level_ok (update v g).
Proof.
  intros [Hl Hr]. destruct (gameState g) eqn:Hs;
    try (rewrite update_not_playing by congruence; now split).
  pose proof (difficulty_update_playing v g Hs) as H.
  rewrite difficulty_level_block in H. unfold difficulty in H.
  unfold level_ok.
  destruct (level_due g); [destruct (Z.ltb_spec (currentLevel g) 3)|];
    injection H as H1 H2 _; rewrite H1, H2; try (split; assumption).
  destruct (level_up_arith (currentLevel g)) as [Ha Hb]; [lia|].
  rewrite Hb, Ha. lia.
Qed.

Lemma level_ok_step (ev : Event) (g g' : Game) :
  level_ok g -> step ev g = Some g' -> level_ok g'.
Proof.
  intros Hg. destruct ev as [v|key x y|key x y|key x y|key x y]; cbn [step].
  - intros H. injection H as <-. now apply level_ok_update.
  - intros H.
    destruct (keyboardDown_cases key x y g g' H)
      as [E|[[_ E]|(Hs & _ & E)]].
    + subst g'. exact Hg.
    + subst g'. exact Hg.
    + destruct (restart_view x y g g' Hs E) as (_ & _ & _ & E1 & E2 & _).
      unfold level_ok. rewrite E1, E2. lia.
  - intros H. injection H as <-. exact Hg.
  - intros H. injection H as <-. unfold specialDown.
    destruct (arrow_entry key); exact Hg.
  - intros H. injection H as <-. unfold specialUp.
    destruct (arrow_entry key); exact Hg.
Qed.

(** X1. In every run from [init] the level is 1, 2 or 3 and the spawn
    interval is 60 - (currentLevel - 1) * 25: a function of the level
    alone. *)
Theorem level_interval_invariant (rs : nat -> Z) (evs : list Event) (g : Game) :
  run evs (init rs) = Some g ->
  1 <= currentLevel g <= 3 /\
  enemySpawnRate g = 60 - (currentLevel g - 1) * 25.
Proof.
  apply (run_invariant level_ok level_ok_step). split; [cbn; lia|reflexivity].
Qed.

Lemma level_interval_invariant_witness :
  run [KeyDown " "%char 0 0; Tick 0] (init rs_zero)
  = Some (update 0 (start rs_zero)) /\
  1 <= currentLevel (update 0 (start rs_zero)) <= 3 /\
  enemySpawnRate (update 0 (start rs_zero))
  = 60 - (currentLevel (update 0 (start rs_zero)) - 1) * 25.
Proof.
  assert (H : run [KeyDown " "%char 0 0; Tick 0] (init rs_zero)
              = Some (update 0 (start rs_zero))) by reflexivity.
  split; [exact H|].
  exact (level_interval_invariant rs_zero _ _ H).
Defined.

(** *** Lives while the game is played *)

Lemma update_enemies_vital (es : list Enemy.t) :
  forall p st es' p' st',
    update_enemies es p st = (es', p', st') ->
    alive_or_over (st, Player.lives p) ->
    alive_or_over (st', Player.lives p').
Proof.
  induction es as [|e es IH]; intros p st es' p' st'; cbn [update_enemies].
  - intros H. now injection H as _ <- <-.
  - destruct (update_enemy e p st) as [[e1 p1] st1] eqn:He.
    destruct (update_enemies es p1 st1) as [[es2 p2] st2] eqn:Hs.
    intros H Hv. injection H as _ <- <-.
    apply (IH _ _ _ _ _ Hs). clear IH Hs.
    destruct (update_enemy_cases e p st)
      as [[_ E]|[(_ & _ & E1 & E2)|(_ & _ & _ & E1 & E2)]];
      rewrite He in *; cbn [fst snd] in *.
    + now injection E as _ <- <-.
    + now subst.
    + subst p1 st1. cbn [Player.lives Player.set_lives].
      unfold alive_or_over in *. cbn [fst snd] in *.
      destruct Hv as [->|[-> Hl]].
      * left. now destruct (_ <=? 0).
      * rewrite int_sub_exact by (apply in_range_small; lia).
        destruct (Z.leb_spec (Player.lives p - 1) 0); [now left|].
        right. split; [reflexivity|lia].
Qed.

Lemma alive_or_over_collide_enemies (g : Game) :
  alive_or_over (vital g) -> alive_or_over (vital (collide_enemies g)).
Proof.
  unfold collide_enemies, vital.
  destruct (update_enemies _ _ _) as [[es p] st] eqn:H.
  exact (update_enemies_vital _ _ _ _ _ _ H).
Qed.

Lemma alive_or_over_collide_powerUps (g : Game) :
  alive_or_over (vital g) -> alive_or_over (vital (collide_powerUps g)).
Proof.
  unfold collide_powerUps, vital.
  destruct (update_powerUps _ _) as [us p] eqn:H.
  cbn [gameState player set_player set_powerUps].
  unfold alive_or_over. cbn [fst snd].
  intros [Hs|[Hs Hl]]; [now left|right]. split; [exact Hs|].
  assert (Hb : Int.INT_MIN <= Player.lives (player g) <= 5)
    by (unfold Int.INT_MIN; lia).
  pose proof (update_powerUps_lives_bounds _ _ _ _ H Hb). lia.
Qed.

Lemma vital_spawn_enemy (g : Game) : vital (spawn_enemy g) = vital g.
Proof. unfold spawn_enemy, rand. frame. Qed.

Lemma vital_spawn_powerUp (g : Game) : vital (spawn_powerUp g) = vital g.
Proof. unfold spawn_powerUp, rand. frame. Qed.

Lemma vital_collide_bullets (g : Game) : vital (collide_bullets g) = vital g.
Proof.
  unfold vital.
  now rewrite gameState_collide_bullets, lives_collide_bullets.
Qed.

Lemma vital_cleanup (g : Game) : vital (cleanup g) = vital g.
Proof. reflexivity. Qed.

Lemma vital_moved (bs : list Bullet.t) (k : ascii -> bool) (g : Game) :
  vital (set_bullets bs (set_player (move_player k (player g)) g)) = vital g.
Proof.
  unfold vital. rewrite lives_moved. reflexivity.
Qed.

Lemma alive_or_over_clock (g : Game) :
  gameState g = PLAYING -> 1 <= Player.lives (player g) <= 5 ->
  alive_or_over (vital (clock g)).
Proof.
  intros Hs Hl. pose proof (penalty_view_clock g) as H.
  unfold penalty_view in H. unfold vital, alive_or_over.
  replace (0 <? Player.lives (player g)) with true in H
    by (symmetry; apply Z.ltb_lt; lia).
  rewrite int_sub_exact in H by (apply in_range_small; lia).
  destruct (penalty_due g); injection H as _ -> ->; cbn [fst snd].
  - cbn [Player.lives Player.set_lives].
    destruct (Z.leb_spec (Player.lives (player g) - 1) 0); [now left|].
    right. split; [exact Hs|lia].
  - right. now split.
Qed.

Lemma alive_or_over_update (v : Z) (g : Game) :
  gameState g = PLAYING -> 1 <= Player.lives (player g) <= 5 ->
  alive_or_over (vital (update v g)).
Proof.
  intros Hs Hl. unfold update. rewrite Hs.
  rewrite vital_cleanup, simulate_clock.
  apply alive_or_over_collide_powerUps.
  rewrite vital_spawn_powerUp, vital_collide_bullets.
  apply alive_or_over_collide_enemies.
  rewrite vital_spawn_enemy, vital_moved.
  now apply alive_or_over_clock.
Qed.

Lemma lives_ok_step (ev : Event) (g g' : Game) :
  lives_ok g -> step ev g = Some g' -> lives_ok g'.
Proof.
  intros Hg. destruct ev as [v|key x y|key x y|key x y|key x y]; cbn [step].
  - intros H. injection H as <-. destruct (gameState g) eqn:Hs;
      try (rewrite update_not_playing by congruence; exact Hg).
    destruct (alive_or_over_update v g Hs (Hg Hs)) as [E|[_ E]];
      unfold lives_ok, vital in *; cbn [fst snd] in *; [congruence|auto].
  - intros H.
    destruct (keyboardDown_cases key x y g g' H) as [E|[[_ E]|(Hs & _ & E)]].
    + subst g'. exact Hg.
    + subst g'. exact Hg.
    + destruct (restart_view x y g g' Hs E) as (Hv & _).
      unfold lives_ok, vital in *. injection Hv as _ ->. lia.
  - intros H. injection H as <-. exact Hg.
  - intros H. injection H as <-. unfold specialDown.
    destruct (arrow_entry key); exact Hg.
  - intros H. injection H as <-. unfold specialUp.
    destruct (arrow_entry key); exact Hg.
Qed.

(** X2. In every run from [init], whenever the game is in PLAYING the
    player has at least one life and at most five: a frame that takes the
    last life ends in GAME_OVER. *)
Theorem lives_while_playing (rs : nat -> Z) (evs : list Event) (g : Game) :
  run evs (init rs) = Some g -> gameState g = PLAYING ->
  1 <= Player.lives (player g) <= 5.
Proof.
  apply (run_invariant lives_ok lives_ok_step). intros H. discriminate.
Qed.

Lemma lives_while_playing_witness :
  (run [KeyDown " "%char 0 0; Tick 0] (init rs_zero)
   = Some (update 0 (start rs_zero)) /\
   gameState (update 0 (start rs_zero)) = PLAYING) /\
  1 <= Player.lives (player (update 0 (start rs_zero))) <= 5.
Proof.
  assert (H : run [KeyDown " "%char 0 0; Tick 0] (init rs_zero)
              = Some (update 0 (start rs_zero))) by reflexivity.
  assert (Hs : gameState (update 0 (start rs_zero)) = PLAYING)
    by (vm_compute; reflexivity).
  split; [now split|].
  exact (lives_while_playing rs_zero _ _ H Hs).
Defined.

(** *** Timers *)

Lemma ltb_of_Z_small (r k : Z) :
  0 <= r < 64 -> 0 <= k < 64 ->
  (F32.of_Z r <? F32.of_Z k)%f32 = (r <? k).
Proof.
  intros Hr Hk. apply (proj1 (Bool.eqb_true_iff _ _)).
  apply (all_below_spec
           (fun k => Bool.eqb (F32.of_Z r <? F32.of_Z k)%f32 (r <? k)) 64);
    [|exact Hk].
  apply (all_below_spec
           (fun r =>
              all_below
                (fun k => Bool.eqb (F32.of_Z r <? F32.of_Z k)%f32 (r <? k))
                64) 64); [vm_compute; reflexivity|exact Hr].
Qed.

Lemma ltb_300_of_Z (k : Z) :
  0 <= k < 1000 -> (F32.of_Z 300 <? F32.of_Z k)%f32 = (300 <? k).
Proof.
  intros Hk. apply (proj1 (Bool.eqb_true_iff _ _)).
  apply (all_below_spec
           (fun k => Bool.eqb (F32.of_Z 300 <? F32.of_Z k)%f32 (300 <? k))
           1000); [vm_compute; reflexivity|exact Hk].
Qed.

Lemma leb_900_of_Z (k : Z) :
  0 <= k < 1000 -> (F32.of_Z 900 <=? F32.of_Z k)%f32 = (900 <=? k).
Proof.
  intros Hk. apply (proj1 (Bool.eqb_true_iff _ _)).
  apply (all_below_spec
           (fun k => Bool.eqb (F32.of_Z 900 <=? F32.of_Z k)%f32 (900 <=? k))
           1000); [vm_compute; reflexivity|exact Hk].
Qed.

(** The star offset advances by a half and starts over past HEIGHT. *)
Lemma update_stars_half (k : Z) (g : Game) :
  0 <= k <= 1200 -> starOffset g = half_of k ->
  starOffset (update_stars g) = half_of (if 1200 <? k + 1 then 0 else k + 1).
Proof.
  intros Hk Hs. unfold update_stars.
  change (starOffset (set_starOffset ?v g)) with v. rewrite Hs.
  apply sf_eqb_eq.
  apply (all_below_spec
           (fun k =>
              sf_eqb
                (if (F32.of_Z HEIGHT
                     <? F64.to_f32
                          (F64.add (F64.of_f32 (half_of k)) F64.half))%f32
                 then F32.zero
                 else F64.to_f32 (F64.add (F64.of_f32 (half_of k)) F64.half))
                (half_of (if 1200 <? k + 1 then 0 else k + 1)))
           1201); [vm_compute; reflexivity|lia].
Qed.

Lemma pace_clock (g : Game) :
  pace (clock g) =
  (F32.incr (enemySpawnTimer g), F32.incr (powerUpTimer g),
   starOffset (update_stars g), enemySpawnRate (clock g)).
Proof. unfold clock, player_penalty, level_management. frame. Qed.

Lemma difficulty_clock (g : Game) :
  difficulty (clock g) =
  difficulty (level_management (increment_timers (update_stars g))).
Proof. unfold clock. apply difficulty_player_penalty. Qed.

Lemma pace_moved (bs : list Bullet.t) (p : Player.t) (g : Game) :
  pace (set_bullets bs (set_player p g)) = pace g.
Proof. reflexivity. Qed.

Lemma pace_spawn_enemy (g : Game) :
  pace (spawn_enemy g) = enemy_reset (pace g).
Proof.
  unfold spawn_enemy, rand, enemy_reset, pace.
  destruct (F32.ltb _ _); reflexivity.
Qed.

Lemma pace_spawn_powerUp (g : Game) :
  pace (spawn_powerUp g) = powerUp_reset (pace g).
Proof.
  unfold spawn_powerUp, rand, powerUp_reset, pace.
  destruct (F32.ltb _ _); reflexivity.
Qed.

Lemma pace_collide_enemies (g : Game) : pace (collide_enemies g) = pace g.
Proof.
  unfold collide_enemies.
  destruct (update_enemies _ _ _) as [[es p] st]. reflexivity.
Qed.

Lemma pace_collide_bullets (g : Game) : pace (collide_bullets g) = pace g.
Proof.
  unfold collide_bullets.
  destruct (scan_bullets _ _ _ _) as [[[bs es] p] t]. reflexivity.
Qed.

Lemma pace_collide_powerUps (g : Game) : pace (collide_powerUps g) = pace g.
Proof.
  unfold collide_powerUps.
  destruct (update_powerUps _ _) as [us p]. reflexivity.
Qed.

Lemma pace_cleanup (g : Game) : pace (cleanup g) = pace g.
Proof. reflexivity. Qed.

(** The spawn timers after a frame: advanced by one, and back to 0 where
    the spawner fired. *)
Lemma pace_update (v : Z) (g : Game) :
  gameState g = PLAYING ->
  pace (update v g) =
  powerUp_reset
    (enemy_reset
       (F32.incr (enemySpawnTimer g), F32.incr (powerUpTimer g),
        starOffset (update_stars g), enemySpawnRate (update v g))).
Proof.
  intros Hs.
  assert (Hr : enemySpawnRate (update v g) = enemySpawnRate (clock g)).
  { pose proof (difficulty_update_playing v g Hs) as H.
    rewrite <- difficulty_clock in H. unfold difficulty in H.
    now injection H as _ H _. }
  rewrite Hr. unfold update. rewrite Hs.
  rewrite pace_cleanup, simulate_clock.
  rewrite pace_collide_powerUps, pace_spawn_powerUp, pace_collide_bullets,
    pace_collide_enemies, pace_spawn_enemy, pace_moved, pace_clock.
  reflexivity.
Qed.

Lemma whole_upto_zero (n : Z) : 0 <= n -> whole_upto n F32.zero.
Proof. intros H. exists 0. split; [lia|reflexivity]. Qed.

Lemma timers_ok_update (v : Z) (g : Game) :
  gameState g = PLAYING -> level_ok g -> lives_ok g -> timers_ok g ->
  timers_ok (update v g).
Proof.
  intros Hs Hlev Hliv (He & Hp & Hl & Hh & Hst).
  pose proof (level_ok_update v g Hlev) as [Hl' Hr'].
  pose proof (pace_update v g Hs) as Hpace.
  unfold pace, powerUp_reset, enemy_reset in Hpace.
  injection Hpace as E1 E2 E3.
  destruct He as (ke & Hke & Ee). destruct Hp as (kp & Hkp & Ep).
  destruct Hl as (kl & Hkl & El). destruct Hh as (kh & Hkh & Eh).
  destruct Hst as (ks & Hks & Es).
  unfold timers_ok. split; [|split; [|split; [|split]]].
  - rewrite E1, Ee, incr_of_Z, ltb_of_Z_small by lia.
    destruct (Z.ltb_spec (enemySpawnRate (update v g)) (ke + 1)).
    + apply whole_upto_zero. lia.
    + exists (ke + 1). split; [lia|reflexivity].
  - rewrite E2, Ep, incr_of_Z, ltb_300_of_Z by lia.
    destruct (Z.ltb_spec 300 (kp + 1)).
    + apply whole_upto_zero. lia.
    + exists (kp + 1). split; [lia|reflexivity].
  - pose proof (difficulty_update_playing v g Hs) as H.
    rewrite difficulty_level_block in H. unfold level_due in H.
    rewrite El, incr_of_Z, leb_900_of_Z in H by lia.
    unfold difficulty in H.
    destruct (Z.leb_spec 900 (kl + 1)).
    + destruct (currentLevel g <? 3); injection H as _ _ ->;
        apply whole_upto_zero; lia.
    + injection H as _ _ ->. exists (kl + 1). split; [lia|reflexivity].
  - assert (Hc : whole_upto 299 (lastHitTimer (clock g))).
    { pose proof (penalty_view_clock g) as H. unfold penalty_due in H.
      rewrite Eh, incr_of_Z, leb_300_of_Z in H by lia.
      unfold penalty_view in H.
      replace (0 <? Player.lives (player g)) with true in H
        by (symmetry; apply Z.ltb_lt; specialize (Hliv Hs); lia).
      destruct (Z.leb_spec 300 (kh + 1)); injection H as -> _ _.
      - apply whole_upto_zero. lia.
      - exists (kh + 1). split; [lia|reflexivity]. }
    destruct (lastHitTimer_update v g Hs) as [E|E]; rewrite E;
      [exact Hc|apply whole_upto_zero; lia].
  - rewrite E3. exists (if 1200 <? ks + 1 then 0 else ks + 1).
    split; [destruct (1200 <? ks + 1) eqn:Hk; [lia|apply Z.ltb_ge in Hk; lia]|].
    now apply update_stars_half.
Qed.

Lemma run_ok_step (ev : Event) (g g' : Game) :
  run_ok g -> step ev g = Some g' -> run_ok g'.
Proof.
  intros (Hlev & Hliv & Ht) H.
  split; [exact (level_ok_step ev g g' Hlev H)|].
  split; [exact (lives_ok_step ev g g' Hliv H)|].
  destruct ev as [v|key x y|key x y|key x y|key x y]; cbn [step] in H.
  - injection H as <-. destruct (gameState g) eqn:Hs;
      try (rewrite update_not_playing by congruence; exact Ht).
    now apply timers_ok_update.
  - destruct (keyboardDown_cases key x y g g' H) as [E|[[_ E]|(Hs & _ & E)]].
    + subst g'. exact Ht.
    + subst g'. exact Ht.
    + destruct (restart_view x y g g' Hs E)
        as (_ & _ & _ & _ & _ & (E1 & E2) & _ & (E3 & E4 & E5)).
      destruct Ht as (He & Hp & _ & _ & Hst). unfold timers_ok.
      rewrite E1, E2, E3, E4, E5.
      repeat split; try assumption; apply whole_upto_zero; lia.
  - injection H as <-. exact Ht.
  - injection H as <-. unfold specialDown.
    destruct (arrow_entry key); exact Ht.
  - injection H as <-. unfold specialUp.
    destruct (arrow_entry key); exact Ht.
Qed.

Lemma run_ok_init (rs : nat -> Z) : run_ok (init rs).
Proof.
  split; [split; [cbn; lia|reflexivity]|].
  split; [intros H; discriminate|].
  repeat split; try (apply whole_upto_zero; lia).
  exists 0. split; [lia|reflexivity].
Qed.

(** X3. In every run from [init] the four frame counters hold whole
    numbers, each below the threshold that resets it: the enemy-spawn timer
    at most 60, the power-up timer at most 300, the level timer at most 899
    and the no-hit timer at most 299; the star offset is a whole number of
    halves between 0 and 600.  So the [float] counters never leave the range
    where counting is exact. *)
Theorem timers_stay_whole (rs : nat -> Z) (evs : list Event) (g : Game) :
  run evs (init rs) = Some g ->
  (exists k, 0 <= k <= 60 /\ enemySpawnTimer g = F32.of_Z k) /\
  (exists k, 0 <= k <= 300 /\ powerUpTimer g = F32.of_Z k) /\
  (exists k, 0 <= k <= 899 /\ gameLevelTimer g = F32.of_Z k) /\
  (exists k, 0 <= k <= 299 /\ lastHitTimer g = F32.of_Z k) /\
  (exists k, 0 <= k <= 1200 /\ starOffset g = half_of k).
Proof.
  intros H.
  exact (proj2 (proj2 (run_invariant run_ok run_ok_step evs _ _
                         (run_ok_init rs) H))).
Qed.

Lemma timers_stay_whole_witness :
  run [KeyDown " "%char 0 0; Tick 0] (init rs_zero)
  = Some (update 0 (start rs_zero)) /\
  (exists k, 0 <= k <= 60 /\
             enemySpawnTimer (update 0 (start rs_zero)) = F32.of_Z k) /\
  (exists k, 0 <= k <= 300 /\
             powerUpTimer (update 0 (start rs_zero)) = F32.of_Z k) /\
  (exists k, 0 <= k <= 899 /\
             gameLevelTimer (update 0 (start rs_zero)) = F32.of_Z k) /\
  (exists k, 0 <= k <= 299 /\
             lastHitTimer (update 0 (start rs_zero)) = F32.of_Z k) /\
  (exists k, 0 <= k <= 1200 /\
             starOffset (update 0 (start rs_zero)) = half_of k).
Proof.
  assert (H : run [KeyDown " "%char 0 0; Tick 0] (init rs_zero)
              = Some (update 0 (start rs_zero))) by reflexivity.
  split; [exact H|].
  exact (timers_stay_whole rs_zero _ _ H).
Defined.

(** *** The player stays in the window *)

Lemma all_between_spec (P : Z -> bool) (lo : Z) (hi : nat) :
  all_between P lo hi = true ->
  forall k, lo <= k < Z.of_nat hi -> 0 <= lo -> P k = true.
Proof.
  intros H k Hk Hlo.
  pose proof (all_below_spec _ hi H k) as Hb. cbv beta in Hb.
  replace (k <? lo) with false in Hb by (symmetry; apply Z.ltb_ge; lia).
  apply Hb. lia.
Qed.

Lemma move_low_grid (i : Z) :
  4 <= i <= 156 ->
  (if (F32.of_Z (5 * i) - F32.of_Z 5 <? F32.of_Z 20)%f32
   then F32.of_Z 20 else (F32.of_Z (5 * i) - F32.of_Z 5)%f32)
  = F32.of_Z (5 * Z.max 4 (i - 1)).
Proof.
  intros Hi. apply sf_eqb_eq.
  apply (all_between_spec
           (fun i =>
              sf_eqb
                (if (F32.of_Z (5 * i) - F32.of_Z 5 <? F32.of_Z 20)%f32
                 then F32.of_Z 20 else (F32.of_Z (5 * i) - F32.of_Z 5)%f32)
                (F32.of_Z (5 * Z.max 4 (i - 1))))
           4 157); [vm_compute; reflexivity|lia|lia].
Qed.

Lemma move_high_grid (w n i : Z) :
  (w = 800 /\ n = 156) \/ (w = 600 /\ n = 116) -> 4 <= i <= n ->
  (if (F32.of_Z w - F32.of_Z 20 <? F32.of_Z (5 * i) + F32.of_Z 5)%f32
   then (F32.of_Z w - F32.of_Z 20)%f32
   else (F32.of_Z (5 * i) + F32.of_Z 5)%f32)
  = F32.of_Z (5 * Z.min n (i + 1)).
Proof.
  intros [[-> ->]|[-> ->]] Hi; apply sf_eqb_eq.
  - apply (all_between_spec
             (fun i =>
                sf_eqb
                  (if (F32.of_Z 800 - F32.of_Z 20
                       <? F32.of_Z (5 * i) + F32.of_Z 5)%f32
                   then (F32.of_Z 800 - F32.of_Z 20)%f32
                   else (F32.of_Z (5 * i) + F32.of_Z 5)%f32)
                  (F32.of_Z (5 * Z.min 156 (i + 1))))
             4 157); [vm_compute; reflexivity|lia|lia].
  - apply (all_between_spec
             (fun i =>
                sf_eqb
                  (if (F32.of_Z 600 - F32.of_Z 20
                       <? F32.of_Z (5 * i) + F32.of_Z 5)%f32
                   then (F32.of_Z 600 - F32.of_Z 20)%f32
                   else (F32.of_Z (5 * i) + F32.of_Z 5)%f32)
                  (F32.of_Z (5 * Z.min 116 (i + 1))))
             4 117); [vm_compute; reflexivity|lia|lia].
Qed.

Lemma move_player_blocks (k : ascii -> bool) (p : Player.t) :
  move_player k p =
  move_down (k "s"%char || k "S"%char)
    (move_up (k "w"%char || k "W"%char)
       (move_right (k "d"%char || k "D"%char)
          (move_left (k "a"%char || k "A"%char) p))).
Proof. unfold move_player, move_down, move_up, move_right, move_left.
       reflexivity. Qed.

Lemma position_move_left (c : bool) (p : Player.t) :
  position (move_left c p) =
  let '(x, y, size, speed) := position p in
  (if c then (if (x - speed <? size) then size else x - speed)%f32 else x,
   y, size, speed).
Proof.
  destruct p as [x y size speed lives score]. unfold move_left, position.
  cbn [Player.x Player.y Player.size Player.speed Player.set_x Player.set_y].
  destruct c; [destruct (F32.ltb _ _)|]; reflexivity.
Qed.

Lemma position_move_right (c : bool) (p : Player.t) :
  position (move_right c p) =
  let '(x, y, size, speed) := position p in
  (if c then (if (F32.of_Z WIDTH - size <? x + speed)
              then F32.of_Z WIDTH - size else x + speed)%f32 else x,
   y, size, speed).
Proof.
  destruct p as [x y size speed lives score]. unfold move_right, position.
  cbn [Player.x Player.y Player.size Player.speed Player.set_x Player.set_y].
  destruct c; [destruct (F32.ltb _ _)|]; reflexivity.
Qed.

Lemma position_move_up (c : bool) (p : Player.t) :
  position (move_up c p) =
  let '(x, y, size, speed) := position p in
  (x,
   if c then (if (F32.of_Z HEIGHT - size <? y + speed)
              then F32.of_Z HEIGHT - size else y + speed)%f32 else y,
   size, speed).
Proof.
  destruct p as [x y size speed lives score]. unfold move_up, position.
  cbn [Player.x Player.y Player.size Player.speed Player.set_x Player.set_y].
  destruct c; [destruct (F32.ltb _ _)|]; reflexivity.
Qed.

Lemma position_move_down (c : bool) (p : Player.t) :
  position (move_down c p) =
  let '(x, y, size, speed) := position p in
  (x, if c then (if (y - speed <? size) then size else y - speed)%f32 else y,
   size, speed).
Proof.
  destruct p as [x y size speed lives score]. unfold move_down, position.
  cbn [Player.x Player.y Player.size Player.speed Player.set_x Player.set_y].
  destruct c; [destruct (F32.ltb _ _)|]; reflexivity.
Qed.

Lemma on_grid_move_left (c : bool) (p : Player.t) :
  on_grid p -> on_grid (move_left c p).
Proof.
  intros (i & j & Hi & Hj & Hp). unfold on_grid.
  rewrite position_move_left, Hp.
  exists (if c then Z.max 4 (i - 1) else i), j.
  split; [destruct c; lia|]. split; [exact Hj|].
  destruct c; [|reflexivity]. rewrite move_low_grid by lia. reflexivity.
Qed.

Lemma on_grid_move_right (c : bool) (p : Player.t) :
  on_grid p -> on_grid (move_right c p).
Proof.
  intros (i & j & Hi & Hj & Hp). unfold on_grid.
  rewrite position_move_right, Hp.
  exists (if c then Z.min 156 (i + 1) else i), j.
  split; [destruct c; lia|]. split; [exact Hj|].
  destruct c; [|reflexivity].
  change (F32.of_Z WIDTH) with (F32.of_Z 800).
  rewrite (move_high_grid 800 156 i); auto.
Qed.

Lemma on_grid_move_up (c : bool) (p : Player.t) :
  on_grid p -> on_grid (move_up c p).
Proof.
  intros (i & j & Hi & Hj & Hp). unfold on_grid.
  rewrite position_move_up, Hp.
  exists i, (if c then Z.min 116 (j + 1) else j).
  split; [exact Hi|]. split; [destruct c; lia|].
  destruct c; [|reflexivity].
  change (F32.of_Z HEIGHT) with (F32.of_Z 600).
  rewrite (move_high_grid 600 116 j); auto.
Qed.

Lemma on_grid_move_down (c : bool) (p : Player.t) :
  on_grid p -> on_grid (move_down c p).
Proof.
  intros (i & j & Hi & Hj & Hp). unfold on_grid.
  rewrite position_move_down, Hp.
  exists i, (if c then Z.max 4 (j - 1) else j).
  split; [exact Hi|]. split; [destruct c; lia|].
  destruct c; [|reflexivity]. rewrite move_low_grid by lia. reflexivity.
Qed.

(** The move reads the position only. *)
Lemma position_move_player_ext (k : ascii -> bool) (p q : Player.t) :
  position p = position q ->
  position (move_player k p) = position (move_player k q).
Proof.
  intros H. rewrite !move_player_blocks.
  rewrite !position_move_down, !position_move_up, !position_move_right,
    !position_move_left, H. reflexivity.
Qed.

(** Whatever keys are down, a move takes the player from the grid to the
    grid. *)
Lemma on_grid_move_player (k : ascii -> bool) (p : Player.t) :
  on_grid p -> on_grid (move_player k p).
Proof.
  intros H. rewrite move_player_blocks.
  now apply on_grid_move_down, on_grid_move_up, on_grid_move_right,
    on_grid_move_left.
Qed.

Lemma update_enemies_position (es : list Enemy.t) :
  forall p st es' p' st',
    update_enemies es p st = (es', p', st') -> position p' = position p.
Proof.
  induction es as [|e es IH]; intros p st es' p' st'; cbn [update_enemies].
  - intros H. now injection H as _ <- _.
  - destruct (update_enemy e p st) as [[e1 p1] st1] eqn:He.
    destruct (update_enemies es p1 st1) as [[es2 p2] st2] eqn:Hs.
    intros H. injection H as _ <- _. rewrite (IH _ _ _ _ _ Hs).
    destruct (update_enemy_cases e p st)
      as [[_ E]|[(_ & _ & E & _)|(_ & _ & _ & E & _)]];
      rewrite He in E; cbn [fst snd] in E.
    + now injection E as _ <- _.
    + now subst.
    + now subst.
Qed.

Lemma scan_enemies_position (es : list Enemy.t) :
  forall b p t b' es' p' t',
    scan_enemies b es p t = (b', es', p', t') -> position p' = position p.
Proof.
  induction es as [|e es IH]; intros b p t b' es' p' t'; cbn [scan_enemies].
  - intros H. now injection H as _ _ <- _.
  - destruct (hit_enemy b e p t) as [[[b1 e1] p1] t1] eqn:Hh.
    destruct (scan_enemies b1 es p1 t1) as [[[b2 es2] p2] t2] eqn:Hs.
    intros H. injection H as _ _ <- _. rewrite (IH _ _ _ _ _ _ _ Hs).
    destruct (hit_enemy_cases b e p t) as [[_ E]|[(_ & _ & E)|(_ & _ & E)]];
      rewrite E in Hh; injection Hh as _ _ <- _; reflexivity.
Qed.

Lemma scan_bullets_position (bs : list Bullet.t) :
  forall es p t bs' es' p' t',
    scan_bullets bs es p t = (bs', es', p', t') -> position p' = position p.
Proof.
  induction bs as [|b bs IH]; intros es p t bs' es' p' t'; cbn [scan_bullets].
  - intros H. now injection H as _ _ <- _.
  - destruct (if Bullet.active b then scan_enemies b es p t else (b, es, p, t))
      as [[[b1 es1] p1] t1] eqn:Hh.
    destruct (scan_bullets bs es1 p1 t1) as [[[bs2 es2] p2] t2] eqn:Hs.
    intros H. injection H as _ _ <- _. rewrite (IH _ _ _ _ _ _ _ Hs).
    destruct (Bullet.active b).
    + exact (scan_enemies_position _ _ _ _ _ _ _ _ Hh).
    + now injection Hh as _ _ <- _.
Qed.

Lemma update_powerUps_position (us : list PowerUp.t) :
  forall p us' p',
    update_powerUps us p = (us', p') -> position p' = position p.
Proof.
  induction us as [|u us IH]; intros p us' p'; cbn [update_powerUps].
  - intros H. now injection H as _ <-.
  - destruct (update_powerUp u p) as [u1 p1] eqn:Hu.
    destruct (update_powerUps us p1) as [us2 p2] eqn:Hs.
    intros H. injection H as _ <-. rewrite (IH _ _ _ Hs).
    destruct (update_powerUp_cases u p)
      as [[_ E]|[(_ & _ & E)|(_ & _ & _ & E)]];
      rewrite Hu in E; cbn [snd] in E.
    + now injection E as _ <-.
    + now subst.
    + subst p1. now destruct (Player.lives p <? 5).
Qed.

Lemma position_clock (g : Game) :
  position (player (clock g)) = position (player g).
Proof.
  pose proof (penalty_view_clock g) as H. unfold penalty_view in H.
  destruct (penalty_due g); [destruct (0 <? Player.lives (player g))|];
    injection H as _ -> _; reflexivity.
Qed.

Lemma player_moved (bs : list Bullet.t) (p : Player.t) (g : Game) :
  player (set_bullets bs (set_player p g)) = p.
Proof. reflexivity. Qed.

Lemma player_spawn_enemy (g : Game) : player (spawn_enemy g) = player g.
Proof. unfold spawn_enemy, rand. frame. Qed.

Lemma player_spawn_powerUp (g : Game) : player (spawn_powerUp g) = player g.
Proof. unfold spawn_powerUp, rand. frame. Qed.

Lemma position_collide_enemies (g : Game) :
  position (player (collide_enemies g)) = position (player g).
Proof.
  unfold collide_enemies.
  destruct (update_enemies _ _ _) as [[es p] st] eqn:H.
  exact (update_enemies_position _ _ _ _ _ _ H).
Qed.

Lemma position_collide_bullets (g : Game) :
  position (player (collide_bullets g)) = position (player g).
Proof.
  unfold collide_bullets.
  destruct (scan_bullets _ _ _ _) as [[[bs es] p] t] eqn:H.
  exact (scan_bullets_position _ _ _ _ _ _ _ _ H).
Qed.

Lemma position_collide_powerUps (g : Game) :
  position (player (collide_powerUps g)) = position (player g).
Proof.
  unfold collide_powerUps.
  destruct (update_powerUps _ _) as [us p] eqn:H.
  exact (update_powerUps_position _ _ _ _ H).
Qed.

(** The player's position after a frame is the one the move block gives;
    no other block touches it. *)
Lemma position_update (v : Z) (g : Game) :
  gameState g = PLAYING ->
  position (player (update v g)) = position (move_player (keys g) (player g)).
Proof.
  intros Hs. unfold update. rewrite Hs.
  rewrite player_cleanup, simulate_clock.
  rewrite position_collide_powerUps, player_spawn_powerUp,
    position_collide_bullets, position_collide_enemies, player_spawn_enemy,
    player_moved.
  replace (keys (clock g)) with (keys g)
    by (unfold clock, player_penalty, level_management; frame).
  apply position_move_player_ext, position_clock.
Qed.

Lemma on_grid_update (v : Z) (g : Game) :
  on_grid (player g) -> on_grid (player (update v g)).
Proof.
  intros Hg. destruct (gameState g) eqn:Hs;
    try (rewrite update_not_playing by congruence; exact Hg).
  pose proof (on_grid_move_player (keys g) (player g) Hg) as H.
  unfold on_grid in *. rewrite position_update by exact Hs.
  exact H.
Qed.

Lemma on_grid_step (ev : Event) (g g' : Game) :
  on_grid (player g) -> step ev g = Some g' -> on_grid (player g').
Proof.
  intros Hg. destruct ev as [v|key x y|key x y|key x y|key x y]; cbn [step].
  - intros H. injection H as <-. now apply on_grid_update.
  - intros H.
    destruct (keyboardDown_cases key x y g g' H) as [E|[[_ E]|(Hs & _ & E)]].
    + subst g'. exact Hg.
    + subst g'. exact Hg.
    + destruct (restart_view x y g g' Hs E)
        as (_ & _ & _ & _ & _ & _ & (E1 & E2 & E3 & E4) & _).
      destruct Hg as (i & j & _ & _ & Hp). unfold position in Hp.
      injection Hp as _ _ Hz Hv.
      exists 80, 10. split; [lia|]. split; [lia|].
      unfold position. rewrite E1, E2, E3, E4, Hz, Hv. reflexivity.
  - intros H. injection H as <-. exact Hg.
  - intros H. injection H as <-. unfold specialDown.
    destruct (arrow_entry key); exact Hg.
  - intros H. injection H as <-. unfold specialUp.
    destruct (arrow_entry key); exact Hg.
Qed.

(** X4. In every run from [init], for every sequence of keys, the player
    keeps size 20 and speed 5 and stands at x = 5 i, y = 5 j with
    20 <= x <= 780 and 20 <= y <= 580: the clamps of the move block keep it
    inside the window, its size away from every edge. *)
Theorem player_stays_in_window (rs : nat -> Z) (evs : list Event) (g : Game) :
  run evs (init rs) = Some g ->
  exists i j,
    4 <= i <= 156 /\ 4 <= j <= 116 /\
    Player.x (player g) = F32.of_Z (5 * i) /\
    Player.y (player g) = F32.of_Z (5 * j) /\
    Player.size (player g) = F32.of_Z 20 /\
    Player.speed (player g) = F32.of_Z 5.
Proof.
  intros H.
  destruct (run_invariant (fun g => on_grid (player g)) on_grid_step
              evs (init rs) g) as (i & j & Hi & Hj & Hp); [|exact H|].
  - exists 80, 10. split; [lia|]. split; [lia|]. reflexivity.
  - exists i, j. unfold position in Hp. injection Hp as -> -> -> ->.
    repeat split; lia.
Qed.

Lemma player_stays_in_window_witness :
  run [KeyDown " "%char 0 0; SpecialDown GLUT_KEY_LEFT 0 0; Tick 0]
    (init rs_zero)
  = Some (update 0 (specialDown GLUT_KEY_LEFT 0 0 (start rs_zero))) /\
  exists i j,
    4 <= i <= 156 /\ 4 <= j <= 116 /\
    Player.x (player (update 0 (specialDown GLUT_KEY_LEFT 0 0 (start rs_zero))))
    = F32.of_Z (5 * i) /\
    Player.y (player (update 0 (specialDown GLUT_KEY_LEFT 0 0 (start rs_zero))))
    = F32.of_Z (5 * j) /\
    Player.size
      (player (update 0 (specialDown GLUT_KEY_LEFT 0 0 (start rs_zero))))
    = F32.of_Z 20 /\
    Player.speed
      (player (update 0 (specialDown GLUT_KEY_LEFT 0 0 (start rs_zero))))
    = F32.of_Z 5.
Proof.
  assert (H : run [KeyDown " "%char 0 0; SpecialDown GLUT_KEY_LEFT 0 0; Tick 0]
                (init rs_zero)
              = Some (update 0 (specialDown GLUT_KEY_LEFT 0 0 (start rs_zero))))
    by reflexivity.
  split; [exact H|].
  exact (player_stays_in_window rs_zero _ _ H).
Defined.

(** *** Objects in flight *)

Lemma all_from_spec (P : Z -> bool) (lo : Z) (n : nat) :
  all_from P lo n = true ->
  forall k, lo <= k < lo + Z.of_nat n -> P k = true.
Proof.
  intros H k Hk.
  pose proof (all_below_spec _ n H (k - lo)) as Hb. cbv beta in Hb.
  replace (lo + (k - lo)) with k in Hb by lia. apply Hb. lia.
Qed.

(** A bullet leaves the player's nose on the grid. *)
Lemma nose_grid (j : Z) :
  4 <= j <= 116 ->
  (F32.of_Z (5 * j) + F32.of_Z 20)%f32 = F32.of_Z (5 * (j + 4)).
Proof.
  intros Hj. apply sf_eqb_eq.
  apply (all_from_spec
           (fun j => sf_eqb (F32.of_Z (5 * j) + F32.of_Z 20)%f32
                       (F32.of_Z (5 * (j + 4))))
           4 113); [vm_compute; reflexivity|lia].
Qed.

(** A bullet climbs on the grid and is past the top exactly from y = 605
    on. *)
Lemma climb_grid (j : Z) :
  8 <= j <= 120 ->
  (F32.of_Z (5 * j) + F32.of_Z 10)%f32 = F32.of_Z (5 * (j + 2)) /\
  (F32.of_Z HEIGHT <? F32.of_Z (5 * (j + 2)))%f32 = (120 <? j + 2).
Proof.
  intros Hj.
  assert (H : sf_eqb (F32.of_Z (5 * j) + F32.of_Z 10)%f32
                (F32.of_Z (5 * (j + 2)))
              && Bool.eqb (F32.of_Z HEIGHT <? F32.of_Z (5 * (j + 2)))%f32
                   (120 <? j + 2) = true).
  { apply (all_from_spec
             (fun j =>
                sf_eqb (F32.of_Z (5 * j) + F32.of_Z 10)%f32
                  (F32.of_Z (5 * (j + 2)))
                && Bool.eqb (F32.of_Z HEIGHT <? F32.of_Z (5 * (j + 2)))%f32
                     (120 <? j + 2))
             8 113); [vm_compute; reflexivity|lia]. }
  apply andb_prop in H as [H1 H2].
  split; [now apply sf_eqb_eq|now apply Bool.eqb_prop].
Qed.

(** An enemy falls by a whole number of halves and is below the bottom
    margin exactly from y = -30.5 on. *)
Lemma fall_halves (s m : Z) :
  3 <= s <= 11 -> -60 <= m <= 1200 ->
  (half_of m - half_of s)%f32 = half_of (m - s) /\
  (half_of (m - s) <? F32.of_Z (-30))%f32 = (m - s <? -60) /\
  (half_of (m - s) <? F32.of_Z (-20))%f32 = (m - s <? -40).
Proof.
  intros Hs Hm.
  assert (H : sf_eqb (half_of m - half_of s)%f32 (half_of (m - s))
              && Bool.eqb (half_of (m - s) <? F32.of_Z (-30))%f32
                   (m - s <? -60)
              && Bool.eqb (half_of (m - s) <? F32.of_Z (-20))%f32
                   (m - s <? -40) = true).
  { apply (all_from_spec
             (fun m =>
                sf_eqb (half_of m - half_of s)%f32 (half_of (m - s))
                && Bool.eqb (half_of (m - s) <? F32.of_Z (-30))%f32
                     (m - s <? -60)
                && Bool.eqb (half_of (m - s) <? F32.of_Z (-20))%f32
                     (m - s <? -40))
             (-60) 1261); [|lia].
    apply (all_from_spec
             (fun s =>
                all_from
                  (fun m =>
                     sf_eqb (half_of m - half_of s)%f32 (half_of (m - s))
                     && Bool.eqb (half_of (m - s) <? F32.of_Z (-30))%f32
                          (m - s <? -60)
                     && Bool.eqb (half_of (m - s) <? F32.of_Z (-20))%f32
                          (m - s <? -40))
                  (-60) 1261)
             3 9); [vm_compute; reflexivity|lia]. }
  apply andb_prop in H as [H H3]. apply andb_prop in H as [H1 H2].
  split; [now apply sf_eqb_eq|].
  split; now apply Bool.eqb_prop.
Qed.

(** The speed the spawner gives an enemy. *)
Lemma enemy_speed_halves (r l : Z) :
  0 <= r <= 2 -> 1 <= l <= 3 ->
  F64.to_f32
    (F64.add (F64.add (F64.of_Z 2) (F64.of_Z r))
       (F64.mul (F64.of_Z l) F64.half))
  = half_of (4 + 2 * r + l).
Proof.
  intros Hr Hl.
  assert (Hr' : r = 0 \/ r = 1 \/ r = 2) by lia.
  assert (Hl' : l = 1 \/ l = 2 \/ l = 3) by lia.
  destruct Hr' as [-> | [-> | ->]]; destruct Hl' as [-> | [-> | ->]];
    vm_compute; reflexivity.
Qed.

Lemma update_bullet_ok (b : Bullet.t) :
  bullet_ok b -> bullet_ok (update_bullet b).
Proof.
  intros H. unfold update_bullet. destruct (Bullet.active b) eqn:Ha; [|exact H].
  destruct (H Ha) as (i & j & Hi & Hj & Hx & Hy & Hs).
  destruct b as [x y speed active].
  cbn [Bullet.x Bullet.y Bullet.speed Bullet.active] in Hx, Hy, Hs, Ha. subst.
  cbn [Bullet.y Bullet.set_y Bullet.speed Bullet.x Bullet.active].
  destruct (climb_grid j Hj) as [E1 E2]. rewrite E1, E2.
  destruct (Z.ltb_spec 120 (j + 2)); intros Hact; [discriminate|].
  exists i, (j + 2). repeat split; try lia; reflexivity.
Qed.

Lemma hit_enemy_ok (b : Bullet.t) (e : Enemy.t) (p : Player.t) (t : F32.t) :
  bullet_ok b -> enemy_ok e ->
  bullet_ok (fst (fst (fst (hit_enemy b e p t)))) /\
  enemy_ok (snd (fst (fst (hit_enemy b e p t)))).
Proof.
  intros Hb He.
  destruct (hit_enemy_cases b e p t) as [[_ E]|[(_ & _ & E)|(_ & _ & E)]];
    rewrite E; cbn [fst snd]; try (split; assumption).
  split; intros H; discriminate.
Qed.

Lemma scan_enemies_ok (es : list Enemy.t) :
  forall b p t b' es' p' t',
    scan_enemies b es p t = (b', es', p', t') ->
    bullet_ok b -> Forall enemy_ok es ->
    bullet_ok b' /\ Forall enemy_ok es'.
Proof.
  induction es as [|e es IH]; intros b p t b' es' p' t'; cbn [scan_enemies].
  - intros H Hb _. injection H as <- <- _ _. now split.
  - destruct (hit_enemy b e p t) as [[[b1 e1] p1] t1] eqn:Hh.
    destruct (scan_enemies b1 es p1 t1) as [[[b2 es2] p2] t2] eqn:Hs.
    intros H Hb Hes. injection H as <- <- _ _.
    inversion Hes as [|? ? He Hes']; subst.
    pose proof (hit_enemy_ok b e p t Hb He) as [H1 H2].
    rewrite Hh in H1, H2. cbn [fst snd] in H1, H2.
    destruct (IH _ _ _ _ _ _ _ Hs H1 Hes') as [H3 H4].
    split; [exact H3|]. now constructor.
Qed.

Lemma scan_bullets_ok (bs : list Bullet.t) :
  forall es p t bs' es' p' t',
    scan_bullets bs es p t = (bs', es', p', t') ->
    Forall bullet_ok bs -> Forall enemy_ok es ->
    Forall bullet_ok bs' /\ Forall enemy_ok es'.
Proof.
  induction bs as [|b bs IH]; intros es p t bs' es' p' t'; cbn [scan_bullets].
  - intros H _ He. injection H as <- <- _ _. now split.
  - destruct (if Bullet.active b then scan_enemies b es p t else (b, es, p, t))
      as [[[b1 es1] p1] t1] eqn:Hh.
    destruct (scan_bullets bs es1 p1 t1) as [[[bs2 es2] p2] t2] eqn:Hs.
    intros H Hbs Hes. injection H as <- <- _ _.
    inversion Hbs as [|? ? Hb Hbs']; subst.
    assert (H1 : bullet_ok b1 /\ Forall enemy_ok es1).
    { destruct (Bullet.active b).
      - exact (scan_enemies_ok _ _ _ _ _ _ _ _ Hh Hb Hes).
      - injection Hh as <- <- _ _. now split. }
    destruct H1 as [H1 H2].
    destruct (IH _ _ _ _ _ _ _ Hs Hbs' H2) as [H3 H4].
    split; [now constructor|exact H4].
Qed.

Lemma update_enemy_ok (e : Enemy.t) (p : Player.t) (st : GameState) :
  enemy_ok e -> enemy_ok (fst (fst (update_enemy e p st))).
Proof.
  intros H. unfold update_enemy.
  destruct (Enemy.active e) eqn:Ha; [|exact H].
  destruct (H Ha) as (n & m & s & Hn & Hm & Hs & Hx & Hy & Hv & Ht).
  destruct e as [x y speed active type].
  cbn [Enemy.x Enemy.y Enemy.speed Enemy.active Enemy.type]
    in Hx, Hy, Hv, Ht, Ha.
  subst.
  cbn [Enemy.y Enemy.set_y Enemy.speed Enemy.x Enemy.active].
  destruct (fall_halves s m) as (E1 & E2 & _); [lia|lia|]. rewrite E1, E2.
  destruct (Z.ltb_spec (m - s) (-60));
    cbn [Enemy.y Enemy.set_y Enemy.speed Enemy.x Enemy.active
         Enemy.set_active];
    destruct (F32.ltb (distance _ _) _); cbn [fst snd];
    intros Hact; try discriminate.
  exists n, (m - s), s.
  cbn [Enemy.x Enemy.y Enemy.speed Enemy.type Enemy.set_y].
  repeat split; try lia; reflexivity.
Qed.

Lemma update_enemies_ok (es : list Enemy.t) :
  forall p st es' p' st',
    update_enemies es p st = (es', p', st') ->
    Forall enemy_ok es -> Forall enemy_ok es'.
Proof.
  induction es as [|e es IH]; intros p st es' p' st'; cbn [update_enemies].
  - intros H _. injection H as <- _ _. constructor.
  - destruct (update_enemy e p st) as [[e1 p1] st1] eqn:He.
    destruct (update_enemies es p1 st1) as [[es2 p2] st2] eqn:Hs.
    intros H Hes. injection H as <- _ _.
    inversion Hes as [|? ? H1 H2]; subst.
    constructor; [|exact (IH _ _ _ _ _ Hs H2)].
    pose proof (update_enemy_ok e p st H1) as H3. now rewrite He in H3.
Qed.

Lemma update_powerUp_ok (u : PowerUp.t) (p : Player.t) :
  powerUp_ok u -> powerUp_ok (fst (update_powerUp u p)).
Proof.
  intros H. unfold update_powerUp.
  destruct (PowerUp.active u) eqn:Ha; [|exact H].
  destruct (H Ha) as (n & m & Hn & Hm & Hx & Hy & Hv).
  destruct u as [x y speed active].
  cbn [PowerUp.x PowerUp.y PowerUp.speed PowerUp.active] in Hx, Hy, Hv, Ha.
  subst.
  cbn [PowerUp.y PowerUp.set_y PowerUp.speed PowerUp.x PowerUp.active].
  destruct (fall_halves 3 m) as (E1 & _ & E2); [lia|lia|]. rewrite E1, E2.
  destruct (Z.ltb_spec (m - 3) (-40));
    cbn [PowerUp.y PowerUp.set_y PowerUp.speed PowerUp.x PowerUp.active
         PowerUp.set_active];
    destruct (F32.ltb (distance _ _) _); cbn [fst snd];
    intros Hact; try discriminate.
  exists n, (m - 3). repeat split; try lia; reflexivity.
Qed.

Lemma update_powerUps_ok (us : list PowerUp.t) :
  forall p us' p',
    update_powerUps us p = (us', p') ->
    Forall powerUp_ok us -> Forall powerUp_ok us'.
Proof.
  induction us as [|u us IH]; intros p us' p'; cbn [update_powerUps].
  - intros H _. injection H as <- _. constructor.
  - destruct (update_powerUp u p) as [u1 p1] eqn:Hu.
    destruct (update_powerUps us p1) as [us2 p2] eqn:Hs.
    intros H Hus. injection H as <- _.
    inversion Hus as [|? ? H1 H2]; subst.
    constructor; [|exact (IH _ _ _ Hs H2)].
    pose proof (update_powerUp_ok u p H1) as H3. now rewrite Hu in H3.
Qed.

Lemma erase_remove_if_Forall {A : Type} (P : A -> Prop) (pred : A -> bool)
  (v : list A) :
  Forall P v -> Forall P (erase_remove_if pred v).
Proof.
  induction 1 as [|a v Ha Hv IH]; cbn [erase_remove_if]; [constructor|].
  destruct (pred a); [exact IH|now constructor].
Qed.

Lemma sky_ok_clock (g : Game) : sky_ok g -> sky_ok (clock g).
Proof.
  intros (Hf & Hr & Hl).
  assert (E : flight (clock g) = flight g /\ randoms (clock g) = randoms g)
    by (unfold clock, player_penalty, level_management; split; frame).
  destruct E as [E1 E2]. unfold sky_ok, rand_ok. rewrite E1, E2.
  split; [exact Hf|]. split; [exact Hr|].
  pose proof (difficulty_clock g) as H. rewrite difficulty_level_block in H.
  unfold difficulty in H.
  destruct (level_due g); [destruct (Z.ltb_spec (currentLevel g) 3)|];
    injection H as -> _ _; try lia.
  rewrite int_add_exact by (apply in_range_small; lia). lia.
Qed.

Lemma sky_ok_moved (p : Player.t) (g : Game) :
  sky_ok g ->
  sky_ok (set_bullets (map update_bullet (bullets (set_player p g)))
            (set_player p g)).
Proof.
  intros ((Hb & He & Hu) & Hr & Hl).
  split; [|split; [exact Hr|exact Hl]].
  split; [|split; [exact He|exact Hu]].
  cbn [bullets set_bullets set_player]. apply Forall_map.
  eapply Forall_impl; [|exact Hb]. apply update_bullet_ok.
Qed.

Lemma sky_ok_spawn_enemy (g : Game) : sky_ok g -> sky_ok (spawn_enemy g).
Proof.
  intros ((Hb & He & Hu) & Hr & Hl). unfold spawn_enemy, rand.
  destruct (F32.ltb _ _); [|now repeat split].
  split; [|split; [intros n; apply Hr|exact Hl]].
  split; [exact Hb|]. split; [|exact Hu].
  cbn [enemies set_enemies set_enemySpawnTimer set_randoms randoms
       currentLevel].
  apply Forall_app. split; [exact He|]. constructor; [|constructor].
  intros _. cbn [Enemy.x Enemy.y Enemy.speed Enemy.type].
  pose proof (Z.rem_bound_pos (randoms g 0%nat) (WIDTH - 40) (Hr _)) as B0.
  pose proof (Z.rem_bound_pos (randoms g 1%nat) 20 (Hr _)) as B1.
  pose proof (Z.rem_bound_pos (randoms g 2%nat) 3 (Hr _)) as B2.
  pose proof (Z.rem_bound_pos (randoms g 3%nat) 4 (Hr _)) as B3.
  unfold WIDTH in *.
  exists (Z.rem (randoms g 0%nat) (800 - 40) + Z.rem (randoms g 1%nat) 20),
    1200, (4 + 2 * Z.rem (randoms g 2%nat) 3 + currentLevel g).
  split; [lia|]. split; [lia|]. split; [lia|].
  split; [f_equal; apply int_add_exact, in_range_small; lia|].
  split; [vm_compute; reflexivity|].
  split; [apply enemy_speed_halves; lia|lia].
Qed.

Lemma sky_ok_collide_enemies (g : Game) :
  sky_ok g -> sky_ok (collide_enemies g).
Proof.
  intros ((Hb & He & Hu) & Hr & Hl). unfold collide_enemies.
  destruct (update_enemies _ _ _) as [[es p] st] eqn:H.
  split; [|split; [exact Hr|exact Hl]].
  split; [exact Hb|]. split; [|exact Hu].
  exact (update_enemies_ok _ _ _ _ _ _ H He).
Qed.

Lemma sky_ok_collide_bullets (g : Game) :
  sky_ok g -> sky_ok (collide_bullets g).
Proof.
  intros ((Hb & He & Hu) & Hr & Hl). unfold collide_bullets.
  destruct (scan_bullets _ _ _ _) as [[[bs es] p] t] eqn:H.
  destruct (scan_bullets_ok _ _ _ _ _ _ _ _ H Hb He) as [H1 H2].
  split; [|split; [exact Hr|exact Hl]].
  split; [exact H1|]. split; [exact H2|exact Hu].
Qed.

Lemma sky_ok_spawn_powerUp (g : Game) : sky_ok g -> sky_ok (spawn_powerUp g).
Proof.
  intros ((Hb & He & Hu) & Hr & Hl). unfold spawn_powerUp, rand.
  destruct (F32.ltb _ _); [|now repeat split].
  split; [|split; [intros n; apply Hr|exact Hl]].
  split; [exact Hb|]. split; [exact He|].
  cbn [powerUps set_powerUps set_powerUpTimer set_randoms randoms].
  apply Forall_app. split; [exact Hu|]. constructor; [|constructor].
  intros _. cbn [PowerUp.x PowerUp.y PowerUp.speed].
  pose proof (Z.rem_bound_pos (randoms g 0%nat) (WIDTH - 40) (Hr _)) as B0.
  unfold WIDTH in *.
  exists (Z.rem (randoms g 0%nat) (800 - 40) + 20), 1200.
  split; [lia|]. split; [lia|].
  split; [f_equal; apply int_add_exact, in_range_small; lia|].
  split; vm_compute; reflexivity.
Qed.

Lemma sky_ok_collide_powerUps (g : Game) :
  sky_ok g -> sky_ok (collide_powerUps g).
Proof.
  intros ((Hb & He & Hu) & Hr & Hl). unfold collide_powerUps.
  destruct (update_powerUps _ _) as [us p] eqn:H.
  split; [|split; [exact Hr|exact Hl]].
  split; [exact Hb|]. split; [exact He|].
  exact (update_powerUps_ok _ _ _ _ H Hu).
Qed.

Lemma sky_ok_cleanup (g : Game) : sky_ok g -> sky_ok (cleanup g).
Proof.
  intros ((Hb & He & Hu) & Hr & Hl).
  split; [|split; [exact Hr|exact Hl]].
  split; [|split]; now apply erase_remove_if_Forall.
Qed.

Lemma sky_ok_update (v : Z) (g : Game) : sky_ok g -> sky_ok (update v g).
Proof.
  intros H. unfold update. destruct (gameState g); try exact H.
  rewrite simulate_clock.
  apply sky_ok_cleanup, sky_ok_collide_powerUps, sky_ok_spawn_powerUp,
    sky_ok_collide_bullets, sky_ok_collide_enemies, sky_ok_spawn_enemy,
    sky_ok_moved, sky_ok_clock, H.
Qed.

Lemma sky_ok_step (ev : Event) (g g' : Game) :
  sky_ok g /\ on_grid (player g) -> step ev g = Some g' ->
  sky_ok g' /\ on_grid (player g').
Proof.
  intros [Hs Hg] H. split; [|exact (on_grid_step ev g g' Hg H)].
  destruct ev as [v|key x y|key x y|key x y|key x y]; cbn [step] in H.
  - injection H as <-. now apply sky_ok_update.
  - destruct (keyboardDown_cases key x y g g' H) as [E|[[_ E]|(Hn & _ & E)]].
    + subst g'. exact Hs.
    + subst g'. destruct Hs as ((Hb & He & Hu) & Hr & Hl).
      split; [|split; [exact Hr|exact Hl]].
      split; [|split; [exact He|exact Hu]].
      cbn [bullets set_bullets set_keys].
      apply Forall_app. split; [exact Hb|]. constructor; [|constructor].
      intros _. destruct Hg as (i & j & Hi & Hj & Hp).
      pose proof (f_equal (fun t => fst (fst (fst t))) Hp) as Hx.
      pose proof (f_equal (fun t => snd (fst (fst t))) Hp) as Hy.
      pose proof (f_equal (fun t => snd (fst t)) Hp) as Hz.
      unfold position in Hx, Hy, Hz. cbn [fst snd] in Hx, Hy, Hz.
      exists i, (j + 4). cbn [Bullet.x Bullet.y Bullet.speed].
      rewrite Hx, Hy, Hz, nose_grid by exact Hj.
      repeat split; lia.
    + destruct (restart_view x y g g' Hn E)
        as (_ & _ & (E1 & E2 & E3) & E4 & _).
      destruct Hs as (_ & Hr & _).
      split; [unfold flight; rewrite E1, E2, E3; repeat split; constructor|].
      split; [|lia].
      unfold keyboardDown in E.
      change (Ascii.eqb " "%char ESC) with false in E.
      change (Ascii.eqb " "%char " "%char) with true in E. cbv iota in E.
      change (gameState (set_keys ?k g)) with (gameState g) in E.
      destruct (gameState g); try congruence; injection E as <-; exact Hr.
  - injection H as <-. exact Hs.
  - injection H as <-. unfold specialDown.
    destruct (arrow_entry key); exact Hs.
  - injection H as <-. unfold specialUp.
    destruct (arrow_entry key); exact Hs.
Qed.

(** X5. In every run from [init] in which [rand()] returns no negative
    number, every object in the collections is active and within bounds:
    a bullet is on the player's grid with 20 <= x <= 780 and
    40 <= y <= 600 and climbs by 10; an enemy has a whole x in 0..778,
    -30 <= y <= 600 in halves, a speed of 2.5 to 5.5 and a type in 0..3; a
    power-up has a whole x in 20..779, -20 <= y <= 600 in halves and speed
    1.5.  Whatever leaves these bounds is deactivated and removed in the
    same frame. *)
Theorem objects_stay_in_bounds (rs : nat -> Z) (evs : list Event) (g : Game) :
  (forall n, 0 <= rs n) -> run evs (init rs) = Some g ->
  (forall b, In b (bullets g) ->
     Bullet.active b = true /\
     exists i j,
       4 <= i <= 156 /\ 8 <= j <= 120 /\
       Bullet.x b = F32.of_Z (5 * i) /\ Bullet.y b = F32.of_Z (5 * j) /\
       Bullet.speed b = F32.of_Z 10) /\
  (forall e, In e (enemies g) ->
     Enemy.active e = true /\
     exists n m s,
       0 <= n <= 778 /\ -60 <= m <= 1200 /\ 5 <= s <= 11 /\
       Enemy.x e = F32.of_Z n /\ Enemy.y e = half_of m /\
       Enemy.speed e = half_of s /\ 0 <= Enemy.type e <= 3) /\
  (forall u, In u (powerUps g) ->
     PowerUp.active u = true /\
     exists n m,
       20 <= n <= 779 /\ -40 <= m <= 1200 /\
       PowerUp.x u = F32.of_Z n /\ PowerUp.y u = half_of m /\
       PowerUp.speed u = half_of 3).
Proof.
  intros Hrs H.
  assert (Ha : all_active g).
  { apply (all_active_run evs (init rs) g); [|exact H].
    repeat split; constructor. }
  destruct (run_invariant (fun g => sky_ok g /\ on_grid (player g))
              sky_ok_step evs (init rs) g) as [((Hb & He & Hu) & _) _];
    [|exact H|].
  { split.
    - split; [repeat split; constructor|]. split; [exact Hrs|cbn; lia].
    - exists 80, 10. split; [lia|]. split; [lia|]. reflexivity. }
  destruct Ha as (Ab & Ae & Au).
  rewrite Forall_forall in Hb, He, Hu, Ab, Ae, Au.
  split; [|split].
  - intros b Hin. split; [exact (Ab b Hin)|exact (Hb b Hin (Ab b Hin))].
  - intros e Hin. split; [exact (Ae e Hin)|exact (He e Hin (Ae e Hin))].
  - intros u Hin. split; [exact (Au u Hin)|exact (Hu u Hin (Au u Hin))].
Qed.

Lemma objects_stay_in_bounds_witness :
  ((forall n, 0 <= rs_zero n) /\
   run [KeyDown " "%char 0 0; KeyDown " "%char 0 0; Tick 0] (init rs_zero)
   = Some (update 0 (press_space (start rs_zero)))) /\
  forall b, In b (bullets (update 0 (press_space (start rs_zero)))) ->
    Bullet.active b = true /\
    exists i j,
      4 <= i <= 156 /\ 8 <= j <= 120 /\
      Bullet.x b = F32.of_Z (5 * i) /\ Bullet.y b = F32.of_Z (5 * j) /\
      Bullet.speed b = F32.of_Z 10.
Proof.
  assert (H1 : forall n, 0 <= rs_zero n) by (intros n; apply Z.le_refl).
  assert (H2 : run [KeyDown " "%char 0 0; KeyDown " "%char 0 0; Tick 0]
                 (init rs_zero)
               = Some (update 0 (press_space (start rs_zero)))).
  { cbn [run step]. rewrite init_start. cbn [run step].
    rewrite space_never_exits. reflexivity. }
  split; [now split|].
  exact (proj1 (objects_stay_in_bounds rs_zero _ _ H1 H2)).
Defined.

(** *** Score *)



















(** *** Keys *)

(** X7. Pressing the space bar while playing appends exactly one active
    bullet, at the player's x, at the player's y plus its size, with speed
    10, and changes nothing else but the key table.  Any key other than the
    space bar and ESC changes the key table only, in every game state; ESC
    ends the program in every game state. *)
Theorem key_effects :
  (forall (x y : Z) (g g' : Game),
      gameState g = PLAYING -> keyboardDown " "%char x y g = Some g' ->
      bullets g' =
      bullets g ++
      [Bullet.mk (Player.x (player g))
         (Player.y (player g) + Player.size (player g))%f32
         (F32.of_Z 10) true] /\
      (gameState g', player g', enemies g', powerUps g')
      = (gameState g, player g, enemies g, powerUps g) /\
      (difficulty g', pace g', lastHitTimer g', randoms g')
      = (difficulty g, pace g, lastHitTimer g, randoms g)) /\
  (forall (key : ascii) (x y : Z) (g g' : Game),
      key <> " "%char -> keyboardDown key x y g = Some g' ->
      g' = set_keys (fun c => if Ascii.eqb c key then true else keys g c) g) /\
  (forall (x y : Z) (g : Game), keyboardDown ESC x y g = None).
Proof.
  split; [|split].
  - intros x y g g' Hs H.
    destruct (keyboardDown_cases " "%char x y g g' H)
      as [E|[[_ E]|(Hn & _)]]; [|subst g'; repeat split|congruence].
    exfalso. rewrite space_never_exits in H. injection H as H.
    apply (f_equal (fun h => length (bullets h))) in H.
    apply (f_equal (fun h => length (bullets h))) in E.
    rewrite <- H in E. unfold press_space, keyboardDown in E.
    change (Ascii.eqb " "%char ESC) with false in E.
    change (Ascii.eqb " "%char " "%char) with true in E. cbv iota in E.
    change (gameState (set_keys ?k g)) with (gameState g) in E.
    rewrite Hs in E. cbn [bullets set_bullets set_keys] in E.
    rewrite length_app in E. cbn [length] in E. lia.
  - intros key x y g g' Hk H.
    destruct (keyboardDown_cases key x y g g' H)
      as [E|[[Hs E]|(_ & E & _)]]; [exact E| |congruence].
    exfalso. unfold keyboardDown in H.
    destruct (Ascii.eqb key ESC); [discriminate|].
    destruct (Ascii.eqb key " "%char) eqn:Hsp;
      [apply Ascii.eqb_eq in Hsp; congruence|].
    injection H as H. rewrite <- H in E.
    apply (f_equal (fun h => length (bullets h))) in E.
    cbn [bullets set_bullets set_keys] in E.
    rewrite length_app in E. cbn [length] in E. lia.
  - intros x y g. reflexivity.
Qed.

Lemma keyboardDown_letter (key : ascii) (x y : Z) (g : Game) :
  Ascii.eqb key ESC = false -> Ascii.eqb key " "%char = false ->
  keyboardDown key x y g
  = Some (set_keys (fun c => if Ascii.eqb c key then true else keys g c) g).
Proof. intros H1 H2. unfold keyboardDown. now rewrite H1, H2. Qed.

Lemma arrow_entry_letter (key : Z) (a : ascii) :
  arrow_entry key = Some a ->
  Ascii.eqb a ESC = false /\ Ascii.eqb a " "%char = false.
Proof.
  unfold arrow_entry. split_ifs; intros H; try discriminate;
    injection H as <-; split; reflexivity.
Qed.

(** X8. The arrow keys are the letters a, d, w and s: a run in which every
    arrow event is replaced by the event of its letter, and the events of
    the other special keys are dropped, ends in the same state. *)
Theorem arrows_are_letters (evs : list Event) (g : Game) :
  run (as_letters evs) g = run evs g.
Proof.
  revert g. induction evs as [|ev evs IH]; intros g; [reflexivity|].
  unfold as_letters. cbn [flat_map]. fold (as_letters evs).
  destruct ev as [v|key x y|key x y|key x y|key x y]; cbn [as_letter].
  - cbn [app run step]. apply IH.
  - cbn [app run step]. destruct (keyboardDown key x y g); [apply IH|].
    reflexivity.
  - cbn [app run step]. apply IH.
  - cbn [run step]. unfold specialDown.
    destruct (arrow_entry key) as [a|] eqn:Ha; cbn [app]; [|apply IH].
    destruct (arrow_entry_letter _ _ Ha) as [H1 H2].
    cbn [run step]. rewrite (keyboardDown_letter _ _ _ _ H1 H2). apply IH.
  - cbn [run step]. unfold specialUp.
    destruct (arrow_entry key) as [a|] eqn:Ha; cbn [app]; [|apply IH].
    cbn [run step]. unfold keyboardUp. apply IH.
Qed.

Lemma board_set_keys (k : ascii -> bool) (g : Game) :
  board (set_keys k g) = board g.
Proof. reflexivity. Qed.

Lemma board_step (ev : Event) (g g' : Game) :
  gameState g <> PLAYING -> no_space [ev] = true -> step ev g = Some g' ->
  board g' = board g.
Proof.
  intros Hs Hn. destruct ev as [v|key x y|key x y|key x y|key x y]; cbn [step].
  - intros H. injection H as <-. now rewrite update_not_playing.
  - cbn [no_space] in Hn. rewrite andb_true_r in Hn.
    apply negb_true_iff in Hn. intros H.
    destruct (keyboardDown_cases key x y g g' H)
      as [E|[[Hp _]|(_ & E & _)]]; [| |subst key; discriminate Hn].
    + subst g'. apply board_set_keys.
    + congruence.
  - intros H. injection H as <-. apply board_set_keys.
  - intros H. injection H as <-. unfold specialDown.
    destruct (arrow_entry key); [apply board_set_keys|reflexivity].
  - intros H. injection H as <-. unfold specialUp.
    destruct (arrow_entry key); [apply board_set_keys|reflexivity].
Qed.

(** X9. On the menu and on the game-over screen the game stands still: a run
    in which the space bar is not pressed changes nothing but the key
    table, however many frames pass. *)
Theorem idle_until_space (evs : list Event) (g g' : Game) :
  gameState g <> PLAYING -> no_space evs = true -> run evs g = Some g' ->
  board g' = board g.
Proof.
  revert g. induction evs as [|ev evs IH]; intros g Hs Hn; cbn [run].
  - intros H. now injection H as <-.
  - destruct (step ev g) as [g1|] eqn:Hstep; [|discriminate]. intros H.
    assert (Hev : no_space [ev] = true /\ no_space evs = true).
    { destruct ev; cbn [no_space] in *; auto.
      apply andb_true_iff in Hn as [-> ->]. auto. }
    destruct Hev as [Hev Hevs].
    pose proof (board_step ev g g1 Hs Hev Hstep) as E.
    rewrite <- E. apply IH; [|exact Hevs|exact H].
    apply (f_equal (fun b => fst (fst (fst (fst (fst (fst b))))))) in E.
    unfold board in E. cbn [fst] in E. congruence.
Qed.

Lemma idle_until_space_witness :
  (gameState (init rs_zero) <> PLAYING /\
   no_space [Tick 0; SpecialDown 100 0 0; Tick 0] = true /\
   run [Tick 0; SpecialDown 100 0 0; Tick 0] (init rs_zero)
   = Some (specialDown 100 0 0 (init rs_zero))) /\
  board (specialDown 100 0 0 (init rs_zero)) = board (init rs_zero).
Proof.
  assert (H1 : gameState (init rs_zero) <> PLAYING) by discriminate.
  assert (H2 : no_space [Tick 0; SpecialDown 100 0 0; Tick 0] = true)
    by reflexivity.
  assert (H3 : run [Tick 0; SpecialDown 100 0 0; Tick 0] (init rs_zero)
               = Some (specialDown 100 0 0 (init rs_zero))).
  { cbn [run step]. rewrite update_not_playing by discriminate.
    rewrite update_not_playing by discriminate. reflexivity. }
  split; [auto|].
  exact (idle_until_space _ _ _ H1 H2 H3).
Defined.

(** *** The line *)

Ltac int_range :=
  unfold Int.in_range, Int.INT_MIN, Int.INT_MAX; lia.

Lemma int_neg_exact (a : Z) : Int.in_range (- a) -> int_neg a = - a.
Proof. apply wrap_in_range. Qed.

Lemma int_abs_exact (a : Z) :
  - 2 ^ 31 < a < 2 ^ 31 -> int_abs a = Z.abs a.
Proof.
  intros H. unfold int_abs. destruct (Z.ltb_spec a 0).
  - rewrite int_neg_exact by int_range. lia.
  - lia.
Qed.

Lemma connected_cons (p q : Z * Z) (pts : list (Z * Z)) :
  hd_error pts = Some q -> neighbours p q -> connected pts ->
  connected (p :: pts).
Proof.
  destruct pts as [|q' pts]; [discriminate|]. cbn [hd_error].
  intros H. injection H as ->. now split.
Qed.

(** The loop on a line at least as wide as it is tall: x moves in every
    iteration. *)
Lemma bresenham_loop_wide (dx dy sx sy x2 y2 : Z) :
  0 <= dy <= dx -> dx <= 2 ^ 28 ->
  sx = 1 \/ sx = -1 -> sy = 1 \/ sy = -1 ->
  - 2 ^ 27 <= x2 <= 2 ^ 27 -> - 2 ^ 27 <= y2 <= 2 ^ 27 ->
  forall (n fuel : nat) (x1 y1 err rb : Z),
    (n < fuel)%nat ->
    x2 - x1 = sx * Z.of_nat n -> y2 - y1 = sy * rb ->
    Z.of_nat n <= dx -> 0 <= rb <= dy ->
    err = dx - dy + Z.of_nat n * dy - rb * dx ->
    0 < 2 * err + dy ->
    - dx < 2 * (rb * dx - Z.of_nat n * dy) <= dx ->
    exists pre,
      bresenham_loop fuel dx dy sx sy x2 y2 x1 y1 err
      = Some (pre ++ [(x2, y2)]) /\
      length pre = n /\
      hd_error (pre ++ [(x2, y2)]) = Some (x1, y1) /\
      connected (pre ++ [(x2, y2)]) /\
      Forall (remaining dx dy sx sy x2 y2) (pre ++ [(x2, y2)]).
Proof.
  intros Hd Hdx Hsx Hsy Hx2 Hy2.
  induction n as [|n IH]; intros fuel x1 y1 err rb Hf Hx Hy Hn Hrb He Ht Hu;
    (destruct fuel as [|fuel]; [lia|]); cbn [bresenham_loop].
  - assert (rb = 0).
    { destruct (Z.eq_dec rb 0) as [|Hne]; [assumption|exfalso].
      assert (dx <= rb * dx) by nia. cbn [Z.of_nat] in *. lia. }
    subst rb. assert (x1 = x2) by (cbn [Z.of_nat] in Hx; lia).
    assert (y1 = y2) by lia. subst x1 y1.
    rewrite !Z.eqb_refl. cbn [andb]. exists []. cbn [app length hd_error].
    repeat split; try reflexivity; try exact I.
    constructor; [|constructor]. exists 0, 0. cbn [fst snd]. lia.
  - rewrite Nat2Z.inj_succ in *.
    assert (Hq : dy <= Z.succ (Z.of_nat n) * dy) by nia.
    assert (Hp : rb * dx = 0 \/ 1 <= rb) by nia.
    assert (Hne : (x1 =? x2) = false) by (apply Z.eqb_neq; lia).
    rewrite Hne. cbn [andb].
    rewrite int_mul_exact by int_range.
    rewrite int_neg_exact by int_range.
    assert (Hgt : (2 * err >? - dy) = true) by (apply Z.gtb_lt; lia).
    rewrite Hgt.
    rewrite (int_sub_exact err dy) by int_range.
    rewrite (int_add_exact x1 sx) by int_range.
    assert (Hrem : remaining dx dy sx sy x2 y2 (x1, y1)).
    { exists (Z.succ (Z.of_nat n)), rb. cbn [fst snd].
      repeat split; try lia. }
    destruct (Z.ltb_spec (2 * err) dx) as [Hlt|Hge].
    + rewrite (int_add_exact (err - dy) dx) by int_range.
      rewrite (int_add_exact y1 sy) by int_range.
      assert (Hrb1 : 1 <= rb) by lia.
      destruct (IH fuel (x1 + sx) (y1 + sy) (err - dy + dx) (rb - 1))
        as (pre & E & Hl & Hh & Hc & Ha); try lia.
      exists ((x1, y1) :: pre). rewrite E. cbn [option_map app length].
      repeat split; [now rewrite Hl| |now constructor].
      apply (connected_cons _ _ _ Hh); [|exact Hc].
      unfold neighbours. cbn [fst snd].
      repeat split; [lia|lia|intros Heq; injection Heq; lia].
    + destruct (IH fuel (x1 + sx) y1 (err - dy) rb)
        as (pre & E & Hl & Hh & Hc & Ha); try lia.
      exists ((x1, y1) :: pre). rewrite E. cbn [option_map app length].
      repeat split; [now rewrite Hl| |now constructor].
      apply (connected_cons _ _ _ Hh); [|exact Hc].
      unfold neighbours. cbn [fst snd].
      repeat split; [lia|lia|intros Heq; injection Heq; lia].
Qed.

(** The loop on a line taller than it is wide: y moves in every
    iteration. *)
Lemma bresenham_loop_tall (dx dy sx sy x2 y2 : Z) :
  0 <= dx < dy -> dy <= 2 ^ 28 ->
  sx = 1 \/ sx = -1 -> sy = 1 \/ sy = -1 ->
  - 2 ^ 27 <= x2 <= 2 ^ 27 -> - 2 ^ 27 <= y2 <= 2 ^ 27 ->
  forall (n fuel : nat) (x1 y1 err ra : Z),
    (n < fuel)%nat ->
    x2 - x1 = sx * ra -> y2 - y1 = sy * Z.of_nat n ->
    0 <= ra <= dx -> Z.of_nat n <= dy ->
    err = dx - dy + ra * dy - Z.of_nat n * dx ->
    - dy <= 2 * (Z.of_nat n * dx - ra * dy) < dy ->
    exists pre,
      bresenham_loop fuel dx dy sx sy x2 y2 x1 y1 err
      = Some (pre ++ [(x2, y2)]) /\
      length pre = n /\
      hd_error (pre ++ [(x2, y2)]) = Some (x1, y1) /\
      connected (pre ++ [(x2, y2)]) /\
      Forall (remaining dx dy sx sy x2 y2) (pre ++ [(x2, y2)]).
Proof.
  intros Hd Hdy Hsx Hsy Hx2 Hy2.
  induction n as [|n IH]; intros fuel x1 y1 err ra Hf Hx Hy Hra Hn He Hu;
    (destruct fuel as [|fuel]; [lia|]); cbn [bresenham_loop].
  - assert (ra = 0).
    { destruct (Z.eq_dec ra 0) as [|Hne]; [assumption|exfalso].
      assert (dy <= ra * dy) by nia. cbn [Z.of_nat] in *. lia. }
    subst ra. assert (y1 = y2) by (cbn [Z.of_nat] in Hy; lia).
    assert (x1 = x2) by lia. subst x1 y1.
    rewrite !Z.eqb_refl. cbn [andb]. exists []. cbn [app length hd_error].
    repeat split; try reflexivity; try exact I.
    constructor; [|constructor]. exists 0, 0. cbn [fst snd]. lia.
  - rewrite Nat2Z.inj_succ in *.
    assert (Hq : dx <= Z.succ (Z.of_nat n) * dx) by nia.
    assert (Hp : ra * dy = 0 \/ 1 <= ra) by nia.
    assert (Hne : (y1 =? y2) = false) by (apply Z.eqb_neq; lia).
    rewrite Hne, andb_false_r.
    rewrite int_mul_exact by int_range.
    rewrite int_neg_exact by int_range.
    assert (Hlt : (2 * err <? dx) = true) by (apply Z.ltb_lt; lia).
    rewrite Hlt.
    assert (Hrem : remaining dx dy sx sy x2 y2 (x1, y1)).
    { exists ra, (Z.succ (Z.of_nat n)). cbn [fst snd].
      repeat split; try lia. }
    destruct (2 * err >? - dy) eqn:Hgt.
    + apply Z.gtb_lt in Hgt.
      rewrite (int_sub_exact err dy) by int_range.
      rewrite (int_add_exact x1 sx) by int_range.
      rewrite (int_add_exact (err - dy) dx) by int_range.
      rewrite (int_add_exact y1 sy) by int_range.
      assert (Hra1 : 1 <= ra) by lia.
      destruct (IH fuel (x1 + sx) (y1 + sy) (err - dy + dx) (ra - 1))
        as (pre & E & Hl & Hh & Hc & Ha); try lia.
      exists ((x1, y1) :: pre). rewrite E. cbn [option_map app length].
      repeat split; [now rewrite Hl| |now constructor].
      apply (connected_cons _ _ _ Hh); [|exact Hc].
      unfold neighbours. cbn [fst snd].
      repeat split; [lia|lia|intros Heq; injection Heq; lia].
    + assert (Hle : 2 * err <= - dy).
      { rewrite Z.gtb_ltb in Hgt. apply Z.ltb_ge in Hgt. exact Hgt. }
      rewrite (int_add_exact err dx) by int_range.
      rewrite (int_add_exact y1 sy) by int_range.
      destruct (IH fuel x1 (y1 + sy) (err + dx) ra)
        as (pre & E & Hl & Hh & Hc & Ha); try lia.
      exists ((x1, y1) :: pre). rewrite E. cbn [option_map app length].
      repeat split; [now rewrite Hl| |now constructor].
      apply (connected_cons _ _ _ Hh); [|exact Hc].
      unfold neighbours. cbn [fst snd].
      repeat split; [lia|lia|intros Heq; injection Heq; lia].
Qed.

Lemma remaining_on_line (x1 y1 x2 y2 sx sy : Z) (p : Z * Z) :
  x2 - x1 = sx * Z.abs (x2 - x1) -> y2 - y1 = sy * Z.abs (y2 - y1) ->
  sx = 1 \/ sx = -1 -> sy = 1 \/ sy = -1 ->
  remaining (Z.abs (x2 - x1)) (Z.abs (y2 - y1)) sx sy x2 y2 p ->
  on_line x1 y1 x2 y2 p.
Proof.
  intros Hx Hy Hsx Hsy (ra & rb & Ha & Hb & Hra & Hrb & Hdev).
  destruct p as [px py]. unfold on_line, between. cbn [fst snd] in *.
  set (dx := Z.abs (x2 - x1)) in *. set (dy := Z.abs (y2 - y1)) in *.
  assert (Ex : px - x1 = sx * (dx - ra)) by lia.
  assert (Ey : py - y1 = sy * (dy - rb)) by lia.
  split; [destruct Hsx; subst sx; lia|].
  split; [destruct Hsy; subst sy; lia|].
  rewrite Ex, Ey, Hx, Hy.
  replace (sx * (dx - ra) * (sy * dy) - sy * (dy - rb) * (sx * dx))
    with (sx * sy * (rb * dx - ra * dy)) by ring.
  destruct Hsx, Hsy; subst sx sy; lia.
Qed.

(** X10. [drawLineBresenham] ends, for end points whose coordinates are within
    2^27 of 0.  It plots one more point than the longer side of the box of
    the two end points is long; the first point is the start and the last is
    the end; each point is next to the one before it (diagonals included);
    and every point is inside the box and within half a pixel of the
    segment. *)
Theorem bresenham_draws_the_segment (fuel : nat) (x1 y1 x2 y2 : Z) :
  Z.abs x1 <= 2 ^ 27 -> Z.abs y1 <= 2 ^ 27 ->
  Z.abs x2 <= 2 ^ 27 -> Z.abs y2 <= 2 ^ 27 ->
  Z.max (Z.abs (x2 - x1)) (Z.abs (y2 - y1)) < Z.of_nat fuel ->
  exists pts,
    drawLineBresenham fuel x1 y1 x2 y2 = Some pts /\
    Z.of_nat (length pts)
    = Z.max (Z.abs (x2 - x1)) (Z.abs (y2 - y1)) + 1 /\
    hd_error pts = Some (x1, y1) /\ last pts (x1, y1) = (x2, y2) /\
    connected pts /\ Forall (on_line x1 y1 x2 y2) pts.
Proof.
  intros Hx1 Hy1 Hx2 Hy2 Hf. unfold drawLineBresenham.
  rewrite (int_sub_exact x2 x1), (int_sub_exact y2 y1) by int_range.
  rewrite !int_abs_exact by lia.
  set (dx := Z.abs (x2 - x1)) in *. set (dy := Z.abs (y2 - y1)) in *.
  rewrite (int_sub_exact dx dy) by (subst dx dy; int_range).
  set (sx := if x1 <? x2 then 1 else -1).
  set (sy := if y1 <? y2 then 1 else -1).
  assert (Hsx : sx = 1 \/ sx = -1)
    by (subst sx; destruct (x1 <? x2); auto).
  assert (Hsy : sy = 1 \/ sy = -1)
    by (subst sy; destruct (y1 <? y2); auto).
  assert (Ex : x2 - x1 = sx * dx)
    by (subst sx dx; destruct (Z.ltb_spec x1 x2); lia).
  assert (Ey : y2 - y1 = sy * dy)
    by (subst sy dy; destruct (Z.ltb_spec y1 y2); lia).
  assert (Hdx : 0 <= dx <= 2 ^ 28) by (subst dx; lia).
  assert (Hdy : 0 <= dy <= 2 ^ 28) by (subst dy; lia).
  assert (Hloop : exists pre,
    bresenham_loop fuel dx dy sx sy x2 y2 x1 y1 (dx - dy)
    = Some (pre ++ [(x2, y2)]) /\
    Z.of_nat (length pre) = Z.max dx dy /\
    hd_error (pre ++ [(x2, y2)]) = Some (x1, y1) /\
    connected (pre ++ [(x2, y2)]) /\
    Forall (remaining dx dy sx sy x2 y2) (pre ++ [(x2, y2)])).
  { destruct (Z_lt_le_dec dx dy) as [Hlt|Hge].
    - destruct (bresenham_loop_tall dx dy sx sy x2 y2)
        with (n := Z.to_nat dy) (fuel := fuel) (x1 := x1) (y1 := y1)
             (err := dx - dy) (ra := dx)
        as (pre & E & Hl & H); try rewrite Z2Nat.id; try lia.
      exists pre. split; [exact E|]. split; [lia|exact H].
    - destruct (Z.eq_dec dx 0) as [H0|H0].
      + assert (dy = 0) by lia. assert (x1 = x2) by lia.
        assert (y1 = y2) by lia. subst x1 y1.
        destruct fuel as [|fuel]; [cbn in Hf; lia|].
        exists []. cbn [bresenham_loop app length hd_error connected].
        rewrite !Z.eqb_refl. cbn [andb].
        repeat split; [lia|].
        constructor; [|constructor]. exists 0, 0. cbn [fst snd]. lia.
      + destruct (bresenham_loop_wide dx dy sx sy x2 y2)
          with (n := Z.to_nat dx) (fuel := fuel) (x1 := x1) (y1 := y1)
               (err := dx - dy) (rb := dy)
          as (pre & E & Hl & H); try rewrite Z2Nat.id; try lia.
        exists pre. split; [exact E|]. split; [lia|exact H]. }
  destruct Hloop as (pre & E & Hl & Hh & Hc & Ha).
  exists (pre ++ [(x2, y2)]). rewrite E, length_app, last_last.
  cbn [length]. repeat split; try assumption; [lia|].
  eapply Forall_impl; [|exact Ha]. intros p Hp.
  apply (remaining_on_line x1 y1 x2 y2 sx sy); assumption.
Qed.

Lemma bresenham_draws_the_segment_witness :
  (Z.abs (-10) <= 2 ^ 27 /\ Z.abs (-10) <= 2 ^ 27 /\
   Z.abs (-20) <= 2 ^ 27 /\ Z.abs (-20) <= 2 ^ 27 /\
   Z.max (Z.abs (-20 - -10)) (Z.abs (-20 - -10)) < Z.of_nat 11) /\
  exists pts,
    drawLineBresenham 11 (-10) (-10) (-20) (-20) = Some pts /\
    Z.of_nat (length pts)
    = Z.max (Z.abs (-20 - -10)) (Z.abs (-20 - -10)) + 1 /\
    hd_error pts = Some (-10, -10) /\
    last pts (-10, -10) = (-20, -20) /\
    connected pts /\ Forall (on_line (-10) (-10) (-20) (-20)) pts.
Proof.
  assert (H1 : Z.abs (-10) <= 2 ^ 27) by (vm_compute; discriminate).
  assert (H2 : Z.abs (-20) <= 2 ^ 27) by (vm_compute; discriminate).
  assert (H3 : Z.max (Z.abs (-20 - -10)) (Z.abs (-20 - -10)) < Z.of_nat 11)
    by reflexivity.
  split; [auto|].
  exact (bresenham_draws_the_segment 11 (-10) (-10) (-20) (-20)
           H1 H1 H2 H2 H3).
Defined.

(** *** The circle *)

Lemma circle_loop_offsets {A : Type} (plot : Z -> Z -> list A) (fuel : nat) :
  forall x y d,
    circle_loop plot fuel x y d
    = option_map (flat_map (fun p => plot (fst p) (snd p)))
        (circle_offsets fuel x y d).
Proof.
  unfold circle_offsets.
  induction fuel as [|fuel IH]; intros x y d; cbn [circle_loop];
    destruct (x <=? y); try reflexivity.
  destruct (d <? 0); rewrite IH;
    destruct (circle_loop _ fuel _ _ _); cbn [option_map]; try reflexivity;
    cbn [app flat_map fst snd]; now rewrite app_nil_r.
Qed.

(** The loop from a state that the loop has reached for radius [n]. *)
Lemma circle_offsets_arc (n : Z) :
  0 <= n <= 2 ^ 20 ->
  forall (fuel : nat) (x y d : Z),
    0 <= x <= y -> y <= n ->
    d = x * x + y * y - n * n + 2 * x + 1 - y ->
    - y <= x * x + y * y - n * n <= y ->
    y + 1 - x <= Z.of_nat fuel ->
    exists pre p,
      circle_offsets fuel x y d = Some (pre ++ [p]) /\
      hd_error (pre ++ [p]) = Some (x, y) /\
      snd p - fst p <= 1 /\
      connected (pre ++ [p]) /\
      Forall (on_circle n) (pre ++ [p]) /\
      map fst (pre ++ [p])
      = map (fun i => x + Z.of_nat i) (seq 0 (length (pre ++ [p]))).
Proof.
  intros Hn. unfold circle_offsets.
  induction fuel as [|fuel IH]; intros x y d Hx Hy Hd Hf Hfuel; [lia|].
  cbn [circle_loop]. destruct (Z.leb_spec x y) as [_|]; [|lia].
  rewrite (int_add_exact x 1) by int_range.
  assert (Hon : on_circle n (x, y)).
  { unfold on_circle. cbn [fst snd]. lia. }
  assert (Hshift : forall l : list nat,
    map (fun i => x + 1 + Z.of_nat i) l
    = map (fun i => x + Z.of_nat i) (map S l)).
  { intros l. rewrite map_map. apply map_ext. intros i. lia. }
  assert (Hstep : forall y' d',
    y - 1 <= y' <= y ->
    (x + 1 <= y' ->
     d' = (x + 1) * (x + 1) + y' * y' - n * n + 2 * (x + 1) + 1 - y' /\
     - y' <= (x + 1) * (x + 1) + y' * y' - n * n <= y') ->
    exists pre p,
      option_map (app [(x, y)])
        (circle_loop (fun x y => [(x, y)]) fuel (x + 1) y' d')
      = Some (pre ++ [p]) /\
      hd_error (pre ++ [p]) = Some (x, y) /\
      snd p - fst p <= 1 /\
      connected (pre ++ [p]) /\
      Forall (on_circle n) (pre ++ [p]) /\
      map fst (pre ++ [p])
      = map (fun i => x + Z.of_nat i) (seq 0 (length (pre ++ [p])))).
  { intros y' d' Hy' Hinv. destruct (Z_le_gt_dec (x + 1) y') as [Hle|Hgt].
    - destruct (Hinv Hle) as [Hd' Hf'].
      destruct (IH (x + 1) y' d') as (pre & p & E & Hh & Hp & Hc & Ha & Hm);
        try lia.
      exists ((x, y) :: pre), p. rewrite E. cbn [option_map app].
      repeat split; try assumption.
      + apply (connected_cons _ _ _ Hh); [|exact Hc].
        unfold neighbours. cbn [fst snd].
        repeat split; [lia|lia|intros Heq; injection Heq; lia].
      + now constructor.
      + cbn [map length seq fst]. rewrite Hm, Hshift, seq_shift.
        f_equal. lia.
    - exists [], (x, y). destruct fuel as [|fuel']; cbn [circle_loop];
        (destruct (Z.leb_spec (x + 1) y') as [|_]; [lia|]);
        cbn [option_map app hd_error connected fst snd map length seq].
      all: repeat split; try lia; try (now constructor).
      all: f_equal; lia. }
  destruct (Z.ltb_spec d 0) as [Hneg|Hpos].
  - rewrite (int_mul_exact 2 (x + 1)) by int_range.
    rewrite (int_add_exact (2 * (x + 1)) 1) by int_range.
    rewrite (int_add_exact d) by int_range.
    apply Hstep; lia.
  - rewrite (int_sub_exact y 1) by int_range.
    rewrite (int_sub_exact (x + 1) (y - 1)) by int_range.
    rewrite (int_mul_exact 2) by int_range.
    rewrite (int_add_exact (2 * (x + 1 - (y - 1))) 1) by int_range.
    rewrite (int_add_exact d) by int_range.
    apply Hstep; lia.
Qed.

(** Whole radii survive the conversions at the head of
    [drawCircleMidpoint]. *)
Lemma whole_radius (n : Z) :
  0 <= n < 1000 ->
  float_to_int (F32.of_Z n) = n /\
  float_to_int (F32.of_Z 1 - F32.of_Z n)%f32 = 1 - n.
Proof.
  intros Hn.
  pose proof (all_below_spec
    (fun n => (float_to_int (F32.of_Z n) =? n)
              && (float_to_int (F32.of_Z 1 - F32.of_Z n)%f32 =? 1 - n))
    1000) as H.
  cbv beta in H. specialize (H ltac:(vm_compute; reflexivity) n Hn).
  apply andb_prop in H as [H1 H2]. split; now apply Z.eqb_eq.
Qed.

(** X11. [drawCircleMidpoint] ends for a whole radius [n] from 0 to 999, given
    one iteration more than [n].  It calls [plotCirclePoints] on an arc that
    starts at (0, n), moves one column to the right in every step and at
    most one row down, stays between the y axis and the diagonal, ends on the
    diagonal or one row above it, and whose points have a squared distance
    from the centre that differs from [n] squared by at most [n]. *)
Theorem midpoint_circle_arc (fuel : nat) (cx cy : F32.t) (n : Z) :
  0 <= n < 1000 -> n < Z.of_nat fuel ->
  exists pre p,
    drawCircleMidpoint fuel cx cy (F32.of_Z n)
    = Some (flat_map (fun q => plotCirclePoints cx cy (fst q) (snd q))
              (pre ++ [p])) /\
    hd_error (pre ++ [p]) = Some (0, n) /\
    snd p - fst p <= 1 /\
    connected (pre ++ [p]) /\
    Forall (on_circle n) (pre ++ [p]) /\
    map fst (pre ++ [p]) = map Z.of_nat (seq 0 (length (pre ++ [p]))).
Proof.
  intros Hn Hf. unfold drawCircleMidpoint.
  destruct (whole_radius n Hn) as [-> ->].
  destruct (circle_offsets_arc n) with (fuel := fuel) (x := 0) (y := n)
    (d := 1 - n) as (pre & p & E & H); try lia.
  exists pre, p. rewrite circle_loop_offsets, E. cbn [option_map].
  split; [reflexivity|exact H].
Qed.

Lemma midpoint_circle_arc_witness :
  (0 <= 15 < 1000 /\ 15 < Z.of_nat 16) /\
  exists pre p,
    drawCircleMidpoint 16 (F32.of_Z 0) (F32.of_Z 0) (F32.of_Z 15)
    = Some (flat_map
              (fun q =>
                 plotCirclePoints (F32.of_Z 0) (F32.of_Z 0) (fst q) (snd q))
              (pre ++ [p])) /\
    hd_error (pre ++ [p]) = Some (0, 15) /\
    snd p - fst p <= 1 /\
    connected (pre ++ [p]) /\
    Forall (on_circle 15) (pre ++ [p]) /\
    map fst (pre ++ [p]) = map Z.of_nat (seq 0 (length (pre ++ [p]))).
Proof.
  assert (H1 : 0 <= 15 < 1000) by lia.
  assert (H2 : 15 < Z.of_nat 16) by reflexivity.
  split; [auto|].
  exact (midpoint_circle_arc 16 (F32.of_Z 0) (F32.of_Z 0) 15 H1 H2).
Defined.

(** *** Tracks *)

Lemma survivors_subseq {A : Type} (act : A -> bool) (f : A -> A)
  (l l' : list A) :
  Forall2 (moved_or_gone act f) l l' ->
  Subseq (erase_remove_if (fun a => negb (act a)) l') (map f l).
Proof.
  induction 1 as [|a a' l l' Ha _ IH]; cbn [erase_remove_if map];
    [constructor|].
  destruct (act a') eqn:E; cbn [negb].
  - rewrite (Ha E). now constructor.
  - now constructor.
Qed.

Lemma moved_then_kept {A : Type} (act : A -> bool) (f : A -> A)
  (l l1 l2 : list A) :
  Forall2 (moved_or_gone act f) l l1 ->
  Forall2 (moved_or_gone act (fun a => a)) l1 l2 ->
  Forall2 (moved_or_gone act f) l l2.
Proof.
  intros H. revert l2.
  induction H as [|a a1 l l1 Ha _ IH]; intros l2 H2; inversion H2; subst;
    constructor; [|now apply IH].
  intros E. match goal with H : moved_or_gone _ _ a1 _ |- _ =>
    pose proof (H E) as E1 end.
  subst. now apply Ha.
Qed.

Lemma update_bullet_track (bs : list Bullet.t) :
  Forall2 (moved_or_gone Bullet.active climb) bs (map update_bullet bs).
Proof.
  induction bs as [|b bs IH]; cbn [map]; constructor; [|exact IH].
  unfold moved_or_gone, update_bullet, climb.
  destruct (Bullet.active b) eqn:E; [|congruence].
  destruct (F32.ltb _ _); [discriminate|reflexivity].
Qed.

Lemma update_enemies_track (es : list Enemy.t) :
  forall p st,
    Forall2 (moved_or_gone Enemy.active fall) es
      (fst (fst (update_enemies es p st))).
Proof.
  induction es as [|e es IH]; intros p st; cbn [update_enemies fst];
    [constructor|].
  destruct (update_enemy e p st) as [[e1 p1] st1] eqn:He.
  specialize (IH p1 st1).
  destruct (update_enemies es p1 st1) as [[es2 p2] st2]. cbn [fst] in *.
  constructor; [|exact IH].
  apply (f_equal (fun t => fst (fst t))) in He. cbn [fst] in He. subst e1.
  unfold moved_or_gone, update_enemy, fall.
  destruct (Enemy.active e) eqn:E; [|cbn [fst]; congruence].
  cbn [Enemy.y Enemy.set_y Enemy.x].
  destruct (F32.ltb (F32.sub _ _) _); destruct (F32.ltb (distance _ _) _);
    cbn [fst Enemy.active Enemy.set_active Enemy.set_y];
    try discriminate; reflexivity.
Qed.

Lemma update_powerUps_track (us : list PowerUp.t) :
  forall p,
    Forall2 (moved_or_gone PowerUp.active sink) us
      (fst (update_powerUps us p)).
Proof.
  induction us as [|u us IH]; intros p; cbn [update_powerUps fst];
    [constructor|].
  destruct (update_powerUp u p) as [u1 p1] eqn:Hu.
  specialize (IH p1).
  destruct (update_powerUps us p1) as [us2 p2]. cbn [fst] in *.
  constructor; [|exact IH].
  apply (f_equal fst) in Hu. cbn [fst] in Hu. subst u1.
  unfold moved_or_gone, update_powerUp, sink.
  destruct (PowerUp.active u) eqn:E; [|cbn [fst]; congruence].
  cbn [PowerUp.y PowerUp.set_y PowerUp.x].
  destruct (F32.ltb (F32.sub _ _) _); destruct (F32.ltb (distance _ _) _);
    cbn [fst PowerUp.active PowerUp.set_active PowerUp.set_y];
    try discriminate; reflexivity.
Qed.

Lemma kept_refl {A : Type} (act : A -> bool) (l : list A) :
  Forall2 (moved_or_gone act (fun a => a)) l l.
Proof. induction l; constructor; [now intros _|assumption]. Qed.

Lemma scan_enemies_track (es : list Enemy.t) :
  forall b p t b' es' p' t',
    scan_enemies b es p t = (b', es', p', t') ->
    moved_or_gone Bullet.active (fun a => a) b b' /\
    Forall2 (moved_or_gone Enemy.active (fun a => a)) es es'.
Proof.
  induction es as [|e es IH]; intros b p t b' es' p' t'; cbn [scan_enemies].
  - intros H. injection H as <- <- _ _. split; [now intros _|constructor].
  - destruct (hit_enemy b e p t) as [[[b1 e1] p1] t1] eqn:Hh.
    destruct (scan_enemies b1 es p1 t1) as [[[b2 es2] p2] t2] eqn:Hs.
    intros H. injection H as <- <- _ _.
    destruct (IH _ _ _ _ _ _ _ Hs) as [Hb Hes].
    destruct (hit_enemy_cases b e p t) as [[_ E]|[(_ & _ & E)|(_ & _ & E)]];
      rewrite E in Hh; injection Hh as <- <- _ _.
    + split; [exact Hb|]. constructor; [now intros _|exact Hes].
    + split; [exact Hb|]. constructor; [now intros _|exact Hes].
    + split; [|constructor; [discriminate|exact Hes]].
      intros E2. specialize (Hb E2). subst b2. discriminate.
Qed.

Lemma scan_bullets_track (bs : list Bullet.t) :
  forall es p t bs' es' p' t',
    scan_bullets bs es p t = (bs', es', p', t') ->
    Forall2 (moved_or_gone Bullet.active (fun a => a)) bs bs' /\
    Forall2 (moved_or_gone Enemy.active (fun a => a)) es es'.
Proof.
  induction bs as [|b bs IH]; intros es p t bs' es' p' t'; cbn [scan_bullets].
  - intros H. injection H as <- <- _ _. split; [constructor|apply kept_refl].
  - destruct (if Bullet.active b then scan_enemies b es p t else (b, es, p, t))
      as [[[b1 es1] p1] t1] eqn:Hb.
    destruct (scan_bullets bs es1 p1 t1) as [[[bs2 es2] p2] t2] eqn:Hs.
    intros H. injection H as <- <- _ _.
    destruct (IH _ _ _ _ _ _ _ Hs) as [Hbs Hes].
    assert (H1 : moved_or_gone Bullet.active (fun a => a) b b1 /\
                 Forall2 (moved_or_gone Enemy.active (fun a => a)) es es1).
    { destruct (Bullet.active b).
      - exact (scan_enemies_track _ _ _ _ _ _ _ _ Hb).
      - injection Hb as <- <- _ _. split; [now intros _|apply kept_refl]. }
    destruct H1 as [H1 H2]. split; [now constructor|].
    exact (moved_then_kept _ _ _ _ _ H2 Hes).
Qed.

Lemma flight_clock (g : Game) : flight (clock g) = flight g.
Proof. unfold clock, player_penalty, level_management. frame. Qed.

Lemma flight_moved (bs : list Bullet.t) (p : Player.t) (g : Game) :
  flight (set_bullets bs (set_player p g)) = (bs, enemies g, powerUps g).
Proof. reflexivity. Qed.

Lemma bullets_set_player (p : Player.t) (g : Game) :
  bullets (set_player p g) = bullets g.
Proof. reflexivity. Qed.

Lemma flight_spawn_enemy (g : Game) :
  exists new, (length new <= 1)%nat /\
    flight (spawn_enemy g) = (bullets g, enemies g ++ new, powerUps g).
Proof.
  unfold spawn_enemy, rand. destruct (F32.ltb _ _).
  - eexists [_]. split; [apply le_n|reflexivity].
  - exists []. split; [apply Nat.le_0_l|]. unfold flight.
    now rewrite app_nil_r.
Qed.

Lemma flight_spawn_powerUp (g : Game) :
  exists new, (length new <= 1)%nat /\
    flight (spawn_powerUp g) = (bullets g, enemies g, powerUps g ++ new).
Proof.
  unfold spawn_powerUp, rand. destruct (F32.ltb _ _).
  - eexists [_]. split; [apply le_n|reflexivity].
  - exists []. split; [apply Nat.le_0_l|]. unfold flight.
    now rewrite app_nil_r.
Qed.

Lemma flight_collide_enemies (g : Game) :
  exists es,
    Forall2 (moved_or_gone Enemy.active fall) (enemies g) es /\
    flight (collide_enemies g) = (bullets g, es, powerUps g).
Proof.
  unfold collide_enemies.
  pose proof (update_enemies_track (enemies g) (player g) (gameState g)) as H.
  destruct (update_enemies _ _ _) as [[es p] st]. cbn [fst] in H.
  exists es. split; [exact H|reflexivity].
Qed.

Lemma flight_collide_bullets (g : Game) :
  exists bs es,
    Forall2 (moved_or_gone Bullet.active (fun a => a)) (bullets g) bs /\
    Forall2 (moved_or_gone Enemy.active (fun a => a)) (enemies g) es /\
    flight (collide_bullets g) = (bs, es, powerUps g).
Proof.
  unfold collide_bullets.
  destruct (scan_bullets _ _ _ _) as [[[bs es] p] t] eqn:H.
  destruct (scan_bullets_track _ _ _ _ _ _ _ _ H) as [H1 H2].
  exists bs, es. split; [exact H1|]. split; [exact H2|reflexivity].
Qed.

Lemma flight_collide_powerUps (g : Game) :
  exists us,
    Forall2 (moved_or_gone PowerUp.active sink) (powerUps g) us /\
    flight (collide_powerUps g) = (bullets g, enemies g, us).
Proof.
  unfold collide_powerUps.
  pose proof (update_powerUps_track (powerUps g) (player g)) as H.
  destruct (update_powerUps _ _) as [us p]. cbn [fst] in H.
  exists us. split; [exact H|reflexivity].
Qed.

Lemma flight_cleanup (g : Game) :
  flight (cleanup g)
  = (erase_remove_if (fun b => negb (Bullet.active b)) (bullets g),
     erase_remove_if (fun e => negb (Enemy.active e)) (enemies g),
     erase_remove_if (fun u => negb (PowerUp.active u)) (powerUps g)).
Proof. reflexivity. Qed.

Lemma flight_parts (g : Game) (bs : list Bullet.t) (es : list Enemy.t)
  (us : list PowerUp.t) :
  flight g = (bs, es, us) ->
  bullets g = bs /\ enemies g = es /\ powerUps g = us.
Proof. unfold flight. intros H. injection H as -> -> ->. auto. Qed.

(** The collections after the blocks that follow the move of the bullets,
    from any state [h] in which the bullets have moved. *)
Lemma tracks_after_move (bs0 : list Bullet.t) (h : Game) :
  Forall2 (moved_or_gone Bullet.active climb) bs0 (bullets h) ->
  exists new_e new_u,
    (length new_e <= 1)%nat /\ (length new_u <= 1)%nat /\
    Subseq
      (bullets
         (cleanup
            (collide_powerUps
               (spawn_powerUp (collide_bullets (collide_enemies
                                                  (spawn_enemy h)))))))
      (map climb bs0) /\
    Subseq
      (enemies
         (cleanup
            (collide_powerUps
               (spawn_powerUp (collide_bullets (collide_enemies
                                                  (spawn_enemy h)))))))
      (map fall (enemies h ++ new_e)) /\
    Subseq
      (powerUps
         (cleanup
            (collide_powerUps
               (spawn_powerUp (collide_bullets (collide_enemies
                                                  (spawn_enemy h)))))))
      (map sink (powerUps h ++ new_u)).
Proof.
  intros Hb.
  destruct (flight_spawn_enemy h) as (new_e & Hne & E1).
  apply flight_parts in E1 as (B1 & N1 & U1).
  generalize dependent (spawn_enemy h). intros h1 B1 N1 U1.
  destruct (flight_collide_enemies h1) as (es2 & He2 & E2).
  apply flight_parts in E2 as (B2 & N2 & U2).
  generalize dependent (collide_enemies h1). intros h2 B2 N2 U2.
  destruct (flight_collide_bullets h2) as (bs3 & es3 & Hb3 & He3 & E3).
  apply flight_parts in E3 as (B3 & N3 & U3).
  generalize dependent (collide_bullets h2). intros h3 B3 N3 U3.
  destruct (flight_spawn_powerUp h3) as (new_u & Hnu & E4).
  apply flight_parts in E4 as (B4 & N4 & U4).
  generalize dependent (spawn_powerUp h3). intros h4 B4 N4 U4.
  destruct (flight_collide_powerUps h4) as (us5 & Hu5 & E5).
  apply flight_parts in E5 as (B5 & N5 & U5).
  generalize dependent (collide_powerUps h4). intros h5 B5 N5 U5.
  pose proof (flight_cleanup h5) as E6.
  apply flight_parts in E6 as (B6 & N6 & U6).
  rewrite B6, N6, U6, B5, N5, U5, B4, N4.
  exists new_e, new_u. split; [exact Hne|]. split; [exact Hnu|].
  rewrite B2, B1 in Hb3. rewrite N2 in He3. rewrite N1 in He2.
  rewrite U4, U3, U2, U1 in Hu5.
  split; [|split]; apply survivors_subseq.
  - rewrite B3. exact (moved_then_kept _ _ _ _ _ Hb Hb3).
  - rewrite N3. exact (moved_then_kept _ _ _ _ _ He2 He3).
  - exact Hu5.
Qed.

(** X12. A frame creates no bullet, at most one enemy and at most one
    power-up.  Every object it leaves in a collection was there before the
    frame, or is the one created in it; the objects keep their order, and
    each has moved by its own speed, a bullet up and an enemy or a power-up
    down, and is otherwise unchanged. *)
Theorem objects_keep_their_tracks (v : Z) (g : Game) :
  gameState g = PLAYING ->
  exists new_e new_u,
    (length new_e <= 1)%nat /\ (length new_u <= 1)%nat /\
    Subseq (bullets (update v g)) (map climb (bullets g)) /\
    Subseq (enemies (update v g)) (map fall (enemies g ++ new_e)) /\
    Subseq (powerUps (update v g)) (map sink (powerUps g ++ new_u)).
Proof.
  intros Hs. unfold update. rewrite Hs, simulate_clock.
  pose proof (flight_clock g) as Ec.
  apply flight_parts in Ec as (Bc & Nc & Uc).
  match goal with
  | |- context [spawn_enemy ?h0] =>
      assert (E0 : flight h0
                   = (map update_bullet (bullets g), enemies g, powerUps g))
        by (rewrite flight_moved, bullets_set_player, Bc, Nc, Uc;
            reflexivity);
      generalize dependent h0
  end.
  intros h0 E0. apply flight_parts in E0 as (B0 & N0 & U0).
  rewrite <- N0, <- U0. apply tracks_after_move.
  rewrite B0. apply update_bullet_track.
Qed.

Lemma objects_keep_their_tracks_witness :
  gameState column_state = PLAYING /\
  exists new_e new_u,
    (length new_e <= 1)%nat /\ (length new_u <= 1)%nat /\
    Subseq (bullets (update 0 column_state))
      (map climb (bullets column_state)) /\
    Subseq (enemies (update 0 column_state))
      (map fall (enemies column_state ++ new_e)) /\
    Subseq (powerUps (update 0 column_state))
      (map sink (powerUps column_state ++ new_u)).
Proof.
  assert (H : gameState column_state = PLAYING) by (vm_compute; reflexivity).
  split; [exact H|].
  exact (objects_keep_their_tracks 0 column_state H).
Defined.

(** *** Moves *)

Lemma at_grid_move_left (c : bool) (i j : Z) (p : Player.t) :
  4 <= i <= 156 -> position p = at_grid i j ->
  position (move_left c p) = at_grid (if c then Z.max 4 (i - 1) else i) j.
Proof.
  intros Hi Hp. rewrite position_move_left, Hp. unfold at_grid.
  destruct c; [|reflexivity]. rewrite move_low_grid by lia. reflexivity.
Qed.

Lemma at_grid_move_right (c : bool) (i j : Z) (p : Player.t) :
  4 <= i <= 156 -> position p = at_grid i j ->
  position (move_right c p) = at_grid (if c then Z.min 156 (i + 1) else i) j.
Proof.
  intros Hi Hp. rewrite position_move_right, Hp. unfold at_grid.
  destruct c; [|reflexivity].
  change (F32.of_Z WIDTH) with (F32.of_Z 800).
  rewrite (move_high_grid 800 156 i); auto.
Qed.

Lemma at_grid_move_up (c : bool) (i j : Z) (p : Player.t) :
  4 <= j <= 116 -> position p = at_grid i j ->
  position (move_up c p) = at_grid i (if c then Z.min 116 (j + 1) else j).
Proof.
  intros Hj Hp. rewrite position_move_up, Hp. unfold at_grid.
  destruct c; [|reflexivity].
  change (F32.of_Z HEIGHT) with (F32.of_Z 600).
  rewrite (move_high_grid 600 116 j); auto.
Qed.

Lemma at_grid_move_down (c : bool) (i j : Z) (p : Player.t) :
  4 <= j <= 156 -> position p = at_grid i j ->
  position (move_down c p) = at_grid i (if c then Z.max 4 (j - 1) else j).
Proof.
  intros Hj Hp. rewrite position_move_down, Hp. unfold at_grid.
  destruct c; [|reflexivity]. rewrite move_low_grid by lia. reflexivity.
Qed.

(** X13. A frame moves the player as the held keys say, one grid step of 5 per
    axis: left and then right, each stopped at 20 and 780, and up and then
    down, each stopped at 580 and 20; capitals count as their letters.  Held
    together, opposite keys cancel, except at the left edge, where the
    player moves one step right, and at the top edge, where it moves one
    step down.  No other block of the frame moves the player. *)
Theorem player_follows_keys (v : Z) (g : Game) (i j : Z) :
  gameState g = PLAYING -> 4 <= i <= 156 -> 4 <= j <= 116 ->
  position (player g) = at_grid i j ->
  position (player (update v g))
  = at_grid (next_column (keys g) i) (next_row (keys g) j) /\
  (keys g "a"%char && keys g "d"%char = true ->
   next_column (keys g) i = if i =? 4 then 5 else i) /\
  (keys g "w"%char && keys g "s"%char = true ->
   next_row (keys g) j = if j =? 116 then 115 else j).
Proof.
  intros Hs Hi Hj Hp. split; [|split].
  - rewrite position_update by exact Hs. rewrite move_player_blocks.
    unfold next_column, next_row.
    apply at_grid_move_down; [destruct (_ || _); lia|].
    apply at_grid_move_up; [lia|].
    apply at_grid_move_right; [destruct (_ || _); lia|].
    now apply at_grid_move_left.
  - intros H. apply andb_prop in H as [Ha Hd]. unfold next_column.
    rewrite Ha, Hd. cbn [orb]. destruct (Z.eqb_spec i 4); lia.
  - intros H. apply andb_prop in H as [Hw Hd]. unfold next_row.
    rewrite Hw, Hd. cbn [orb]. destruct (Z.eqb_spec j 116); lia.
Qed.

Lemma player_follows_keys_witness :
  (gameState (start rs_zero) = PLAYING /\ 4 <= 80 <= 156 /\ 4 <= 10 <= 116 /\
   position (player (start rs_zero)) = at_grid 80 10) /\
  position (player (update 0 (start rs_zero)))
  = at_grid (next_column (keys (start rs_zero)) 80)
      (next_row (keys (start rs_zero)) 10) /\
  (keys (start rs_zero) "a"%char && keys (start rs_zero) "d"%char = true ->
   next_column (keys (start rs_zero)) 80 = if 80 =? 4 then 5 else 80) /\
  (keys (start rs_zero) "w"%char && keys (start rs_zero) "s"%char = true ->
   next_row (keys (start rs_zero)) 10 = if 10 =? 116 then 115 else 10).
Proof.
  assert (H1 : gameState (start rs_zero) = PLAYING) by reflexivity.
  assert (H2 : 4 <= 80 <= 156) by lia.
  assert (H3 : 4 <= 10 <= 116) by lia.
  assert (H4 : position (player (start rs_zero)) = at_grid 80 10)
    by (vm_compute; reflexivity).
  split; [auto|].
  exact (player_follows_keys 0 (start rs_zero) 80 10 H1 H2 H3 H4).
Defined.

(** *** Spawners *)










